(** * Copilot shim: request queue, session manager, page interaction and the
      chat-completion handler

    A shallow embedding of the TypeScript sources

      - [src/utils/config.ts]      (module [Cfg])
      - [src/api/queue.ts]         (module [Queue])
      - [src/types/openai.ts]      (module [OpenAI])
      - [src/browser/sessions.ts]  (module [Sessions])
      - [src/browser/models.ts]    (module [Models])
      - [src/browser/copilot.ts]   (module [Copilot])
      - [src/browser/manager.ts]   (module [Manager])
      - [src/api/handlers.ts]      (module [Handlers])
      - [src/index.ts]             ([shutdown], in module [Handlers])

    Node runs every callback to its next [await] without interruption, so
    each synchronous stretch of code is one function on the state of the
    process, and the event loop is the list of events that is folded over
    that state. *)

From Stdlib Require Import ZArith String Ascii List Bool Lia DecimalString.
From stdpp Require Import base tactics option list strings.

Local Open Scope string_scope.
Local Open Scope list_scope.
Local Open Scope nat_scope.

(** Concatenation of strings, [+] in the sources and in their templates. *)
Local Infix "+++" := String.append (at level 60, right associativity).

(** ** JavaScript strings and thrown values *)

Module JS.

(** Strings are sequences of code units below U+0100 (Latin-1). *)

(** [WhiteSpace] and [LineTerminator] code units below U+0100. *)
Definition isWhiteSpace (c : ascii) : bool :=
  let n := nat_of_ascii c in
  ((9 <=? n) && (n <=? 13)) || (n =? 32) || (n =? 160).

Fixpoint trimStart (s : string) : string :=
  match s with
  | EmptyString => EmptyString
  | String c rest => if isWhiteSpace c then trimStart rest else s
  end.

Fixpoint rev_string (acc s : string) : string :=
  match s with
  | EmptyString => acc
  | String c rest => rev_string (String c acc) rest
  end.

Definition trimEnd (s : string) : string :=
  rev_string EmptyString (trimStart (rev_string EmptyString s)).

(** [String.prototype.trim] *)
Definition trim (s : string) : string := trimEnd (trimStart s).

Definition lowerChar (c : ascii) : ascii :=
  let n := nat_of_ascii c in
  if ((65 <=? n) && (n <=? 90))
     || ((192 <=? n) && (n <=? 222) && negb (n =? 215))
  then ascii_of_nat (n + 32) else c.

(** [String.prototype.toLowerCase] *)
Fixpoint toLowerCase (s : string) : string :=
  match s with
  | EmptyString => EmptyString
  | String c rest => String (lowerChar c) (toLowerCase rest)
  end.

(** [Array.prototype.join] *)
Fixpoint join (sep : string) (l : list string) : string :=
  match l with
  | [] => ""
  | [x] => x
  | x :: rest => x +++ sep +++ join sep rest
  end.

(** [String.prototype.includes] *)
Fixpoint includes (needle s : string) : bool :=
  String.prefix needle s
  || match s with
     | EmptyString => false
     | String _ rest => includes needle rest
     end.

(** The line feed, as a string. *)
Definition newline : string := String (ascii_of_nat 10) EmptyString.

(** The double quote, as a string. *)
Definition dquote : string := String (ascii_of_nat 34) EmptyString.

(** A string is truthy when it is not empty. *)
Definition truthy (s : string) : bool :=
  match s with EmptyString => false | _ => true end.

(** Template interpolation of a non-negative integer. *)
Definition ofNat (n : nat) : string := NilEmpty.string_of_uint (Nat.to_uint n).

(** An [Error] object, by its message. *)
Inductive Error := mkError (message : string).

Definition message (e : Error) : string := let 'mkError m := e in m.

(** What a [catch] clause can receive: an [Error], or any other value,
    given by its [String(...)] conversion. *)
Inductive Thrown :=
| ThrownError (e : Error)
| ThrownValue (str : string).

(** [String(error)], as a template interpolates it. *)
Definition describe (x : Thrown) : string :=
  match x with
  | ThrownError e => "Error: " +++ message e
  | ThrownValue str => str
  end.

(** [error instanceof Error ? error : new Error(String(error))] *)
Definition asError (x : Thrown) : Error :=
  match x with
  | ThrownError e => e
  | ThrownValue s => mkError s
  end.

(** How a promise ends. *)
Inductive Outcome (T : Type) :=
| Fulfilled (v : T)
| RejectedWith (x : Thrown).
Arguments Fulfilled {T} v.
Arguments RejectedWith {T} x.

End JS.

(** ** [src/utils/config.ts] *)

Module Cfg.

Record Config := {
  navigationTimeout : Z;
  responseTimeout : Z;
  loginCheckTimeout : Z;
  maxQueueSize : nat;
  requestTimeout : Z;
}.

Definition config : Config := {|
  navigationTimeout := 60000;
  responseTimeout := 120000;
  loginCheckTimeout := 5000;
  maxQueueSize := 100;
  requestTimeout := 180000;
|}.

End Cfg.

(** ** [src/api/queue.ts] *)

Module Queue.
Import JS Cfg.

Section RequestQueue.
(** [T] is the result type of the queued operations, [Op] the operations
    themselves ([execute : () => Promise<T>]). Calling [execute] gives a
    promise, as the type says and as the one caller's async arrow function
    does; the promise settles in a later turn of the event loop. *)
Context {T Op : Type}.
Variable cfg : Config.

(** An item is a heap object: [itemId] is its identity, and stands for
    the promise whose [resolve] and [reject] the item holds. *)
Record QueueItem := {
  itemId : nat;
  execute : Op;
  timeoutId : option nat;
}.

(** The item [enqueue] builds, with the handle [setTimeout] gave. *)
Definition newItem (id : nat) (op : Op) : QueueItem :=
  {| itemId := id; execute := op; timeoutId := Some id |}.

(** What a caller's promise was settled with. *)
Inductive Settlement :=
| Resolved (v : T)
| Rejected (e : Error).

(** The two fields of the class, then the part of the runtime the class
    acts on (armed timers, pending [execute()] promises), then the
    history of what happened. *)
Record RequestQueue := {
  queue : list QueueItem;
  processing : bool;
  nextId : nat;
  timers : list nat;
  running : list QueueItem;
  accepted : list nat;
  started : list QueueItem;
  settled : list (nat * Settlement);
}.

Definition init : RequestQueue := {|
  queue := []; processing := false; nextId := 0; timers := [];
  running := []; accepted := []; started := []; settled := [];
|}.

Definition queueFullError : Error :=
  mkError ("Queue is full (max " +++ ofNat (maxQueueSize cfg) +++ " requests)").
Definition queueTimeoutError : Error :=
  mkError "Request timeout while waiting in queue".
Definition queueClearedError : Error :=
  mkError "Queue cleared - server shutting down".

(** [clearTimeout] *)
Definition clearTimeout (t : option nat) (armed : list nat) : list nat :=
  match t with
  | Some id => filter (fun i => i ≠ id) armed
  | None => armed
  end.

(** [this.queue.indexOf(item)]: the position of that very object. *)
Fixpoint indexOf (id : nat) (l : list QueueItem) : option nat :=
  match l with
  | [] => None
  | it :: rest =>
      if Nat.eqb (itemId it) id then Some 0 else S <$> indexOf id rest
  end.

(** [this.queue.splice(index, 1)] *)
Definition splice1 (index : nat) (l : list QueueItem) : list QueueItem :=
  take index l ++ drop (S index) l.

(** [processNext], up to its [await item.execute()]. *)
Definition processNext (q : RequestQueue) : RequestQueue :=
  if processing q || (length (queue q) =? 0) then q
  else
    match queue q with
    | [] =>
        {| queue := []; processing := false; nextId := nextId q;
           timers := timers q; running := running q;
           accepted := accepted q; started := started q;
           settled := settled q |}
    | item :: rest =>
        {| queue := rest; processing := true; nextId := nextId q;
           timers := clearTimeout (timeoutId item) (timers q);
           running := running q ++ [item];
           accepted := accepted q;
           started := started q ++ [item];
           settled := settled q |}
    end.

(** [processNext], from the moment the promise of [item.execute()] has
    settled with [r]: [try]/[catch], then [finally]. *)
Definition settlement (r : Outcome T) : Settlement :=
  match r with
  | Fulfilled result => Resolved result
  | RejectedWith error => Rejected (asError error)
  end.

Definition processNext_resume (item : QueueItem) (r : Outcome T)
    (q : RequestQueue) : RequestQueue :=
  processNext
    {| queue := queue q; processing := false; nextId := nextId q;
       timers := timers q;
       running := filter (fun it => itemId it ≠ itemId item) (running q);
       accepted := accepted q; started := started q;
       settled := settled q ++ [(itemId item, settlement r)] |}.

(** The callback given to [setTimeout] in [enqueue]. *)
Definition onTimeout (id : nat) (q : RequestQueue) : RequestQueue :=
  match indexOf id (queue q) with
  | Some index =>
      {| queue := splice1 index (queue q); processing := processing q;
         nextId := nextId q; timers := timers q; running := running q;
         accepted := accepted q; started := started q;
         settled := settled q ++ [(id, Rejected queueTimeoutError)] |}
  | None => q
  end.

(** What [enqueue] hands back: an already rejected promise, or the
    pending promise of the new item. *)
Inductive Enqueued :=
| Threw (e : Error)
| Pending (id : nat).

Definition enqueue (op : Op) (q : RequestQueue) : RequestQueue * Enqueued :=
  if maxQueueSize cfg <=? length (queue q) then (q, Threw queueFullError)
  else
    let id := nextId q in
    let item := newItem id op in
    (processNext
       {| queue := queue q ++ [item]; processing := processing q;
          nextId := S id; timers := timers q ++ [id];
          running := running q; accepted := accepted q ++ [id];
          started := started q; settled := settled q |},
     Pending id).

(** [clear] *)
Definition clear (q : RequestQueue) : RequestQueue :=
  {| queue := []; processing := processing q; nextId := nextId q;
     timers := fold_left (fun armed it => clearTimeout (timeoutId it) armed)
                         (queue q) (timers q);
     running := running q; accepted := accepted q; started := started q;
     settled := settled q ++
                map (fun it => (itemId it, Rejected queueClearedError))
                    (queue q) |}.

(** *** The event loop, as seen from the queue *)

Inductive Event :=
| EnqueueCall (op : Op)
| TimerFires (id : nat)
| ExecuteSettles (id : nat) (r : Outcome T)
| ClearCall.

Definition find_running (id : nat) (q : RequestQueue) : option QueueItem :=
  find (fun it => Nat.eqb (itemId it) id) (running q).

(** A timer fires only while armed, and only once; the promise of
    [execute()] settles only for an operation that was started and has
    not settled yet. *)
Definition step (q : RequestQueue) (ev : Event) : RequestQueue :=
  match ev with
  | EnqueueCall op => fst (enqueue op q)
  | TimerFires id =>
      if bool_decide (id ∈ timers q) then
        onTimeout id
          {| queue := queue q; processing := processing q;
             nextId := nextId q;
             timers := filter (fun i => i ≠ id) (timers q);
             running := running q; accepted := accepted q;
             started := started q; settled := settled q |}
      else q
  | ExecuteSettles id r =>
      match find_running id q with
      | Some item => processNext_resume item r q
      | None => q
      end
  | ClearCall => clear q
  end.

Definition run (evs : list Event) (q : RequestQueue) : RequestQueue :=
  fold_left step evs q.

(** *** What holds in every state the event loop can reach *)

Record Wf (q : RequestQueue) : Prop := {
  inv_running : length (running q) = if processing q then 1 else 0;
  inv_timers : timers q = map itemId (queue q);
  inv_timeoutId :
    Forall (fun it => timeoutId it = Some (itemId it)) (queue q);
  inv_fresh : Forall (fun i => i < nextId q) (accepted q);
  inv_nodup : NoDup (accepted q);
  inv_fifo :
    sublist (map itemId (started q) ++ map itemId (queue q)) (accepted q);
  inv_running_started :
    Forall (fun it => itemId it ∈ map itemId (started q)) (running q);
  inv_settled_once : NoDup (map fst (settled q));
  inv_settled_gone :
    Forall (fun e => (fst e ∈ accepted q)
                     /\ (fst e ∉ map itemId (queue q))
                     /\ (fst e ∉ map itemId (running q))) (settled q);
}.

(** Between two callbacks the worker is idle only when nothing waits. *)
Definition Inv (q : RequestQueue) : Prop :=
  Wf q /\ (processing q = false -> queue q = []).

(** The promise of item [id] has not been started and is not waiting:
    it cannot be started any more. *)
Definition dropped (id : nat) (q : RequestQueue) : Prop :=
  id < nextId q /\ (id ∉ map itemId (started q))
  /\ (id ∉ map itemId (queue q)).

(** *** A batch: calls of [enqueue], then the operations finishing *)



Fixpoint itemsFrom (k : nat) (ops : list Op) : list QueueItem :=
  match ops with
  | [] => []
  | op :: rest => newItem k op :: itemsFrom (S k) rest
  end.



(** [getPendingCount] and [isProcessing] *)
Definition getPendingCount (q : RequestQueue) : nat := length (queue q).

Definition isProcessing (q : RequestQueue) : bool := processing q.

(** The promises that are not settled: the one of the operation that
    runs, then those of the operations that wait. *)
Definition pendingIds (q : RequestQueue) : list nat :=
  map itemId (running q) ++ map itemId (queue q).

End RequestQueue.

End Queue.

(** ** [src/types/openai.ts] *)

Module OpenAI.

Record ChatMessage := { role : string; content : string }.

(** The parsed JSON body. [messages] is [None] when the field is missing
    or is not an array; [stream] is the truthiness of the field. *)
Record ChatCompletionRequest := {
  model : option string;
  messages : option (list ChatMessage);
  stream : bool;
  session_id : option string;
}.

Record ErrorResponse := {
  error_message : string;
  error_type : string;
  error_code : string;
}.

Record ChatCompletionResponse := {
  response_id : string;
  created : Z;
  response_model : string;
  response_content : string;
  response_session_id : string;
}.

(** The interface [Model], an entry of the answer to [GET /v1/models]. *)
Record ModelInfo := {
  model_id : string;
  model_created : Z;
  owned_by : string;
}.

End OpenAI.

(** ** [src/browser/models.ts] *)

Module Models.
Import JS OpenAI.

Inductive CopilotModel := Auto | Quick | Think | GPT52Quick | GPT52Think.

(** The values of the enum. *)
Definition uiName (m : CopilotModel) : string :=
  match m with
  | Auto => "Auto"
  | Quick => "Quick response"
  | Think => "Think deeper"
  | GPT52Quick => "GPT-5.2 Quick response"
  | GPT52Think => "GPT-5.2 Think deeper"
  end.

Definition modelsInMoreSection (m : CopilotModel) : bool :=
  match m with
  | GPT52Quick | GPT52Think => true
  | _ => false
  end.

(** The own properties of the object literal [modelMapping]. *)
Definition modelMapping : list (string * CopilotModel) :=
  [ ("copilot-auto", Auto); ("auto", Auto);
    ("copilot-quick", Quick); ("gpt-4o", Quick); ("gpt-4o-mini", Quick);
    ("gpt-4", Quick); ("gpt-3.5-turbo", Quick);
    ("copilot-think", Think); ("o1", Think); ("o1-mini", Think);
    ("o1-preview", Think);
    ("gpt-5.2", GPT52Quick); ("gpt-5.2-quick", GPT52Quick);
    ("gpt-5", GPT52Quick);
    ("gpt-5.2-think", GPT52Think); ("o3", GPT52Think);
    ("o3-mini", GPT52Think) ].

(** [modelMapping] is a plain object, so [modelMapping[key]] also finds
    what it inherits from [Object.prototype]; all of these are functions
    or objects, hence truthy. *)
Definition objectPrototype : list string :=
  [ "constructor"; "__defineGetter__"; "__defineSetter__"; "hasOwnProperty";
    "__lookupGetter__"; "__lookupSetter__"; "isPrototypeOf";
    "propertyIsEnumerable"; "toString"; "valueOf"; "__proto__";
    "toLocaleString" ].

(** What a property read on [modelMapping] yields when it yields
    something. *)
Inductive Value :=
| Model (m : CopilotModel)
| Inherited (key : string).

Fixpoint assoc {V : Type} (key : string) (l : list (string * V)) : option V :=
  match l with
  | [] => None
  | (k, v) :: rest => if String.eqb k key then Some v else assoc key rest
  end.

Definition getProperty (key : string) : option Value :=
  match assoc key modelMapping with
  | Some m => Some (Model m)
  | None =>
      if existsb (String.eqb key) objectPrototype then Some (Inherited key)
      else None
  end.

(** [String(value)] *)
Definition toText (v : Value) : string :=
  match v with
  | Model m => uiName m
  | Inherited key =>
      if String.eqb key "__proto__" then "[object Object]"
      else "function "
           +++ (if String.eqb key "constructor" then "Object" else key)
           +++ "() { [native code] }"
  end.

(** [modelsInMoreSection.has(value)] *)
Definition inMoreSection (v : Value) : bool :=
  match v with
  | Model m => modelsInMoreSection m
  | Inherited _ => false
  end.

Definition defaultModel : CopilotModel := Auto.

Definition availableModelNames : list string :=
  [ "copilot-auto"; "copilot-quick"; "copilot-think"; "gpt-5.2-quick";
    "gpt-5.2-think" ].

(** [modelMapping[normalized] || null] *)
Definition mapModelName (modelName : string) : option Value :=
  let normalized := trim (toLowerCase modelName) in
  getProperty normalized.

Definition getCopilotModel (modelName : option string) : Value :=
  match modelName with
  | Some name =>
      if truthy name then
        match mapModelName name with
        | Some v => v
        | None => Model defaultModel
        end
      else Model defaultModel
  | None => Model defaultModel
  end.

(** A name that [modelMapping] lists, once it is put in lower case and
    trimmed: what a recognized model name is, with [mapModelName]
    returning null if the model is not recognized. *)
Definition recognized (modelName : string) : bool :=
  existsb (String.eqb (trim (toLowerCase modelName))) (map fst modelMapping).

Definition isValidModel (modelName : string) : bool :=
  match mapModelName modelName with
  | Some _ => true
  | None => false
  end.

Definition createModelNotFoundError (modelName : string) : ErrorResponse :=
  {| error_message :=
       "Model '" +++ modelName +++ "' is not supported. Available models: "
       +++ join ", " availableModelNames;
     error_type := "invalid_request_error";
     error_code := "model_not_found" |}.

(** [getAvailableModels]: the field [data] of its result. *)
Definition getAvailableModels (now : Z) : list ModelInfo :=
  map (fun id => {| model_id := id; model_created := (now / 1000)%Z;
                    owned_by := "microsoft-copilot" |})
      availableModelNames.

End Models.

(** ** [src/browser/sessions.ts] *)

Module Sessions.
Import JS.

(** A browser page (tab), by its identity. *)
Definition Page := nat.

Record Session := {
  id : string;
  page : Page;
  createdAt : Z;
  lastActivityAt : Z;
  messageCount : nat;
}.

Module SESSION_CONFIG.
Definition timeoutMs : Z := 30 * 60 * 1000.
Definition cleanupIntervalMs : Z := 5 * 60 * 1000.
Definition maxSessions : nat := 10.
End SESSION_CONFIG.

(** [Map<string, Session>]: one entry per key, iterated in the order in
    which the keys were first inserted. *)
Definition SessionMap := list (string * Session).

Fixpoint map_get (key : string) (m : SessionMap) : option Session :=
  match m with
  | [] => None
  | (k, v) :: rest => if String.eqb k key then Some v else map_get key rest
  end.

Fixpoint map_set (key : string) (value : Session) (m : SessionMap)
    : SessionMap :=
  match m with
  | [] => [(key, value)]
  | (k, v) :: rest =>
      if String.eqb k key then (key, value) :: rest
      else (k, v) :: map_set key value rest
  end.

Definition map_delete (key : string) (m : SessionMap) : SessionMap :=
  List.filter (fun e => negb (String.eqb (fst e) key)) m.

Definition map_has (key : string) (m : SessionMap) : bool :=
  match map_get key m with Some _ => true | None => false end.

(** An assignment to a field of the session object stored under [key]. *)
Fixpoint map_mutate (key : string) (f : Session -> Session) (m : SessionMap)
    : SessionMap :=
  match m with
  | [] => []
  | (k, v) :: rest =>
      if String.eqb k key then (k, f v) :: rest
      else (k, v) :: map_mutate key f rest
  end.

(** The registry, and the pages on which [close()] has been called.
    Whether [page.close()] rejects changes what is printed and nothing
    else, so its outcome is left out. *)
Record SessionManager := {
  sessions : SessionMap;
  closed : list Page;
}.

(** What a [Map] filled by [createSession] is: one entry per key, each
    session stored under its own [id]. *)
Definition wf (m : SessionManager) : Prop :=
  NoDup (map fst (sessions m))
  /\ Forall (fun e => fst e = id (snd e)) (sessions m).

Definition closeSession (sessionId : string) (m : SessionManager)
    : SessionManager * bool :=
  match map_get sessionId (sessions m) with
  | None => (m, false)
  | Some session =>
      ({| sessions := map_delete sessionId (sessions m);
          closed := closed m ++ [page session] |}, true)
  end.

Definition isExpired (now : Z) (session : Session) : bool :=
  (now - lastActivityAt session >? SESSION_CONFIG.timeoutMs)%Z.

Definition expiredIds (now : Z) (m : SessionManager) : list string :=
  map fst (List.filter (fun e => isExpired now (snd e)) (sessions m)).

Definition cleanupExpiredSessions (now : Z) (m : SessionManager)
    : SessionManager :=
  fold_left (fun m id => fst (closeSession id m)) (expiredIds now m) m.

Definition older (oldest : option Session) (session : Session)
    : option Session :=
  match oldest with
  | None => Some session
  | Some o =>
      if (lastActivityAt session <? lastActivityAt o)%Z then Some session
      else Some o
  end.

Definition getOldestSession (m : SessionManager) : option Session :=
  fold_left older (map snd (sessions m)) None.

(** [r] is the first of the sessions of [l] with the smallest
    [lastActivityAt]. *)
Definition first_oldest (r : Session) (l : list Session) : Prop :=
  exists b a,
    l = b ++ r :: a
    /\ Forall (fun s => (lastActivityAt r < lastActivityAt s)%Z) b
    /\ Forall (fun s => (lastActivityAt r <= lastActivityAt s)%Z) a.

(** Every session of [m'] was already in [m], with a message count that
    was not larger. *)
Definition kept (m m' : SessionMap) : Prop :=
  forall key s', map_get key m' = Some s' ->
    exists s, map_get key m = Some s /\ messageCount s <= messageCount s'.

(** Every session of [m'] was already in [m], with the same message
    count. *)
Definition unchanged (m m' : SessionMap) : Prop :=
  forall key s', map_get key m' = Some s' ->
    exists s, map_get key m = Some s /\ messageCount s = messageCount s'.

(** What the surroundings give to one call of [createSession]: the times
    read from the clock, the identifier drawn, and how the calls into the
    browser end. The call is followed from its first line to its last: no
    other callback touches the registry while it is suspended. *)
Record CreateEnv := {
  sweepNow : Z;
  getContext : Outcome (option unit);
  newPage : Outcome Page;
  uuidv4 : string;
  createNow : Z;
  goto : Outcome unit;
}.

(** The first part of [createSession]: making room. *)
Definition makeRoom (env : CreateEnv) (m : SessionManager) : SessionManager :=
  if SESSION_CONFIG.maxSessions <=? length (sessions m) then
    let m1 := cleanupExpiredSessions (sweepNow env) m in
    if SESSION_CONFIG.maxSessions <=? length (sessions m1) then
      match getOldestSession m1 with
      | Some oldestSession => fst (closeSession (id oldestSession) m1)
      | None => m1
      end
    else m1
  else m.

Definition createSession (env : CreateEnv) (m : SessionManager)
    : SessionManager * Outcome Session :=
  let m1 := makeRoom env m in
  match getContext env with
  | RejectedWith x => (m1, RejectedWith x)
  | Fulfilled None =>
      (m1, RejectedWith (ThrownError (mkError "Browser not initialized")))
  | Fulfilled (Some _) =>
      match newPage env with
      | RejectedWith x => (m1, RejectedWith x)
      | Fulfilled page =>
          let sessionId := uuidv4 env in
          let now := createNow env in
          match goto env with
          | RejectedWith x => (m1, RejectedWith x)
          | Fulfilled _ =>
              let session :=
                {| id := sessionId; page := page; createdAt := now;
                   lastActivityAt := now; messageCount := 0 |} in
              ({| sessions := map_set sessionId session (sessions m1);
                  closed := closed m1 |},
               Fulfilled session)
          end
      end
  end.

Definition getSession (sessionId : string) (m : SessionManager)
    : option Session :=
  map_get sessionId (sessions m).

Definition hasSession (sessionId : string) (m : SessionManager) : bool :=
  map_has sessionId (sessions m).

Definition bump (now : Z) (s : Session) : Session :=
  {| id := id s; page := page s; createdAt := createdAt s;
     lastActivityAt := now; messageCount := messageCount s |}.

Definition getOrCreateSession (sessionId : option string) (now : Z)
    (env : CreateEnv) (m : SessionManager)
    : SessionManager * Outcome Session :=
  match sessionId with
  | Some sid =>
      if truthy sid then
        match map_get sid (sessions m) with
        | Some existing =>
            ({| sessions := map_mutate sid (bump now) (sessions m);
                closed := closed m |},
             Fulfilled (bump now existing))
        | None => createSession env m
        end
      else createSession env m
  | None => createSession env m
  end.

Definition touch (now : Z) (s : Session) : Session :=
  {| id := id s; page := page s; createdAt := createdAt s;
     lastActivityAt := now; messageCount := S (messageCount s) |}.

Definition touchSession (sessionId : string) (now : Z) (m : SessionManager)
    : SessionManager :=
  match map_get sessionId (sessions m) with
  | Some _ =>
      {| sessions := map_mutate sessionId (touch now) (sessions m);
         closed := closed m |}
  | None => m
  end.

(** [closeAllSessions]. The calls of [closeSession] are made one after
    the other, and each of them runs up to its [await session.page.close()]
    before the next is made: every key is looked up in the registry as it
    was, and the pages are closed in the order of the keys; the entries
    are deleted when the calls resume. [Promise.all] then waits for all
    of them. The cleanup interval, which the function stops last, is
    not part of the state. *)
Definition closeAllSessions (m : SessionManager) : SessionManager :=
  let ids := map fst (sessions m) in
  let found := List.filter (fun id => map_has id (sessions m)) ids in
  {| sessions := fold_left (fun acc id => map_delete id acc) found (sessions m);
     closed :=
       closed m
       ++ omap (fun id => page <$> map_get id (sessions m)) ids |}.

(** [getStats] *)
Record SessionInfo := {
  info_id : string;
  info_createdAt : Z;
  info_lastActivityAt : Z;
  info_messageCount : nat;
  idleMinutes : Z;
}.

Record SessionsResponse := {
  activeSessions : nat;
  maxSessions : nat;
  info_sessions : list SessionInfo;
}.

(** The arrow function that [getStats] maps over the sessions;
    [Math.floor] of the quotient is the quotient of [Z]. *)
Definition sessionInfo (now : Z) (s : Session) : SessionInfo :=
  {| info_id := id s;
     info_createdAt := createdAt s;
     info_lastActivityAt := lastActivityAt s;
     info_messageCount := messageCount s;
     idleMinutes := ((now - lastActivityAt s) / 60000)%Z |}.

Definition getStats (now : Z) (m : SessionManager) : SessionsResponse :=
  {| activeSessions := length (sessions m);
     maxSessions := SESSION_CONFIG.maxSessions;
     info_sessions := map (sessionInfo now) (map snd (sessions m)) |}.

End Sessions.

(** ** [src/browser/copilot.ts] and [src/browser/selectors.ts] *)

Module Copilot.
Import JS Cfg.

(** The entries of [selectors] that the code uses, and the literal selector
    of the last fallback of [extractLastResponseFromPage]. *)
Inductive Selector :=
| modelSelectorButton
| modelOption (model : Models.Value)
| moreSection
| chatInput
| responseContainer
| assistantMessage
| lastAssistantMessage
| stopButton
| loadingIndicator
| newChatButton
| anyMessage.

(** An [ElementHandle]. *)
Definition Element := nat.

(** The calls into a page, for the examples that keep a record of them. *)
Inductive Call :=
| CallGoto
| CallQuery (selector : Selector)
| CallQueryAll (selector : Selector)
| CallWaitForSelector (selector : Selector)
| CallClick (selector : Selector)
| CallType (selector : Selector) (text : string)
| CallPress (key : string)
| CallElementClick (element : Element)
| CallElementFill (element : Element) (text : string)
| CallTextContent (element : Element).

(** How a call ends: it returns, it throws, or (a polling loop that is
    never left) it does neither. *)
Inductive Result (A : Type) :=
| Returned (a : A)
| Threw (x : Thrown)
| Unsettled.
Arguments Returned {A} a.
Arguments Threw {A} x.
Arguments Unsettled {A}.

(** [formatMessagesAsPrompt] *)
Definition formatMessage (msg : OpenAI.ChatMessage) : string :=
  if String.eqb (OpenAI.role msg) "system" then
    "[System Instructions]" +++ newline +++ OpenAI.content msg
  else if String.eqb (OpenAI.role msg) "assistant" then
    "[Previous Assistant Response]" +++ newline +++ OpenAI.content msg
  else OpenAI.content msg.

Definition formatMessagesAsPrompt (messages : list OpenAI.ChatMessage)
    : string :=
  match messages with
  | [only] => OpenAI.content only
  | _ => join (newline +++ newline) (map formatMessage messages)
  end.

Section Page.
(** [World] is the state of the browser and of everything else that
    moves while the function is suspended. *)
Variable World : Type.

(** The Playwright page the functions are given. Every awaited call
    settles; a timer ([randomDelay]) just lets the world move on. *)
Record Page := {
  url : World -> string;
  page_goto : World -> Outcome unit * World;
  query : Selector -> World -> Outcome (option Element) * World;
  queryAll : Selector -> World -> Outcome (list Element) * World;
  waitForSelector : Selector -> Z -> World -> Outcome unit * World;
  page_click : Selector -> World -> Outcome unit * World;
  page_type : Selector -> string -> World -> Outcome unit * World;
  keyboard_press : string -> World -> Outcome unit * World;
  element_click : Element -> World -> Outcome unit * World;
  element_fill : Element -> string -> World -> Outcome unit * World;
  textContent : Element -> World -> Outcome (option string) * World;
  randomDelay : Z -> Z -> World -> World;
  dateNow : World -> Z;
}.

Variable page : Page.
Variable cfg : Config.

(** The state threaded through a function: the world and the console. *)
Definition St : Type := World * list string.

Definition M (A : Type) : Type := St -> Result A * St.

Definition ret {A} (a : A) : M A := fun s => (Returned a, s).

Definition throw {A} (x : Thrown) : M A := fun s => (Threw x, s).

Definition bind {A B} (m : M A) (k : A -> M B) : M B :=
  fun s =>
    match m s with
    | (Returned a, s') => k a s'
    | (Threw x, s') => (Threw x, s')
    | (Unsettled, s') => (Unsettled, s')
    end.

(** [await] of a call into the page. *)
Definition await {A} (call : World -> Outcome A * World) : M A :=
  fun s =>
    match call (fst s) with
    | (Fulfilled a, w) => (Returned a, (w, snd s))
    | (RejectedWith x, w) => (Threw x, (w, snd s))
    end.

(** [try { body } catch (error) { handler }] *)
Definition tryCatch {A} (body : M A) (handler : Thrown -> M A) : M A :=
  fun s =>
    match body s with
    | (Threw x, s') => handler x s'
    | other => other
    end.

Definition log (line : string) : M unit :=
  fun s => (Returned tt, (fst s, snd s ++ [line])).

Definition delay (minMs maxMs : Z) : M unit :=
  fun s => (Returned tt, (randomDelay page minMs maxMs (fst s), snd s)).

Definition now : M Z := fun s => (Returned (dateNow page (fst s)), s).

Definition unsettled {A} : M A := fun s => (Unsettled, s).

(** [m] always ends, by returning or by throwing. *)
Definition settles {A} (m : M A) : Prop :=
  forall s, fst (m s) <> Unsettled.

(** [m] always returns. *)
Definition returns {A} (m : M A) : Prop :=
  forall s, exists a s', m s = (Returned a, s').

#[local] Instance M_ret : MRet M := @ret.
#[local] Instance M_bind : MBind M := fun A B k m => bind m k.

(** [src/utils/humanize.ts] *)
Definition microDelay : M unit := delay 50 150.
Definition shortDelay : M unit := delay 200 600.
Definition thinkingDelay : M unit := delay 800 2000.
Definition consideringDelay : M unit := delay 1500 4000.
Definition jitterBeforeAction : M unit := delay 100 400.

Definition ensureOnCopilot : M unit :=
  fun s =>
    (if negb (includes "m365.cloud.microsoft/chat" (url page (fst s))) then
       log "[Copilot] Navigating to Copilot...";;
       await (page_goto page);;
       thinkingDelay
     else ret tt) s.

Definition selectModelOnPage (model : Models.Value) : M unit :=
  log ("[Copilot] Selecting model: " +++ Models.toText model);;
  tryCatch
    (jitterBeforeAction;;
     modelButton ← await (query page modelSelectorButton);
     match modelButton with
     | None =>
         log "[Copilot] Model selector button not found, skipping model selection"
     | Some button =>
         await (element_click page button);;
         shortDelay;;
         (if Models.inMoreSection model then
            jitterBeforeAction;;
            moreButton ← await (query page moreSection);
            match moreButton with
            | Some more => await (element_click page more);; shortDelay
            | None => ret tt
            end
          else ret tt);;
         jitterBeforeAction;;
         await (waitForSelector page (modelOption model) 5000);;
         await (page_click page (modelOption model));;
         shortDelay;;
         log ("[Copilot] Model " +++ dquote +++ Models.toText model
              +++ dquote +++ " selected successfully")
     end)
    (fun error =>
       log ("[Copilot] Error selecting model: " +++ describe error);;
       shortDelay;;
       await (keyboard_press page "Escape")).

(** One turn of the loop over [possibleSelectors]: [Some text] when the
    function returns [text] from inside the loop. *)
Definition trySelector (selector : Selector) : M (option string) :=
  tryCatch
    (elements ← await (queryAll page selector);
     match last elements with
     | Some lastElement =>
         text ← await (textContent page lastElement);
         match text with
         | Some t =>
             if truthy t && truthy (trim t) then ret (Some (trim t))
             else ret None
         | None => ret None
         end
     | None => ret None
     end)
    (fun _ => ret None).

Fixpoint trySelectors (possibleSelectors : list Selector)
    : M (option string) :=
  match possibleSelectors with
  | [] => ret None
  | selector :: rest =>
      r ← trySelector selector;
      match r with
      | Some text => ret (Some text)
      | None => trySelectors rest
      end
  end.

(** The fallback after the loop. *)
Definition tryAnyMessage : M (option string) :=
  tryCatch
    (allMessages ← await (queryAll page anyMessage);
     match last allMessages with
     | Some lastMessage =>
         text ← await (textContent page lastMessage);
         match text with
         | Some t => if truthy t then ret (Some (trim t)) else ret None
         | None => ret None
         end
     | None => ret None
     end)
    (fun _ => ret None).

Definition extractionError : Error :=
  mkError "Could not extract response from page".

Definition extractLastResponseFromPage : M string :=
  r ← trySelectors [lastAssistantMessage; assistantMessage; responseContainer];
  match r with
  | Some text => ret text
  | None =>
      r ← tryAnyMessage;
      match r with
      | Some text => ret text
      | None => throw (ThrownError extractionError)
      end
  end.

Definition startNewChatOnPage : M unit :=
  log "[Copilot] Starting new chat...";;
  tryCatch
    (consideringDelay;;
     newChat ← await (query page newChatButton);
     match newChat with
     | Some button =>
         jitterBeforeAction;;
         await (element_click page button);;
         thinkingDelay;;
         log "[Copilot] New chat started"
     | None =>
         await (page_goto page);;
         thinkingDelay
     end)
    (fun error =>
       log ("[Copilot] Error starting new chat: " +++ describe error)).

(** The [while] loop of [waitForResponseOnPage]; the value is
    [responseComplete] when the loop is left. [fuel] bounds the number
    of turns the model follows. *)
Fixpoint pollUntilComplete (fuel : nat) (startTime : Z) : M bool :=
  t ← now;
  if (t - startTime <? responseTimeout cfg)%Z then
    match fuel with
    | 0 => unsettled
    | S fuel' =>
        delay 400 800;;
        stop ← await (query page stopButton);
        loading ← await (query page loadingIndicator);
        match stop, loading with
        | None, None => delay 800 1500;; ret true
        | _, _ => pollUntilComplete fuel' startTime
        end
    end
  else ret false.

Definition responseTimeoutError : Error :=
  mkError "Response timeout - Copilot took too long to respond".

Definition waitForResponseOnPage (fuel : nat) : M string :=
  startTime ← now;
  log "[Copilot] Waiting for response...";;
  tryCatch
    (await (waitForSelector page stopButton 10000);;
     log "[Copilot] Response generation started")
    (fun _ =>
       log "[Copilot] Stop button not detected, checking for response directly");;
  responseComplete ← pollUntilComplete fuel startTime;
  if negb responseComplete then throw (ThrownError responseTimeoutError)
  else
    log "[Copilot] Response complete, extracting text...";;
    shortDelay;;
    extractLastResponseFromPage.

Definition inputNotFoundError : Error := mkError "Chat input not found".

Definition sendMessageOnPage (fuel : nat) (message : string) : M string :=
  log ("[Copilot] Sending message ("
       +++ ofNat (String.length message) +++ " chars)...");;
  jitterBeforeAction;;
  await (waitForSelector page chatInput 10000);;
  input ← await (query page chatInput);
  match input with
  | None => throw (ThrownError inputNotFoundError)
  | Some input =>
      await (element_click page input);;
      delay 50 150;;
      await (keyboard_press page "Control+A");;
      delay 30 100;;
      await (keyboard_press page "Backspace");;
      shortDelay;;
      (if 200 <? String.length message then
         thinkingDelay;;
         await (element_fill page input message);;
         consideringDelay
       else await (page_type page chatInput message));;
      delay 300 800;;
      await (keyboard_press page "Enter");;
      waitForResponseOnPage fuel
  end.

Definition chatCompletionOnPage (fuel : nat) (message : string)
    (model : Models.Value) (isFirstMessage : bool) : M string :=
  ensureOnCopilot;;
  shortDelay;;
  (if isFirstMessage then
     startNewChatOnPage;;
     shortDelay;;
     selectModelOnPage model;;
     shortDelay
   else ret tt);;
  response ← sendMessageOnPage fuel message;
  shortDelay;;
  ret response.

End Page.

(** *** Extraction as the specification words it *)

(** A page that stands still: what each selector matches and the text of
    each element. *)
Record Snapshot := {
  elementsOf : Selector -> list Element;
  textOf : Element -> option string;
}.

(** A strategy yields the trimmed text of the last element it matches,
    when that text is not empty. *)
Definition yieldOf (snap : Snapshot) (selector : Selector) : option string :=
  match last (elementsOf snap selector) with
  | Some e =>
      match textOf snap e with
      | Some t => if truthy (trim t) then Some (trim t) else None
      | None => None
      end
  | None => None
  end.

Fixpoint firstYield (snap : Snapshot) (strategies : list Selector)
    : option string :=
  match strategies with
  | [] => None
  | selector :: rest =>
      match yieldOf snap selector with
      | Some text => Some text
      | None => firstYield snap rest
      end
  end.

(** The strategies in their order; the result of the first that yields,
    and the extraction error when none does. *)
Definition specified_extraction (snap : Snapshot) : Result string :=
  match firstYield snap [lastAssistantMessage; assistantMessage;
                         responseContainer; anyMessage] with
  | Some text => Returned text
  | None => Threw (ThrownError (mkError "Could not extract response from page"))
  end.

(** The Playwright page that shows a snapshot. *)
Definition still_page (snap : Snapshot) : Page unit :=
  {| url := fun _ => "https://m365.cloud.microsoft/chat";
     page_goto := fun w => (Fulfilled tt, w);
     query := fun sel w => (Fulfilled (head (elementsOf snap sel)), w);
     queryAll := fun sel w => (Fulfilled (elementsOf snap sel), w);
     waitForSelector := fun _ _ w => (Fulfilled tt, w);
     page_click := fun _ w => (Fulfilled tt, w);
     page_type := fun _ _ w => (Fulfilled tt, w);
     keyboard_press := fun _ w => (Fulfilled tt, w);
     element_click := fun _ w => (Fulfilled tt, w);
     element_fill := fun _ _ w => (Fulfilled tt, w);
     textContent := fun e w => (Fulfilled (textOf snap e), w);
     randomDelay := fun _ _ w => w;
     dateNow := fun _ => 0%Z |}.

(** The last element of the fallback holds a text made of blanks. *)
Definition blank_fallback (snap : Snapshot) : Prop :=
  exists e t, last (elementsOf snap anyMessage) = Some e
              /\ textOf snap e = Some t
              /\ truthy t = true /\ trim t = "".

End Copilot.

(** ** [src/browser/manager.ts] *)

Module Manager.
Import JS.

(** A [BrowserContext] and a [Page], by their identities. *)
Definition Context := nat.
Definition Page := nat.

(** The fields of [BrowserManager], and the contexts on which [close()]
    has succeeded. The calls on the manager are followed one at a time,
    each to its end, so that the promise kept in [initializing] has
    settled when the next call reads the field: it is given by how it
    settled. *)
Record BrowserManager := {
  context : option Context;
  page : option Page;
  initialized : bool;
  initializing : option (Outcome unit);
  currentHeadless : bool;
  closedContexts : list Context;
}.

Definition init : BrowserManager :=
  {| context := None; page := None; initialized := false;
     initializing := None; currentHeadless := true; closedContexts := [] |}.

(** What the surroundings give to one call of [doInitialize]: how the
    making of the data directory ends and how the browser answers. *)
Record LaunchEnv := {
  mkdirSync : Outcome unit;
  launchPersistentContext : Outcome Context;
  pages : list Page;
  newPage : Outcome Page;
}.

(** [close]; [contextClose] is how [this.context.close()] ends. *)
Definition close (contextClose : Outcome unit) (m : BrowserManager)
    : BrowserManager * Outcome unit :=
  match context m with
  | Some c =>
      match contextClose with
      | Fulfilled _ =>
          ({| context := None; page := None; initialized := false;
              initializing := initializing m;
              currentHeadless := currentHeadless m;
              closedContexts := closedContexts m ++ [c] |},
           Fulfilled tt)
      | RejectedWith x => (m, RejectedWith x)
      end
  | None => (m, Fulfilled tt)
  end.

(** The last lines of [doInitialize], once the page is there; that
    [bringToFront] may fail changes nothing. *)
Definition ready (headless : bool) (c : Context) (p : Page)
    (m : BrowserManager) : BrowserManager :=
  {| context := Some c; page := Some p; initialized := true;
     initializing := initializing m; currentHeadless := headless;
     closedContexts := closedContexts m |}.

Definition doInitialize (headless : bool) (env : LaunchEnv)
    (m : BrowserManager) : BrowserManager * Outcome unit :=
  match mkdirSync env with
  | RejectedWith x => (m, RejectedWith x)
  | Fulfilled _ =>
      match launchPersistentContext env with
      | RejectedWith x => (m, RejectedWith x)
      | Fulfilled c =>
          match pages env with
          | p :: _ => (ready headless c p m, Fulfilled tt)
          | [] =>
              match newPage env with
              | Fulfilled p => (ready headless c p m, Fulfilled tt)
              | RejectedWith x =>
                  ({| context := Some c; page := page m;
                      initialized := initialized m;
                      initializing := initializing m;
                      currentHeadless := currentHeadless m;
                      closedContexts := closedContexts m |},
                   RejectedWith x)
              end
          end
      end
  end.

Definition setInitializing (p : option (Outcome unit)) (m : BrowserManager)
    : BrowserManager :=
  {| context := context m; page := page m; initialized := initialized m;
     initializing := p; currentHeadless := currentHeadless m;
     closedContexts := closedContexts m |}.

(** [initialize]. The promise of [doInitialize] is stored before it is
    awaited, and the field is set back to [null] on the line after the
    [await]. *)
Definition initialize (headless : bool) (contextClose : Outcome unit)
    (env : LaunchEnv) (m : BrowserManager) : BrowserManager * Outcome unit :=
  match initializing m with
  | Some promise => (m, promise)
  | None =>
      let '(m1, closing) :=
        if initialized m && negb (Bool.eqb (currentHeadless m) headless)
        then close contextClose m else (m, Fulfilled tt) in
      match closing with
      | RejectedWith x => (m1, RejectedWith x)
      | Fulfilled _ =>
          if initialized m1 then (m1, Fulfilled tt)
          else
            match doInitialize headless env m1 with
            | (m2, RejectedWith x) =>
                (setInitializing (Some (RejectedWith x)) m2, RejectedWith x)
            | (m2, Fulfilled _) => (setInitializing None m2, Fulfilled tt)
            end
      end
  end.

(** [getContext]; [headless] is [config.headless]. *)
Definition getContext (headless : bool) (contextClose : Outcome unit)
    (env : LaunchEnv) (m : BrowserManager)
    : BrowserManager * Outcome (option Context) :=
  if negb (initialized m) then
    match initialize headless contextClose env m with
    | (m1, RejectedWith x) => (m1, RejectedWith x)
    | (m1, Fulfilled _) => (m1, Fulfilled (context m1))
    end
  else (m, Fulfilled (context m)).

(** [getPage]: the value of [this.page!]. *)
Definition getPage (headless : bool) (contextClose : Outcome unit)
    (env : LaunchEnv) (m : BrowserManager)
    : BrowserManager * Outcome (option Page) :=
  if negb (initialized m) || negb (bool_decide (is_Some (page m))) then
    match initialize headless contextClose env m with
    | (m1, RejectedWith x) => (m1, RejectedWith x)
    | (m1, Fulfilled _) => (m1, Fulfilled (page m1))
    end
  else (m, Fulfilled (page m)).

(** The calls on the manager. *)
Inductive Call :=
| Initialize (headless : bool) (contextClose : Outcome unit) (env : LaunchEnv)
| Close (contextClose : Outcome unit)
| GetContext (headless : bool) (contextClose : Outcome unit) (env : LaunchEnv)
| GetPage (headless : bool) (contextClose : Outcome unit) (env : LaunchEnv).

Definition step (m : BrowserManager) (call : Call) : BrowserManager :=
  match call with
  | Initialize headless contextClose env =>
      fst (initialize headless contextClose env m)
  | Close contextClose => fst (close contextClose m)
  | GetContext headless contextClose env =>
      fst (getContext headless contextClose env m)
  | GetPage headless contextClose env =>
      fst (getPage headless contextClose env m)
  end.

Definition run (calls : list Call) (m : BrowserManager) : BrowserManager :=
  fold_left step calls m.

(** What holds of the fields between two calls. *)
Definition Steady (m : BrowserManager) : Prop :=
  (initialized m = true ->
   is_Some (context m) /\ is_Some (page m) /\ initializing m = None)
  /\ (forall promise, initializing m = Some promise ->
        exists x, promise = RejectedWith x).

End Manager.

(** ** [src/api/handlers.ts] *)

Module Handlers.
Import JS Cfg OpenAI.

(** The closure given to [requestQueue.enqueue]: a call of
    [chatCompletionOnPage] with these arguments. *)
Record Exchange := {
  ex_page : Sessions.Page;
  ex_message : string;
  ex_model : Models.Value;
  ex_isFirstMessage : bool;
}.

(** What was written to [res]. *)
Inductive Response :=
| Status (code : nat) (body : ErrorResponse)
| Json (body : ChatCompletionResponse)
| Success (message : string).

(** A call of [handleChatCompletion] suspended at
    [await requestQueue.enqueue(...)], with the locals it still needs. *)
Record Suspended := {
  awaited : nat;
  sus_session : Sessions.Session;
  sus_requestedModel : option string;
}.

(** The singletons, the suspended handlers and the responses sent. *)
Record Server := {
  sessionManager : Sessions.SessionManager;
  requestQueue : @Queue.RequestQueue string Exchange;
  suspended : list Suspended;
  responses : list Response;
}.

Definition start : Server :=
  {| sessionManager := {| Sessions.sessions := []; Sessions.closed := [] |};
     requestQueue := Queue.init; suspended := []; responses := [] |}.

(** What the surroundings give when a request arrives. *)
Record RequestEnv := {
  arrivalNow : Z;
  create : Sessions.CreateEnv;
}.

(** What they give when the handler resumes after a successful exchange. *)
Record ResumeEnv := {
  touchNow : Z;
  responseUuid : string;
  responseNow : Z;
}.

Definition invalidMessages : ErrorResponse :=
  {| error_message := "messages is required and must be a non-empty array";
     error_type := "invalid_request_error";
     error_code := "invalid_messages" |}.

Definition streamingNotSupported : ErrorResponse :=
  {| error_message := "Streaming is not supported by this server";
     error_type := "invalid_request_error";
     error_code := "streaming_not_supported" |}.

Definition noUserMessage : ErrorResponse :=
  {| error_message := "No user message found in messages array";
     error_type := "invalid_request_error";
     error_code := "no_user_message" |}.

(** The [catch] clause of [handleChatCompletion]. *)
Definition internalError (error : Thrown) : ErrorResponse :=
  {| error_message :=
       match error with
       | ThrownError e => message e
       | ThrownValue _ => "Unknown error occurred"
       end;
     error_type := "server_error";
     error_code := "internal_error" |}.

Definition truthyModel (requestedModel : option string) : bool :=
  match requestedModel with
  | Some name => truthy name
  | None => false
  end.

(** [[...body.messages].reverse().find(m => m.role === 'user')] *)
Definition lastUserMessage (messages : list ChatMessage) : option ChatMessage :=
  List.find (fun m => String.eqb (role m) "user") (rev messages).

Section Handler.
Variable cfg : Config.

(** [handleChatCompletion] up to its [await requestQueue.enqueue(...)]:
    either a response has been sent, or the handler is suspended. The
    earlier [await sessionManager.getOrCreateSession(...)] is followed
    through in the same step. *)
Definition handleChatCompletion (env : RequestEnv)
    (body : ChatCompletionRequest) (srv : Server)
    : Server * (Response + Suspended) :=
  match messages body with
  | None | Some [] => (srv, inl (Status 400 invalidMessages))
  | Some msgs =>
      if stream body then (srv, inl (Status 400 streamingNotSupported))
      else
        let requestedModel := model body in
        if truthyModel requestedModel
           && negb (Models.isValidModel (default "" requestedModel))
        then
          (srv, inl (Status 400
             (Models.createModelNotFoundError (default "" requestedModel))))
        else
          let copilotModel := Models.getCopilotModel requestedModel in
          match Sessions.getOrCreateSession (session_id body)
                  (arrivalNow env) (create env) (sessionManager srv) with
          | (sm, RejectedWith error) =>
              ({| sessionManager := sm; requestQueue := requestQueue srv;
                  suspended := suspended srv; responses := responses srv |},
               inl (Status 500 (internalError error)))
          | (sm, Fulfilled session) =>
              let isFirstMessage := Sessions.messageCount session =? 0 in
              let messageToSend :=
                if isFirstMessage
                then Some (Copilot.formatMessagesAsPrompt msgs)
                else content <$> lastUserMessage msgs in
              match messageToSend with
              | None =>
                  ({| sessionManager := sm;
                      requestQueue := requestQueue srv;
                      suspended := suspended srv;
                      responses := responses srv |},
                   inl (Status 400 noUserMessage))
              | Some text =>
                  let op := {| ex_page := Sessions.page session;
                               ex_message := text;
                               ex_model := copilotModel;
                               ex_isFirstMessage := isFirstMessage |} in
                  match Queue.enqueue cfg op (requestQueue srv) with
                  | (q, Queue.Threw e) =>
                      ({| sessionManager := sm; requestQueue := q;
                          suspended := suspended srv;
                          responses := responses srv |},
                       inl (Status 500 (internalError (ThrownError e))))
                  | (q, Queue.Pending promise) =>
                      ({| sessionManager := sm; requestQueue := q;
                          suspended := suspended srv;
                          responses := responses srv |},
                       inr {| awaited := promise; sus_session := session;
                              sus_requestedModel := requestedModel |})
                  end
              end
          end
  end.

(** The rest of the [try] block, once the promise is fulfilled. *)
Definition handleChatCompletion_then (env : ResumeEnv) (k : Suspended)
    (responseText : string) (srv : Server) : Server * Response :=
  let sm := Sessions.touchSession (Sessions.id (sus_session k))
              (touchNow env) (sessionManager srv) in
  ({| sessionManager := sm; requestQueue := requestQueue srv;
      suspended := suspended srv; responses := responses srv |},
   Json {| response_id := "chatcmpl-" +++ responseUuid env;
           created := (responseNow env / 1000)%Z;
           response_model :=
             if truthyModel (sus_requestedModel k)
             then default "" (sus_requestedModel k) else "copilot-auto";
           response_content := responseText;
           response_session_id := Sessions.id (sus_session k) |}).

(** The [catch] clause, once the promise is rejected. *)
Definition handleChatCompletion_catch (k : Suspended) (error : Error)
    (srv : Server) : Server * Response :=
  (srv, Status 500 (internalError (ThrownError error))).

(** [handleDeleteSession] *)
Definition sessionNotFound (sessionId : string) : ErrorResponse :=
  {| error_message := "Session " +++ sessionId +++ " not found";
     error_type := "invalid_request_error";
     error_code := "session_not_found" |}.

Definition handleDeleteSession (sessionId : string) (srv : Server)
    : Server * Response :=
  match Sessions.closeSession sessionId (sessionManager srv) with
  | (sm, true) =>
      ({| sessionManager := sm; requestQueue := requestQueue srv;
          suspended := suspended srv; responses := responses srv |},
       Success ("Session " +++ sessionId +++ " closed"))
  | (sm, false) =>
      ({| sessionManager := sm; requestQueue := requestQueue srv;
          suspended := suspended srv; responses := responses srv |},
       Status 404 (sessionNotFound sessionId))
  end.

(** *** The event loop of the server *)

Inductive ServerEvent :=
| ChatCompletion (env : RequestEnv) (body : ChatCompletionRequest)
| ExchangeSettles (promise : nat) (r : Outcome string) (env : ResumeEnv)
| QueueTimerFires (promise : nat)
| CleanupInterval (now : Z)
| DeleteSession (sessionId : string).

Definition respond (r : Response) (srv : Server) : Server :=
  {| sessionManager := sessionManager srv;
     requestQueue := requestQueue srv;
     suspended := suspended srv;
     responses := responses srv ++ [r] |}.

Definition suspend (k : Suspended) (srv : Server) : Server :=
  {| sessionManager := sessionManager srv;
     requestQueue := requestQueue srv;
     suspended := suspended srv ++ [k];
     responses := responses srv |}.

Definition find_suspended (promise : nat) (srv : Server) : option Suspended :=
  List.find (fun k => Nat.eqb (awaited k) promise) (suspended srv).

Definition forget (promise : nat) (srv : Server) : Server :=
  {| sessionManager := sessionManager srv;
     requestQueue := requestQueue srv;
     suspended :=
       List.filter (fun k => negb (Nat.eqb (awaited k) promise))
                   (suspended srv);
     responses := responses srv |}.

Definition withQueue (q : @Queue.RequestQueue string Exchange)
    (srv : Server) : Server :=
  {| sessionManager := sessionManager srv; requestQueue := q;
     suspended := suspended srv; responses := responses srv |}.

(** The handler that awaits [promise] runs on once it is settled. *)
Definition deliver (promise : nat) (s : @Queue.Settlement string)
    (env : ResumeEnv) (srv : Server) : Server :=
  match find_suspended promise srv with
  | None => srv
  | Some k =>
      let '(srv, r) :=
        match s with
        | Queue.Resolved text =>
            handleChatCompletion_then env k text (forget promise srv)
        | Queue.Rejected e =>
            handleChatCompletion_catch k e (forget promise srv)
        end in
      respond r srv
  end.

Definition deliver_rejection (promise : nat) (e : Error) (srv : Server)
    : Server :=
  match find_suspended promise srv with
  | None => srv
  | Some k =>
      let '(srv, r) :=
        handleChatCompletion_catch k e (forget promise srv) in
      respond r srv
  end.

Definition server_step (srv : Server) (ev : ServerEvent) : Server :=
  match ev with
  | ChatCompletion env body =>
      match handleChatCompletion env body srv with
      | (srv, inl r) => respond r srv
      | (srv, inr k) => suspend k srv
      end
  | ExchangeSettles promise r env =>
      match Queue.find_running promise (requestQueue srv) with
      | None => srv
      | Some _ =>
          deliver promise (Queue.settlement r) env
            (withQueue
               (Queue.step cfg (requestQueue srv)
                  (Queue.ExecuteSettles promise r)) srv)
      end
  | QueueTimerFires promise =>
      if bool_decide (promise ∈ Queue.timers (requestQueue srv)) then
        deliver_rejection promise Queue.queueTimeoutError
          (withQueue
             (Queue.step cfg (requestQueue srv) (Queue.TimerFires promise))
             srv)
      else srv
  | CleanupInterval now =>
      {| sessionManager :=
           Sessions.cleanupExpiredSessions now (sessionManager srv);
         requestQueue := requestQueue srv;
         suspended := suspended srv; responses := responses srv |}
  | DeleteSession sessionId =>
      let '(srv, r) := handleDeleteSession sessionId srv in
      respond r srv
  end.

Definition server_run (evs : list ServerEvent) (srv : Server) : Server :=
  fold_left server_step evs srv.

(** [uuidv4] gives an identifier that is not in use. *)
Definition fresh_uuid (srv : Server) (ev : ServerEvent) : Prop :=
  match ev with
  | ChatCompletion env _ =>
      Sessions.uuidv4 (create env)
      ∉ map fst (Sessions.sessions (sessionManager srv))
  | _ => True
  end.

(** The steps that count a message for the session [key]: the exchange
    of a handler that was suspended for that session has been fulfilled,
    and the handler runs on. *)
Definition counts (srv : Server) (ev : ServerEvent) (key : string) : bool :=
  match ev with
  | ExchangeSettles promise (Fulfilled _) _ =>
      match Queue.find_running promise (requestQueue srv),
            find_suspended promise srv with
      | Some _, Some k => String.eqb (Sessions.id (sus_session k)) key
      | _, _ => false
      end
  | _ => false
  end.

(** An exchange has been started against [p] and has not finished. *)
Definition exchangeRunningOn (p : Sessions.Page) (srv : Server) : bool :=
  existsb (fun it => Nat.eqb (ex_page (Queue.execute it)) p)
          (Queue.running (requestQueue srv)).

End Handler.

(** [handleListModels] and [handleListSessions]: what is written to
    [res], at the time the handler reads the clock. *)
Definition handleListModels (now : Z) : list ModelInfo :=
  Models.getAvailableModels now.

Definition handleListSessions (now : Z) (srv : Server)
    : Sessions.SessionsResponse :=
  Sessions.getStats now (sessionManager srv).

(** [handleHealthCheck]; the timestamp is left out. *)
Record HealthStatus := {
  queue_pending : nat;
  queue_processing : bool;
  sessions_active : nat;
  sessions_max : nat;
}.

Definition handleHealthCheck (now : Z) (srv : Server) : HealthStatus :=
  let sessionStats := Sessions.getStats now (sessionManager srv) in
  {| queue_pending := Queue.getPendingCount (requestQueue srv);
     queue_processing := Queue.isProcessing (requestQueue srv);
     sessions_active := Sessions.activeSessions sessionStats;
     sessions_max := Sessions.maxSessions sessionStats |}.

(** The events that are requests: each of them is owed one response. *)
Definition is_request (ev : ServerEvent) : bool :=
  match ev with
  | ChatCompletion _ _ | DeleteSession _ => true
  | _ => false
  end.

(** The suspended handlers await the promises that are pending, one
    handler for each. *)
Definition Coherent (srv : Server) : Prop :=
  map awaited (suspended srv) ≡ₚ Queue.pendingIds (requestQueue srv).

(** *** The handlers, await by await *)

(** A call of [handleChatCompletion] suspended at
    [await sessionManager.getOrCreateSession(...)], with the locals it
    still needs. *)
Record Creating := {
  cr_messages : list ChatMessage;
  cr_requestedModel : option string;
  cr_copilotModel : Models.Value;
}.

Definition withSessions (sm : Sessions.SessionManager) (srv : Server)
    : Server :=
  {| sessionManager := sm; requestQueue := requestQueue srv;
     suspended := suspended srv; responses := responses srv |}.

(** [handleChatCompletion] up to its call of [getOrCreateSession]. *)
Definition handleChatCompletion_checks (body : ChatCompletionRequest)
    : Response + Creating :=
  match messages body with
  | None | Some [] => inl (Status 400 invalidMessages)
  | Some msgs =>
      if stream body then inl (Status 400 streamingNotSupported)
      else
        let requestedModel := model body in
        if truthyModel requestedModel
           && negb (Models.isValidModel (default "" requestedModel))
        then
          inl (Status 400
                 (Models.createModelNotFoundError (default "" requestedModel)))
        else
          let copilotModel := Models.getCopilotModel requestedModel in
          inr {| cr_messages := msgs; cr_requestedModel := requestedModel;
                 cr_copilotModel := copilotModel |}
  end.

(** [handleDeleteSession] from the moment the promise of [closeSession]
    is fulfilled. *)
Definition handleDeleteSession_resume (sessionId : string) (closed : bool)
    : Response :=
  if closed then Success ("Session " +++ sessionId +++ " closed")
  else Status 404 (sessionNotFound sessionId).

Section Live.
Variable cfg : Config.

(** [handleChatCompletion] from the moment the promise of
    [getOrCreateSession] has settled, up to
    [await requestQueue.enqueue(...)]. *)
Definition handleChatCompletion_resume (c : Creating)
    (r : Outcome Sessions.Session) (srv : Server)
    : Server * (Response + Suspended) :=
  match r with
  | RejectedWith error => (srv, inl (Status 500 (internalError error)))
  | Fulfilled session =>
      let isFirstMessage := Sessions.messageCount session =? 0 in
      let messageToSend :=
        if isFirstMessage
        then Some (Copilot.formatMessagesAsPrompt (cr_messages c))
        else content <$> lastUserMessage (cr_messages c) in
      match messageToSend with
      | None => (srv, inl (Status 400 noUserMessage))
      | Some text =>
          let op := {| ex_page := Sessions.page session;
                       ex_message := text;
                       ex_model := cr_copilotModel c;
                       ex_isFirstMessage := isFirstMessage |} in
          match Queue.enqueue cfg op (requestQueue srv) with
          | (q, Queue.Threw e) =>
              (withQueue q srv,
               inl (Status 500 (internalError (ThrownError e))))
          | (q, Queue.Pending promise) =>
              (withQueue q srv,
               inr {| awaited := promise; sus_session := session;
                      sus_requestedModel := cr_requestedModel c |})
          end
      end
  end.

(** [shutdown], up to its [await browserManager.close()]: the queue is
    cleared, and the handlers whose promises it rejected run on, in the
    order in which the promises were rejected. *)
Definition shutdown (srv : Server) : Server :=
  fold_left
    (fun srv it =>
       deliver_rejection (Queue.itemId it) Queue.queueClearedError srv)
    (Queue.queue (requestQueue srv))
    (withQueue (Queue.clear (requestQueue srv)) srv).

(** The server together with the handlers that are suspended inside the
    session manager: those of [POST /v1/chat/completions] at
    [await sessionManager.getOrCreateSession(...)], those of
    [DELETE /v1/sessions/:id] at [await sessionManager.closeSession(...)]. *)
Record Live := {
  server : Server;
  creating : list Creating;
  closing : list string;
}.

Definition live_start : Live :=
  {| server := start; creating := []; closing := [] |}.

(** What happens to the server, one callback at a time. The session
    manager is not followed through its awaits here: the promise of a
    call of [getOrCreateSession] or [closeSession] settles when it
    settles and with what it settles, and the registry may become any
    registry at any moment ([RegistryChanges]), whether by a call that
    runs on, by the cleanup interval, or by nothing at all. Which of the
    suspended handlers a promise belongs to is given by its position. *)
Inductive LiveEvent :=
| RequestArrives (body : ChatCompletionRequest)
| SessionSettles (i : nat) (r : Outcome Sessions.Session)
| DeleteArrives (sessionId : string)
| CloseSettles (i : nat) (closed : bool)
| ExchangeDone (promise : nat) (r : Outcome string) (env : ResumeEnv)
| QueueTimeout (promise : nat)
| RegistryChanges (sm : Sessions.SessionManager)
| Shutdown.

Definition onServer (f : Server -> Server) (l : Live) : Live :=
  {| server := f (server l); creating := creating l; closing := closing l |}.

Definition live_step (l : Live) (ev : LiveEvent) : Live :=
  match ev with
  | RequestArrives body =>
      match handleChatCompletion_checks body with
      | inl r => onServer (respond r) l
      | inr c =>
          {| server := server l; creating := creating l ++ [c];
             closing := closing l |}
      end
  | SessionSettles i r =>
      match creating l !! i with
      | None => l
      | Some c =>
          {| server :=
               match handleChatCompletion_resume c r (server l) with
               | (srv, inl r) => respond r srv
               | (srv, inr k) => suspend k srv
               end;
             creating := delete i (creating l);
             closing := closing l |}
      end
  | DeleteArrives sessionId =>
      {| server := server l; creating := creating l;
         closing := closing l ++ [sessionId] |}
  | CloseSettles i closed =>
      match closing l !! i with
      | None => l
      | Some sessionId =>
          {| server :=
               respond (handleDeleteSession_resume sessionId closed)
                       (server l);
             creating := creating l;
             closing := delete i (closing l) |}
      end
  | ExchangeDone promise r env =>
      onServer (fun srv => server_step cfg srv (ExchangeSettles promise r env))
               l
  | QueueTimeout promise =>
      onServer (fun srv => server_step cfg srv (QueueTimerFires promise)) l
  | RegistryChanges sm => onServer (withSessions sm) l
  | Shutdown => onServer shutdown l
  end.

Definition live_run (evs : list LiveEvent) (l : Live) : Live :=
  fold_left live_step evs l.

(** The events that are requests: each of them is owed one response. *)
Definition arrives (ev : LiveEvent) : bool :=
  match ev with
  | RequestArrives _ | DeleteArrives _ => true
  | _ => false
  end.

End Live.

End Handlers.

(** ** Concrete inputs *)

Module Examples.
Import JS Cfg.

(** Three calls of [enqueue]: the first operation runs, two wait. *)
Definition two_waiting : list (@Queue.Event string string) :=
  [Queue.EnqueueCall "a"; Queue.EnqueueCall "b"; Queue.EnqueueCall "c"].

Definition session (name : string) (p : Sessions.Page) (last : Z)
    (count : nat) : string * Sessions.Session :=
  (name, {| Sessions.id := name; Sessions.page := p;
            Sessions.createdAt := 0; Sessions.lastActivityAt := last;
            Sessions.messageCount := count |}).

(** A full registry; s1 and s3 share the smallest [lastActivityAt]. *)
Definition full_registry : Sessions.SessionManager :=
  {| Sessions.sessions :=
       [ session "s0" 0 50 1; session "s1" 1 30 2; session "s2" 2 70 0;
         session "s3" 3 30 1; session "s4" 4 90 1; session "s5" 5 60 3;
         session "s6" 6 80 1; session "s7" 7 40 1; session "s8" 8 95 0;
         session "s9" 9 99 1 ];
     Sessions.closed := [] |}.

Definition create_env (now : Z) (uuid : string) (p : Sessions.Page)
    : Sessions.CreateEnv :=
  {| Sessions.sweepNow := now;
     Sessions.getContext := Fulfilled (Some tt);
     Sessions.newPage := Fulfilled p;
     Sessions.uuidv4 := uuid;
     Sessions.createNow := now;
     Sessions.goto := Fulfilled tt |}.

Definition request_env (now : Z) (uuid : string) (p : Sessions.Page)
    : Handlers.RequestEnv :=
  {| Handlers.arrivalNow := now; Handlers.create := create_env now uuid p |}.

Definition resume_env (now : Z) : Handlers.ResumeEnv :=
  {| Handlers.touchNow := now; Handlers.responseUuid := "r";
     Handlers.responseNow := now |}.

Definition user_says (text : string) : OpenAI.ChatMessage :=
  {| OpenAI.role := "user"; OpenAI.content := text |}.

Definition system_says (text : string) : OpenAI.ChatMessage :=
  {| OpenAI.role := "system"; OpenAI.content := text |}.

(** A first request, without [session_id]. *)
Definition hello : OpenAI.ChatCompletionRequest :=
  {| OpenAI.model := Some "copilot-auto";
     OpenAI.messages := Some [user_says "hi"];
     OpenAI.stream := false; OpenAI.session_id := None |}.

(** An unknown model, and no messages. *)
Definition bad_model_no_messages : OpenAI.ChatCompletionRequest :=
  {| OpenAI.model := Some "not-a-real-model";
     OpenAI.messages := Some [];
     OpenAI.stream := false; OpenAI.session_id := None |}.


(** A request on session s1 that carries a system message only. *)
Definition system_only : OpenAI.ChatCompletionRequest :=
  {| OpenAI.model := Some "copilot-auto";
     OpenAI.messages := Some [system_says "be brief"];
     OpenAI.stream := false; OpenAI.session_id := Some "s1" |}.

(** A server whose registry holds session s1, used once already. *)
Definition one_session : Handlers.Server :=
  {| Handlers.sessionManager :=
       {| Sessions.sessions := [session "s1" 1 0 1]; Sessions.closed := [] |};
     Handlers.requestQueue := Queue.init;
     Handlers.suspended := []; Handlers.responses := [] |}.

(** A request arrives at time 0 and its exchange starts at once; the
    cleanup interval fires while the exchange is still running, with the
    clock past the idle threshold. *)
Definition long_exchange : list Handlers.ServerEvent :=
  [ Handlers.ChatCompletion (request_env 0 "s1" 7) hello;
    Handlers.CleanupInterval 1800001 ].

(** A request arrives, its session is deleted while the exchange runs,
    and the exchange then completes. *)
Definition closed_meanwhile : list Handlers.ServerEvent :=
  [ Handlers.ChatCompletion (request_env 0 "s1" 7) hello;
    Handlers.DeleteSession "s1";
    Handlers.ExchangeSettles 0 (Fulfilled "hello") (resume_env 9) ].

(** *** Pages; the world is the list of the calls made so far *)

Definition targetClosed : Thrown :=
  ThrownError (mkError "Target page, context or browser has been closed").

Definition answer {A} (call : Copilot.Call) (r : Outcome A)
    : list Copilot.Call -> Outcome A * list Copilot.Call :=
  fun w => (r, w ++ [call]).

(** A page that has been closed: it still tells its last URL, and every
    call into it is rejected. *)
Definition closed_page : Copilot.Page (list Copilot.Call) :=
  {| Copilot.url := fun _ => "https://m365.cloud.microsoft/chat";
     Copilot.page_goto := answer Copilot.CallGoto (RejectedWith targetClosed);
     Copilot.query := fun sel =>
       answer (Copilot.CallQuery sel) (RejectedWith targetClosed);
     Copilot.queryAll := fun sel =>
       answer (Copilot.CallQueryAll sel) (RejectedWith targetClosed);
     Copilot.waitForSelector := fun sel _ =>
       answer (Copilot.CallWaitForSelector sel) (RejectedWith targetClosed);
     Copilot.page_click := fun sel =>
       answer (Copilot.CallClick sel) (RejectedWith targetClosed);
     Copilot.page_type := fun sel text =>
       answer (Copilot.CallType sel text) (RejectedWith targetClosed);
     Copilot.keyboard_press := fun key =>
       answer (Copilot.CallPress key) (RejectedWith targetClosed);
     Copilot.element_click := fun e =>
       answer (Copilot.CallElementClick e) (RejectedWith targetClosed);
     Copilot.element_fill := fun e text =>
       answer (Copilot.CallElementFill e text) (RejectedWith targetClosed);
     Copilot.textContent := fun e =>
       answer (Copilot.CallTextContent e) (RejectedWith targetClosed);
     Copilot.randomDelay := fun _ _ w => w;
     Copilot.dateNow := fun _ => 0%Z |}.

(** A page on which [matching] finds the one element 7, whose text is
    [text], and every other selector finds nothing. *)
Definition page_with (matching : Copilot.Selector -> bool) (text : string)
    : Copilot.Page (list Copilot.Call) :=
  {| Copilot.url := fun _ => "https://m365.cloud.microsoft/chat";
     Copilot.page_goto := answer Copilot.CallGoto (Fulfilled tt);
     Copilot.query := fun sel =>
       answer (Copilot.CallQuery sel)
              (Fulfilled (if matching sel then Some 7 else None));
     Copilot.queryAll := fun sel =>
       answer (Copilot.CallQueryAll sel)
              (Fulfilled (if matching sel then [7] else []));
     Copilot.waitForSelector := fun sel _ =>
       answer (Copilot.CallWaitForSelector sel) (Fulfilled tt);
     Copilot.page_click := fun sel =>
       answer (Copilot.CallClick sel) (Fulfilled tt);
     Copilot.page_type := fun sel t =>
       answer (Copilot.CallType sel t) (Fulfilled tt);
     Copilot.keyboard_press := fun key =>
       answer (Copilot.CallPress key) (Fulfilled tt);
     Copilot.element_click := fun e =>
       answer (Copilot.CallElementClick e) (Fulfilled tt);
     Copilot.element_fill := fun e t =>
       answer (Copilot.CallElementFill e t) (Fulfilled tt);
     Copilot.textContent := fun e =>
       answer (Copilot.CallTextContent e) (Fulfilled (Some text));
     Copilot.randomDelay := fun _ _ w => w;
     Copilot.dateNow := fun _ => 0%Z |}.

Definition is_anyMessage (sel : Copilot.Selector) : bool :=
  match sel with Copilot.anyMessage => true | _ => false end.

Definition is_responseContainer (sel : Copilot.Selector) : bool :=
  match sel with Copilot.responseContainer => true | _ => false end.

(** Only the fallback matches an element, and its text is three blanks. *)
Definition blank_snapshot : Copilot.Snapshot :=
  {| Copilot.elementsOf := fun sel => if is_anyMessage sel then [7] else [];
     Copilot.textOf := fun _ => Some "   " |}.


(** A configuration whose queue holds one waiting request. *)
Definition small_queue : Config :=
  {| navigationTimeout := 60000; responseTimeout := 120000;
     loginCheckTimeout := 5000; maxQueueSize := 1;
     requestTimeout := 180000 |}.

(** Two first requests: the exchange of the first runs, the second
    waits. *)
Definition two_requests : list Handlers.ServerEvent :=
  [ Handlers.ChatCompletion (request_env 0 "s1" 7) hello;
    Handlers.ChatCompletion (request_env 1 "s2" 8) hello ].

(** A launch of the browser that succeeds, and one that fails. *)
Definition launch_ok (c : Manager.Context) (p : Manager.Page)
    : Manager.LaunchEnv :=
  {| Manager.mkdirSync := Fulfilled tt;
     Manager.launchPersistentContext := Fulfilled c;
     Manager.pages := [p];
     Manager.newPage := Fulfilled p |}.

Definition launch_fails : Manager.LaunchEnv :=
  {| Manager.mkdirSync := Fulfilled tt;
     Manager.launchPersistentContext :=
       RejectedWith (ThrownError (mkError "Failed to launch the browser"));
     Manager.pages := [];
     Manager.newPage := Fulfilled 0 |}.

(** A later request on session s1, with the history of the conversation. *)
Definition follow_up : OpenAI.ChatCompletionRequest :=
  {| OpenAI.model := Some "copilot-auto";
     OpenAI.messages :=
       Some [ user_says "first question";
              {| OpenAI.role := "assistant"; OpenAI.content := "an answer" |};
              user_says "second question";
              system_says "be brief" ];
     OpenAI.stream := false; OpenAI.session_id := Some "s1" |}.

(** A first request that names [Object.prototype.constructor] as its
    model, in capitals and with blanks around it. *)
Definition inherited_model : OpenAI.ChatCompletionRequest :=
  {| OpenAI.model := Some " Constructor ";
     OpenAI.messages := Some [user_says "hi"];
     OpenAI.stream := false; OpenAI.session_id := None |}.

(** Three first requests arrive before any of their sessions is ready;
    the sessions of the first two are then ready, one after the other,
    and a request to delete the first session arrives. *)
Definition three_arrivals : list Handlers.LiveEvent :=
  [ Handlers.RequestArrives hello; Handlers.RequestArrives hello;
    Handlers.RequestArrives hello;
    Handlers.SessionSettles 0 (Fulfilled (snd (session "s1" 7 0 0)));
    Handlers.SessionSettles 0 (Fulfilled (snd (session "s2" 8 0 0)));
    Handlers.DeleteArrives "s1" ].

End Examples.

(** * Properties of the request queue *)

Module QueueFacts.
Import JS Cfg Queue Examples.

Section Facts.
Context {T Op : Type}.
Variable cfg : Config.

Abbreviation State := (@RequestQueue T Op).
Abbreviation Item := (@QueueItem Op).
Abbreviation Log := (list (nat * @Settlement T)).
Abbreviation Ev := (@Event T Op).
Abbreviation start := (@init T Op).

Lemma filter_ne_fresh (x : nat) (l : list nat) :
  x ∉ l -> filter (fun i => i ≠ x) l = l.
Proof.
  induction l as [|y l IH]; intros Hx; [done|].
  rewrite filter_cons. apply not_elem_of_cons in Hx as [Hne Hx].
  rewrite decide_True by congruence. by rewrite IH.
Qed.

Lemma filter_ne_middle (x : nat) (l1 l2 : list nat) :
  NoDup (l1 ++ x :: l2) -> filter (fun i => i ≠ x) (l1 ++ x :: l2) = l1 ++ l2.
Proof.
  intros Hnd. apply NoDup_app in Hnd as (_ & Hdisj & Hnd2).
  apply NoDup_cons in Hnd2 as [Hx2 _].
  rewrite filter_app, filter_cons, decide_False by (intros H; by apply H).
  rewrite !filter_ne_fresh; [done|done|].
  intros Hin. apply (Hdisj x Hin). left.
Qed.

Lemma indexOf_None (id : nat) (l : list Item) :
  indexOf id l = None <-> id ∉ map itemId l.
Proof.
  induction l as [|it l IH]; simpl.
  - split; [intros _; apply not_elem_of_nil|done].
  - destruct (Nat.eqb_spec (itemId it) id) as [->|Hne].
    + split; [done|]. intros H. exfalso. apply H. left.
    + rewrite not_elem_of_cons.
      destruct (indexOf id l); simpl; split; try done.
      * intros [_ H]. by apply IH in H.
      * intros _. split; [congruence|by apply IH].
Qed.

Lemma indexOf_Some (id index : nat) (l : list Item) :
  indexOf id l = Some index ->
  exists l1 it l2,
    l = l1 ++ it :: l2 /\ itemId it = id /\ splice1 index l = l1 ++ l2.
Proof.
  revert index. induction l as [|it l IH]; intros index; simpl; [done|].
  destruct (Nat.eqb_spec (itemId it) id) as [Heq|Hne].
  - intros [= <-]. exists [], it, l. unfold splice1. simpl.
    by rewrite drop_0.
  - destruct (indexOf id l) as [i|] eqn:Hi; simpl; [|done].
    intros [= <-]. destruct (IH i eq_refl) as (l1 & it' & l2 & -> & Hid & Hs).
    exists (it :: l1), it', l2. repeat split; [done|].
    unfold splice1 in *. simpl. by rewrite Hs.
Qed.

Lemma fold_clearTimeout_all (l : list Item) (armed : list nat) :
  Forall (fun it => timeoutId it = Some (itemId it)) l ->
  (forall i, i ∈ armed -> i ∈ map itemId l) ->
  fold_left (fun armed it => clearTimeout (timeoutId it) armed) l armed = [].
Proof.
  intros Hl. revert armed.
  induction Hl as [|it l Hit Hl IH]; intros armed Hsub; simpl.
  - destruct armed as [|i armed]; [done|].
    exfalso. eapply not_elem_of_nil, (Hsub i). left.
  - apply IH. intros i Hi. rewrite Hit in Hi. simpl in Hi.
    apply list_elem_of_filter in Hi as [Hne Hi].
    apply Hsub in Hi. simpl in Hi. apply elem_of_cons in Hi as [->|Hi]; done.
Qed.

Lemma Wf_init : Wf (@init T Op).
Proof.
  constructor; simpl; try done; try apply NoDup_nil_2; by constructor.
Qed.

(** The identifiers that wait or were started are pairwise distinct. *)
Lemma Wf_NoDup (q : State) :
  Wf q -> NoDup (map itemId (started q) ++ map itemId (queue q)).
Proof. intros H. eapply sublist_NoDup; [apply H|apply H]. Qed.

Lemma Wf_in_accepted (q : State) (id : nat) :
  Wf q -> id ∈ map itemId (started q) ++ map itemId (queue q) ->
  id ∈ accepted q.
Proof. intros H Hin. eapply elem_of_sublist; [done|apply H]. Qed.

Lemma Wf_processNext (q : State) : Wf q -> Inv (processNext q).
Proof.
  intros H. unfold processNext.
  destruct (processing q) eqn:Hp; simpl; [split; [done|congruence]|].
  destruct (queue q) as [|item rest] eqn:Hq; simpl.
  { split; [done|]. by rewrite Hq. }
  pose proof (Wf_NoDup q H) as Hnd. rewrite Hq in Hnd. simpl in Hnd.
  apply NoDup_app in Hnd as (Hnd1 & Hdisj & Hnd2).
  apply NoDup_cons in Hnd2 as [Hhead Hrest].
  destruct H as [Hrun Htim Htid Hfresh Hacc Hfifo Hrs Hso Hsg].
  rewrite Hp in Hrun. rewrite Hq in *. simpl in *.
  apply Forall_cons in Htid as [Hit Htid].
  split; [|done]. constructor; simpl; try done.
  - rewrite length_app, Hrun. done.
  - rewrite Hit, Htim. simpl. rewrite filter_cons, decide_False by (intros X; by apply X).
    by apply filter_ne_fresh.
  - by rewrite map_app, <- app_assoc.
  - apply Forall_app. split.
    + eapply Forall_impl; [exact Hrs|]. intros it Hin. simpl in Hin.
      rewrite map_app. apply elem_of_app. by left.
    + apply Forall_singleton. rewrite map_app. apply elem_of_app. right. left.
  - eapply Forall_impl; [exact Hsg|]. intros e (He1 & He2 & He3).
    apply not_elem_of_cons in He2 as [He2 He2'].
    repeat split; [done|done|].
    rewrite map_app. simpl. intros Hin. apply elem_of_app in Hin as [Hin|Hin]; [done|].
    apply list_elem_of_singleton in Hin. done.
Qed.

Lemma Inv_enqueue (op : Op) (q : State) : Inv q -> Inv (fst (enqueue cfg op q)).
Proof.
  intros [H Hidle]. unfold enqueue.
  destruct (maxQueueSize cfg <=? length (queue q)); simpl; [by split|].
  apply Wf_processNext.
  destruct H as [Hrun Htim Htid Hfresh Hacc Hfifo Hrs Hso Hsg].
  assert (Hnew : nextId q ∉ accepted q).
  { intros Hin. eapply Forall_forall in Hfresh; [|exact Hin]. lia. }
  constructor; simpl; try done.
  - by rewrite map_app, Htim.
  - apply Forall_app. split; [done|]. by apply Forall_singleton.
  - apply Forall_app. split.
    + eapply Forall_impl; [exact Hfresh|]. simpl. lia.
    + apply Forall_singleton. lia.
  - apply NoDup_app. split; [done|]. split; [|apply NoDup_singleton].
    intros i Hi Hi'. apply list_elem_of_singleton in Hi'. by subst.
  - rewrite map_app, app_assoc. simpl. by apply sublist_app.
  - eapply Forall_impl; [exact Hsg|]. intros e (He1 & He2 & He3).
    repeat split; [apply elem_of_app; by left| |done].
    rewrite map_app. simpl. intros Hin.
    apply elem_of_app in Hin as [Hin|Hin]; [done|].
    apply list_elem_of_singleton in Hin. congruence.
Qed.

Lemma Inv_timer (id : nat) (q : State) : Inv q -> Inv (step cfg q (TimerFires id)).
Proof.
  intros [H Hidle]. simpl. case_bool_decide as Harmed; [|by split].
  pose proof (Wf_NoDup q H) as Hnd.
  pose proof (Wf_in_accepted q id H) as Hacc_id.
  destruct H as [Hrun Htim Htid Hfresh Hacc Hfifo Hrs Hso Hsg].
  unfold onTimeout. simpl.
  destruct (indexOf id (queue q)) as [index|] eqn:Hix.
  2:{ apply indexOf_None in Hix. by rewrite Htim in Harmed. }
  apply indexOf_Some in Hix as (l1 & it & l2 & Hq & Hid & Hsp).
  rewrite Hsp. rewrite Hq in *. clear Hsp Hq.
  rewrite map_app in *. simpl in *. rewrite Hid in *.
  apply NoDup_app in Hnd as (Hnd1 & Hdisj & Hnd2).
  assert (Hgone : id ∉ map itemId l1 ++ map itemId l2).
  { apply NoDup_app in Hnd2 as (_ & Hd & Hn2). apply NoDup_cons in Hn2 as [Hn2 _].
    intros Hin. apply elem_of_app in Hin as [Hin|Hin]; [|done].
    apply (Hd id Hin). left. }
  split.
  - constructor; simpl; try done.
    + rewrite Htim, map_app. by apply filter_ne_middle.
    + apply Forall_app in Htid as [Ht1 Ht2]. apply Forall_cons in Ht2 as [_ Ht2].
      apply Forall_app. by split.
    + rewrite map_app. etrans; [|exact Hfifo].
      apply sublist_app; [done|]. apply sublist_app; [done|]. by apply sublist_cons.
    + rewrite map_app. simpl. apply NoDup_app. split; [done|].
      split; [|apply NoDup_singleton].
      intros i Hi Hi'. apply list_elem_of_singleton in Hi'. subst i.
      apply list_elem_of_fmap in Hi as (e & He & Hin).
      eapply Forall_forall in Hsg as (_ & Hsg & _); [|exact Hin].
      apply Hsg. rewrite <- He. apply elem_of_app. right. left.
    + apply Forall_app. split.
      * eapply Forall_impl; [exact Hsg|]. intros e (He1 & He2 & He3).
        repeat split; [done| |done]. rewrite map_app. intros Hin. apply He2.
        apply elem_of_app in Hin as [Hin|Hin]; apply elem_of_app; [by left|].
        right. by right.
      * apply Forall_singleton. simpl. repeat split.
        -- apply Hacc_id. apply elem_of_app. right. apply elem_of_app. right. left.
        -- by rewrite map_app.
        -- intros Hin. apply list_elem_of_fmap in Hin as (r & Hr & Hin).
           eapply Forall_forall in Hrs; [|exact Hin]. simpl in Hrs.
           apply (Hdisj id); [by rewrite Hr|]. apply elem_of_app. right. left.
  - simpl. intros Hp. specialize (Hidle Hp). by destruct l1.
Qed.

Lemma find_running_Some (id : nat) (q : State) (item : Item) :
  Wf q -> find_running id q = Some item ->
  itemId item = id /\ running q = [item] /\ processing q = true.
Proof.
  intros H Hf. unfold find_running in Hf.
  pose proof (inv_running q H) as Hrun.
  destruct (running q) as [|it [|it' l]] eqn:Hr; simpl in *;
    [done| |destruct (processing q); done].
  destruct (Nat.eqb_spec (itemId it) id); [|done].
  injection Hf as <-. destruct (processing q); done.
Qed.

Lemma Inv_settles (id : nat) (r : Outcome T) (q : State) :
  Inv q -> Inv (step cfg q (ExecuteSettles id r)).
Proof.
  intros [H Hidle]. simpl.
  destruct (find_running id q) as [item|] eqn:Hf; [|by split].
  destruct (find_running_Some id q item H Hf) as (Hid & Hr & Hp).
  unfold processNext_resume. apply Wf_processNext.
  pose proof (Wf_NoDup q H) as Hnd.
  pose proof (Wf_in_accepted q id H) as Hacc_id.
  destruct H as [Hrun Htim Htid Hfresh Hacc Hfifo Hrs Hso Hsg].
  rewrite Hr in *. rewrite Hid in *. simpl in *.
  rewrite Forall_singleton in Hrs. rewrite Hid in *.
  rewrite filter_cons, decide_False, filter_nil by (intros X; by apply X).
  constructor; simpl; try done.
  - rewrite map_app. simpl. apply NoDup_app. split; [done|].
    split; [|apply NoDup_singleton].
    intros i Hi Hi'. apply list_elem_of_singleton in Hi'. subst i.
    apply list_elem_of_fmap in Hi as (e & He & Hin).
    eapply Forall_forall in Hsg as (_ & _ & Hsg); [|exact Hin].
    apply Hsg. rewrite <- He. left.
  - apply Forall_app. split.
    + eapply Forall_impl; [exact Hsg|]. intros e (He1 & He2 & He3).
      repeat split; [done|done|apply not_elem_of_nil].
    + apply Forall_singleton. simpl. repeat split.
      * apply Hacc_id. apply elem_of_app. by left.
      * apply NoDup_app in Hnd as (_ & Hd & _). by apply Hd.
      * apply not_elem_of_nil.
Qed.

Lemma Inv_clear (q : State) : Inv q -> Inv (clear q).
Proof.
  intros [H Hidle].
  pose proof (Wf_NoDup q H) as Hnd.
  destruct H as [Hrun Htim Htid Hfresh Hacc Hfifo Hrs Hso Hsg].
  split; [|done]. constructor; simpl; try done.
  - apply fold_clearTimeout_all; [done|]. by rewrite Htim.
  - etrans; [|exact Hfifo]. apply sublist_app; [done|]. apply sublist_nil_l.
  - rewrite map_app, map_map. simpl. apply NoDup_app. split; [done|].
    apply NoDup_app in Hnd as (_ & _ & Hnd). split; [|done].
    intros i Hi Hi'. apply list_elem_of_fmap in Hi as (e & He & Hin).
    eapply Forall_forall in Hsg as (_ & Hsg & _); [|exact Hin].
    apply Hsg. by rewrite <- He.
  - apply Forall_app. split.
    + eapply Forall_impl; [exact Hsg|]. intros e (He1 & He2 & He3).
      repeat split; [done|apply not_elem_of_nil|done].
    + apply Forall_fmap. apply Forall_forall. intros it Hit. simpl.
      assert (Hin : itemId it ∈ map itemId (queue q)).
      { apply list_elem_of_fmap. by exists it. }
      repeat split.
      * eapply elem_of_sublist; [|exact Hfifo]. apply elem_of_app. by right.
      * apply not_elem_of_nil.
      * intros Hr. apply list_elem_of_fmap in Hr as (r & Hr & Hrin).
        eapply Forall_forall in Hrs; [|exact Hrin]. simpl in Hrs.
        apply NoDup_app in Hnd as (_ & Hd & _). apply (Hd (itemId r)); [done|].
        by rewrite <- Hr.
Qed.

Lemma Inv_step (q : State) (ev : Event) : Inv q -> Inv (step cfg q ev).
Proof.
  destruct ev as [op|id|id r|].
  - apply Inv_enqueue.
  - apply Inv_timer.
  - apply Inv_settles.
  - apply Inv_clear.
Qed.

Lemma Inv_run (evs : list Event) (q : State) : Inv q -> Inv (run cfg evs q).
Proof.
  revert q. induction evs as [|ev evs IH]; intros q Hq; [done|].
  simpl. apply IH. by apply Inv_step.
Qed.

Lemma Inv_init : Inv (@init T Op).
Proof. split; [apply Wf_init|done]. Qed.

(** *** Batches *)

Lemma run_cons (ev : Event) (evs : list Event) (q : State) :
  run cfg (ev :: evs) q = run cfg evs (step cfg q ev).
Proof. done. Qed.

Lemma run_app (evs1 evs2 : list Event) (q : State) :
  run cfg (evs1 ++ evs2) q = run cfg evs2 (run cfg evs1 q).
Proof. apply fold_left_app. Qed.


Lemma itemsFrom_app (k : nat) (ops1 ops2 : list Op) :
  itemsFrom k (ops1 ++ ops2) =
  itemsFrom k ops1 ++ itemsFrom (k + length ops1) ops2.
Proof.
  revert k. induction ops1 as [|op ops1 IH]; intros k; simpl.
  - by rewrite Nat.add_0_r.
  - by rewrite IH, Nat.add_succ_r.
Qed.







(** *** Steps of the worker *)


Lemma settled_processNext (q : State) : settled (processNext q) = settled q.
Proof.
  unfold processNext.
  destruct (processing q); [done|]. by destruct (queue q).
Qed.

Lemma dropped_processNext (id : nat) (q : State) :
  dropped id q -> dropped id (processNext q).
Proof.
  intros Hd. pose proof Hd as (Hlt & Hs & Hq). unfold processNext.
  destruct (processing q) eqn:Hp; simpl; [exact Hd|].
  destruct (queue q) as [|item rest] eqn:Hqueue; simpl; [exact Hd|].
  simpl in Hq. apply not_elem_of_cons in Hq as [Hne Hq].
  repeat split; simpl; [done| |done].
  rewrite map_app. simpl. intros Hin.
  apply elem_of_app in Hin as [Hin|Hin]; [done|].
  by apply list_elem_of_singleton in Hin.
Qed.

Lemma dropped_step (id : nat) (q : State) (ev : Event) :
  dropped id q -> dropped id (step cfg q ev).
Proof.
  intros Hd. destruct ev as [op|tid|eid r|]; simpl.
  - unfold enqueue.
    destruct (maxQueueSize cfg <=? length (queue q)); [exact Hd|].
    simpl. apply dropped_processNext. destruct Hd as (Hlt & Hs & Hq).
    repeat split; simpl; [lia|done|].
    rewrite map_app. simpl. intros Hin.
    apply elem_of_app in Hin as [Hin|Hin]; [done|].
    apply list_elem_of_singleton in Hin. lia.
  - case_bool_decide; [|exact Hd]. unfold onTimeout. simpl.
    destruct (indexOf tid (queue q)) as [index|] eqn:Hix; [|exact Hd].
    apply indexOf_Some in Hix as (l1 & it & l2 & Hq & _ & Hsp).
    destruct Hd as (Hlt & Hs & Hin). repeat split; simpl; [done|done|].
    rewrite Hsp. rewrite Hq in Hin. rewrite map_app in *. simpl in Hin.
    intros X. apply Hin. apply elem_of_app in X as [X|X]; apply elem_of_app;
      [by left|right; by right].
  - destruct (find_running eid q); [|exact Hd].
    unfold processNext_resume. apply dropped_processNext. exact Hd.
  - destruct Hd as (Hlt & Hs & Hin). repeat split; simpl; [done|done|].
    apply not_elem_of_nil.
Qed.

Lemma dropped_run (id : nat) (evs : list Event) (q : State) :
  dropped id q -> dropped id (run cfg evs q).
Proof.
  revert q. induction evs as [|ev evs IH]; intros q Hd; [done|].
  rewrite run_cons. by apply IH, dropped_step.
Qed.

Lemma reachable_Inv (evs : list Event) : Inv (run cfg evs (@init T Op)).
Proof. apply Inv_run, Inv_init. Qed.

Lemma same_id_same_item (l1 l2 : list Item) (it item : Item) :
  NoDup (map itemId (l1 ++ it :: l2)) ->
  item ∈ l1 ++ it :: l2 -> itemId item = itemId it -> item = it.
Proof.
  rewrite map_app. simpl. intros Hnd Hin Hid.
  apply NoDup_app in Hnd as (_ & Hd & Hnd). apply NoDup_cons in Hnd as [Hn _].
  apply elem_of_app in Hin as [Hin|Hin].
  - exfalso. apply (Hd (itemId it)); [|left].
    rewrite <- Hid. apply list_elem_of_fmap. by exists item.
  - apply elem_of_cons in Hin as [Hin|Hin]; [done|].
    exfalso. apply Hn. rewrite <- Hid. apply list_elem_of_fmap. by exists item.
Qed.

(** *** The claims about the queue *)

(** C3. When the waiting list already holds [maxQueueSize] items or
    more, [enqueue] rejects at once with the queue-full error and
    leaves the whole state of the queue as it was: the waiting list is
    unchanged, and whatever happens afterwards happens as if the call
    had not been made, so the rejected operation is never started. *)
Theorem full_queue_rejects (op : Op) (q : State) :
  maxQueueSize cfg <= length (queue q) ->
  enqueue cfg op q = (q, Threw (queueFullError cfg))
  /\ message (queueFullError cfg)
     = "Queue is full (max " +++ ofNat (maxQueueSize cfg) +++ " requests)"
  /\ queue (fst (enqueue cfg op q)) = queue q
  /\ started (fst (enqueue cfg op q)) = started q
  /\ forall evs : list Ev, run cfg (EnqueueCall op :: evs) q = run cfg evs q.
Proof.
  intros Hfull.
  assert (Heq : enqueue cfg op q = (q, Threw (queueFullError cfg))).
  { unfold enqueue.
    by destruct (Nat.leb_spec (maxQueueSize cfg) (length (queue q))); [|lia]. }
  repeat split; try done; try by rewrite Heq.
  intros evs. by rewrite run_cons; simpl; rewrite Heq.
Qed.

(** C2. In every reachable state, an item that still waits has its timer
    armed and has not been started; when that timer fires, the item is
    taken out of the waiting list (the others keep their order), its
    promise is rejected with the queue-timeout error, and its operation
    is never started afterwards. An item the worker has dequeued has its
    timer disarmed: the timer cannot fire, and even its callback, were
    it run, would change nothing. *)
Theorem timeout_races_start (evs : list Ev) (item : Item) :
  let q := run cfg evs start in
  (item ∈ queue q ->
     (itemId item ∈ timers q)
     /\ (itemId item ∉ map itemId (started q))
     /\ (exists l1 l2,
           queue q = l1 ++ item :: l2
           /\ queue (step cfg q (TimerFires (itemId item))) = l1 ++ l2)
     /\ (itemId item
          ∉ map itemId (queue (step cfg q (TimerFires (itemId item)))))
     /\ settled (step cfg q (TimerFires (itemId item)))
        = settled q ++ [(itemId item, Rejected queueTimeoutError)]
     /\ forall later : list Ev,
          let q'' := run cfg later (step cfg q (TimerFires (itemId item))) in
          (itemId item ∉ map itemId (started q''))
          /\ (itemId item ∉ map itemId (running q'')))
  /\ (item ∈ started q ->
       (itemId item ∉ timers q)
       /\ step cfg q (TimerFires (itemId item)) = q
       /\ onTimeout (itemId item) q = q).
Proof.
  intros q. pose proof (reachable_Inv evs) as HInv. fold q in HInv.
  pose proof HInv as [H Hidle]. pose proof (Wf_NoDup q H) as Hnd.
  pose proof (inv_timers q H) as Htim.
  split.
  - intros Hin.
    assert (Hid : itemId item ∈ map itemId (queue q)).
    { apply list_elem_of_fmap. by exists item. }
    assert (Hns : itemId item ∉ map itemId (started q)).
    { intros Hs. apply NoDup_app in Hnd as (_ & Hd & _). by apply (Hd _ Hs). }
    assert (Hlt : itemId item < nextId q).
    { pose proof (inv_fresh q H) as Hf. eapply Forall_forall in Hf; [exact Hf|].
      apply (Wf_in_accepted q _ H). apply elem_of_app. by right. }
    assert (Hstep : exists l1 l2,
              queue q = l1 ++ item :: l2
              /\ queue (step cfg q (TimerFires (itemId item))) = l1 ++ l2
              /\ settled (step cfg q (TimerFires (itemId item)))
                 = settled q ++ [(itemId item, Rejected queueTimeoutError)]
              /\ nextId (step cfg q (TimerFires (itemId item))) = nextId q
              /\ started (step cfg q (TimerFires (itemId item))) = started q
              /\ itemId item ∉ map itemId (l1 ++ l2)).
    { simpl. rewrite bool_decide_eq_true_2 by (by rewrite Htim).
      unfold onTimeout. simpl.
      destruct (indexOf (itemId item) (queue q)) as [index|] eqn:Hix.
      2:{ by apply indexOf_None in Hix. }
      apply indexOf_Some in Hix as (l1 & it & l2 & Hq & Hit & Hsp).
      apply NoDup_app in Hnd as (_ & _ & Hndq). rewrite Hq in Hndq, Hin.
      assert (item = it) as <- by (by eapply same_id_same_item).
      exists l1, l2. simpl. rewrite Hsp. repeat split; try done.
      rewrite map_app in *. simpl in Hndq.
      apply NoDup_app in Hndq as (_ & Hd & Hn). apply NoDup_cons in Hn as [Hn _].
      intros X. apply elem_of_app in X as [X|X]; [|done].
      apply (Hd _ X). left. }
    destruct Hstep as (l1 & l2 & Hq & Hq' & Hs' & Hn' & Hst' & Hgone).
    assert (Hdrop : forall later : list Ev,
              dropped (itemId item)
                (run cfg later (step cfg q (TimerFires (itemId item))))).
    { intros later. apply dropped_run. unfold dropped.
      by rewrite Hn', Hst', Hq'. }
    repeat split; try done.
    + by rewrite Htim.
    + by exists l1, l2.
    + by rewrite Hq'.
    + apply Hdrop.
    + intros Hr.
      assert (HInv' : Inv (run cfg later (step cfg q (TimerFires (itemId item))))).
      { by apply Inv_run, Inv_step. }
      destruct HInv' as [H' _]. pose proof (inv_running_started _ H') as Hrs.
      apply list_elem_of_fmap in Hr as (r & Hr & Hrin).
      eapply Forall_forall in Hrs; [|exact Hrin]. simpl in Hrs.
      rewrite <- Hr in Hrs. by destruct (Hdrop later) as (_ & Hs'' & _).
  - intros Hin.
    assert (Hid : itemId item ∈ map itemId (started q)).
    { apply list_elem_of_fmap. by exists item. }
    assert (Hnt : itemId item ∉ timers q).
    { rewrite Htim. intros Hq. apply NoDup_app in Hnd as (_ & Hd & _).
      by apply (Hd _ Hid). }
    repeat split; [done| |].
    + simpl. by rewrite bool_decide_eq_false_2.
    + unfold onTimeout. rewrite Htim in Hnt. apply indexOf_None in Hnt.
      by rewrite Hnt.
Qed.


End Facts.

(** *** The claims at concrete inputs *)

Lemma timeout_races_start_witness :
  let q := run config two_waiting init in
  let q' := step config q (TimerFires 1) in
  map execute (queue q) = ["b"; "c"] /\ map execute (queue q') = ["c"]
  /\ settled q' = [(1, Rejected queueTimeoutError)]
  /\ step config q (TimerFires 0) = q.
Proof.
  pose proof (timeout_races_start config two_waiting (newItem 1 "b")) as [Hw _].
  pose proof (timeout_races_start config two_waiting (newItem 0 "a")) as [_ Hs].
  assert (Hin : newItem 1 "b" ∈ queue (run config two_waiting init)).
  { vm_compute. left. }
  assert (His : newItem 0 "a" ∈ started (run config two_waiting init)).
  { vm_compute. left. }
  destruct (Hw Hin) as (_ & _ & _ & _ & Hsettled & _).
  destruct (Hs His) as (_ & Hsame & _).
  intros q q'.
  split; [reflexivity|]. split; [reflexivity|].
  split; [exact Hsettled|exact Hsame].
Defined.

Lemma full_queue_rejects_witness :
  let q := run (T:=string) config (map EnqueueCall (repeat "op" 101)) init in
  length (queue q) = 100
  /\ enqueue config "late" q
     = (q, Threw (mkError "Queue is full (max 100 requests)")).
Proof.
  assert (Hlen : length (queue (run (T:=string) config
                   (map EnqueueCall (repeat "op" 101)) init)) = 100)
    by (vm_compute; reflexivity).
  split; [exact Hlen|].
  refine (proj1 (full_queue_rejects config "late" _ _)).
  rewrite Hlen. vm_compute. lia.
Defined.


End QueueFacts.

(** * Properties of the session manager *)

Module SessionsFacts.
Import JS Sessions Examples.

Lemma map_get_delete (k k' : string) (m : SessionMap) :
  map_get k (map_delete k' m) = if String.eqb k' k then None else map_get k m.
Proof.
  induction m as [|[k0 v0] m IH]; simpl.
  - by destruct (String.eqb k' k).
  - destruct (String.eqb_spec k0 k') as [->|Hne]; simpl.
    + rewrite IH. destruct (String.eqb_spec k' k); done.
    + rewrite IH. destruct (String.eqb_spec k0 k) as [->|]; [|done].
      by rewrite (proj2 (String.eqb_neq k' k)) by congruence.
Qed.

Lemma map_get_mutate (k k' : string) (f : Session -> Session) (m : SessionMap) :
  map_get k (map_mutate k' f m)
  = if String.eqb k' k then f <$> map_get k m else map_get k m.
Proof.
  induction m as [|[k0 v0] m IH]; simpl.
  - by destruct (String.eqb k' k).
  - destruct (String.eqb_spec k0 k') as [->|Hne]; simpl.
    + destruct (String.eqb_spec k' k); done.
    + rewrite IH. destruct (String.eqb_spec k0 k) as [->|]; [|done].
      by rewrite (proj2 (String.eqb_neq k' k)) by congruence.
Qed.

Lemma map_get_set (k k' : string) (v : Session) (m : SessionMap) :
  map_get k (map_set k' v m)
  = if String.eqb k' k then Some v else map_get k m.
Proof.
  induction m as [|[k0 v0] m IH]; simpl.
  - done.
  - destruct (String.eqb_spec k0 k') as [->|Hne]; simpl.
    + destruct (String.eqb_spec k' k); done.
    + rewrite IH. destruct (String.eqb_spec k0 k) as [->|]; [|done].
      by rewrite (proj2 (String.eqb_neq k' k)) by congruence.
Qed.

Lemma map_get_None (k : string) (m : SessionMap) :
  map_get k m = None <-> k ∉ map fst m.
Proof.
  induction m as [|[k0 v0] m IH]; simpl.
  - split; [intros _; apply not_elem_of_nil|done].
  - rewrite not_elem_of_cons. destruct (String.eqb_spec k0 k) as [->|Hne].
    + split; [done|]. by intros [? _].
    + rewrite IH. split; [intros ?; split; [congruence|done]|by intros [_ ?]].
Qed.

Lemma map_get_middle (k : string) (v : Session) (b a : SessionMap) :
  k ∉ map fst b -> map_get k (b ++ (k, v) :: a) = Some v.
Proof.
  induction b as [|[k0 v0] b IH]; simpl; intros Hk.
  - by rewrite String.eqb_refl.
  - apply not_elem_of_cons in Hk as [Hne Hk].
    rewrite (proj2 (String.eqb_neq k0 k)) by congruence. by apply IH.
Qed.

Lemma map_delete_fresh (k : string) (m : SessionMap) :
  k ∉ map fst m -> map_delete k m = m.
Proof.
  unfold map_delete.
  induction m as [|[k0 v0] m IH]; simpl; intros Hk; [done|].
  apply not_elem_of_cons in Hk as [Hne Hk].
  rewrite (proj2 (String.eqb_neq k0 k)) by congruence. simpl.
  by rewrite IH.
Qed.

Lemma map_delete_middle (k : string) (v : Session) (b a : SessionMap) :
  NoDup (map fst (b ++ (k, v) :: a)) -> map_delete k (b ++ (k, v) :: a) = b ++ a.
Proof.
  rewrite map_app. simpl. intros Hnd.
  apply NoDup_app in Hnd as (_ & Hd & Hnd). apply NoDup_cons in Hnd as [Hk _].
  unfold map_delete. rewrite List.filter_app. simpl.
  rewrite String.eqb_refl. simpl.
  fold (map_delete k b). fold (map_delete k a).
  rewrite !map_delete_fresh; [done|done|].
  intros Hin. apply (Hd k Hin). left.
Qed.

(** *** The oldest session *)

Lemma fold_older_Some (l : list Session) : forall o,
  exists r, fold_left older l (Some o) = Some r
    /\ ((r = o /\ Forall (fun s => (lastActivityAt o <= lastActivityAt s)%Z) l)
        \/ ((lastActivityAt r < lastActivityAt o)%Z /\ first_oldest r l)).
Proof.
  induction l as [|s l IH]; intros o; simpl.
  - exists o. split; [done|]. left. by split.
  - destruct (Z.ltb_spec (lastActivityAt s) (lastActivityAt o)) as [Hlt|Hge].
    + destruct (IH s) as (r & Hr & [[-> Hall]|[Hlt' (b & a & -> & Hb & Ha)]]).
      * exists s. split; [done|]. right. split; [done|].
        exists [], l. by repeat split.
      * exists r. split; [done|]. right. split; [lia|].
        exists (s :: b), a. repeat split; [|done].
        constructor; [done|done].
    + destruct (IH o) as (r & Hr & [[-> Hall]|[Hlt' (b & a & -> & Hb & Ha)]]).
      * exists o. split; [done|]. left. split; [done|]. by constructor.
      * exists r. split; [done|]. right. split; [done|].
        exists (s :: b), a. repeat split; [|done].
        constructor; [lia|done].
Qed.

Lemma getOldestSession_spec (m : SessionManager) :
  sessions m <> [] ->
  exists r, getOldestSession m = Some r /\ first_oldest r (map snd (sessions m)).
Proof.
  unfold getOldestSession. destruct (sessions m) as [|[k s] l]; [done|].
  intros _. simpl.
  destruct (fold_older_Some (map snd l) s)
    as (r & Hr & [[-> Hall]|[Hlt (b & a & Hl & Hb & Ha)]]).
  - exists s. split; [done|]. exists [], (map snd l). by repeat split.
  - exists r. split; [done|]. exists (s :: b), a. rewrite Hl.
    repeat split; [|done]. by constructor.
Qed.

(** *** Closing sessions *)

Lemma closeSession_middle (k : string) (v : Session) (b a : SessionMap)
    (pages : list Page) :
  NoDup (map fst (b ++ (k, v) :: a)) ->
  closeSession k {| sessions := b ++ (k, v) :: a; closed := pages |}
  = ({| sessions := b ++ a; closed := pages ++ [page v] |}, true).
Proof.
  intros Hnd. unfold closeSession. simpl.
  rewrite map_get_middle, map_delete_middle; [done|done|].
  rewrite map_app in Hnd. simpl in Hnd.
  apply NoDup_app in Hnd as (_ & Hd & _). intros Hin. apply (Hd k Hin). left.
Qed.

Lemma filter_sublist {A} (f : A -> bool) (l : list A) :
  sublist (List.filter f l) l.
Proof.
  induction l as [|x l IH]; simpl; [done|].
  destruct (f x); by constructor.
Qed.

Lemma wf_sublist (m m' : SessionManager) :
  sublist (sessions m') (sessions m) -> wf m -> wf m'.
Proof.
  intros Hsub [Hnd Hid]. split.
  - eapply sublist_NoDup; [exact Hnd|]. by apply (fmap_sublist fst).
  - apply Forall_forall. intros e He.
    eapply Forall_forall in Hid; [exact Hid|]. by eapply elem_of_sublist.
Qed.

(** Closing every expired session, one after the other, leaves the
    sessions that are not expired, in their order, and closes the pages
    of the expired ones, in their order. *)
Lemma close_expired (now : Z) (l : SessionMap) : forall pre pages,
  NoDup (map fst (pre ++ l)) ->
  fold_left (fun m id => fst (closeSession id m))
    (map fst (List.filter (fun e => isExpired now (snd e)) l))
    {| sessions := pre ++ l; closed := pages |}
  = {| sessions := pre ++ List.filter (fun e => negb (isExpired now (snd e))) l;
       closed := pages ++ map (fun e => page (snd e))
                   (List.filter (fun e => isExpired now (snd e)) l) |}.
Proof.
  induction l as [|[k v] l IH]; intros pre pages Hnd; simpl.
  - by rewrite !app_nil_r.
  - destruct (isExpired now v) eqn:Hv; simpl.
    + rewrite closeSession_middle by done. simpl.
      rewrite IH; [by rewrite <- app_assoc|].
      rewrite map_app in *. simpl in Hnd.
      apply NoDup_app in Hnd as (Hn1 & Hd & Hn2).
      apply NoDup_cons in Hn2 as [_ Hn2]. apply NoDup_app.
      repeat split; [done| |done].
      intros x Hx Hx'. apply (Hd x Hx). by right.
    + specialize (IH (pre ++ [(k, v)]) pages).
      rewrite <- !app_assoc in IH. simpl in IH. by apply IH.
Qed.

Lemma cleanupExpiredSessions_spec (now : Z) (m : SessionManager) :
  wf m ->
  cleanupExpiredSessions now m
  = {| sessions :=
         List.filter (fun e => negb (isExpired now (snd e))) (sessions m);
       closed := closed m ++ map (fun e => page (snd e))
                   (List.filter (fun e => isExpired now (snd e)) (sessions m)) |}.
Proof.
  intros [Hnd _]. unfold cleanupExpiredSessions, expiredIds.
  destruct m as [l pages]. simpl in *.
  by apply (close_expired now l [] pages).
Qed.

Lemma wf_cleanup (now : Z) (m : SessionManager) :
  wf m -> wf (cleanupExpiredSessions now m).
Proof.
  intros Hwf. eapply wf_sublist; [|exact Hwf].
  rewrite cleanupExpiredSessions_spec by done. simpl. apply filter_sublist.
Qed.

Lemma map_set_fresh (k : string) (v : Session) (m : SessionMap) :
  k ∉ map fst m -> map_set k v m = m ++ [(k, v)].
Proof.
  induction m as [|[k0 v0] m IH]; simpl; intros Hk; [done|].
  apply not_elem_of_cons in Hk as [Hne Hk].
  rewrite (proj2 (String.eqb_neq k0 k)) by congruence. by rewrite IH.
Qed.

(** C4. When [createSession] is called with the registry at the maximum
    and the registry is still at the maximum after the idle sweep, the
    session it closes is the first of those with the smallest
    [lastActivityAt] among the sessions left by the sweep; that session's
    page is closed, every other session left by the sweep stays
    registered, in its place, and the new session, when the creation
    succeeds, is added to them. *)
Theorem eviction_takes_oldest (env : CreateEnv) (m : SessionManager) :
  wf m ->
  SESSION_CONFIG.maxSessions <= length (sessions m) ->
  SESSION_CONFIG.maxSessions
    <= length (sessions (cleanupExpiredSessions (sweepNow env) m)) ->
  let swept := cleanupExpiredSessions (sweepNow env) m in
  exists before victim after,
    sessions swept = before ++ victim :: after
    /\ getOldestSession swept = Some (snd victim)
    /\ Forall (fun e => (lastActivityAt (snd victim)
                          < lastActivityAt (snd e))%Z) before
    /\ Forall (fun e => (lastActivityAt (snd victim)
                          <= lastActivityAt (snd e))%Z) after
    /\ makeRoom env m
       = {| sessions := before ++ after;
            closed := closed swept ++ [page (snd victim)] |}
    /\ closed (fst (createSession env m))
       = closed swept ++ [page (snd victim)]
    /\ (forall x, snd (createSession env m) = RejectedWith x ->
          sessions (fst (createSession env m)) = before ++ after)
    /\ (forall s, snd (createSession env m) = Fulfilled s ->
          sessions (fst (createSession env m))
          = map_set (uuidv4 env) s (before ++ after)
          /\ (uuidv4 env ∉ map fst (sessions m) ->
              sessions (fst (createSession env m))
              = before ++ after ++ [(uuidv4 env, s)])).
Proof.
  intros Hwf Hfull Hstill swept.
  pose proof (wf_cleanup (sweepNow env) m Hwf) as Hwf'. fold swept in Hwf'.
  assert (Hne : sessions swept <> []).
  { intros Hnil. unfold swept in Hnil. rewrite Hnil in Hstill.
    unfold SESSION_CONFIG.maxSessions in Hstill. simpl in Hstill. lia. }
  destruct (getOldestSession_spec swept Hne) as (r & Hr & b & a & Hl & Hb & Ha).
  apply map_eq_app in Hl as (before & rest & Hsw & Hbefore & Hrest).
  apply map_eq_cons in Hrest as (victim & after & -> & Hvictim & Hafter).
  subst b r a.
  assert (Hroom : makeRoom env m
                  = {| sessions := before ++ after;
                       closed := closed swept ++ [page (snd victim)] |}).
  { unfold makeRoom.
    destruct (Nat.leb_spec SESSION_CONFIG.maxSessions (length (sessions m)));
      [|lia].
    fold swept.
    destruct (Nat.leb_spec SESSION_CONFIG.maxSessions (length (sessions swept)));
      [|unfold swept in *; lia].
    rewrite Hr. destruct Hwf' as [Hnd Hid]. rewrite Hsw in Hnd, Hid.
    apply Forall_app in Hid as [_ Hid]. apply Forall_cons in Hid as [Hk _].
    destruct victim as [k v]. simpl in *. subst k.
    destruct swept as [l pages]. simpl in *. subst l.
    by rewrite closeSession_middle. }
  assert (Hsub : sublist (before ++ after) (sessions m)).
  { etrans; [|unfold swept in Hsw].
    - apply sublist_app; [reflexivity|]. apply sublist_cons. reflexivity.
    - rewrite <- Hsw. rewrite cleanupExpiredSessions_spec by done. simpl.
      apply filter_sublist. }
  exists before, victim, after.
  split; [done|]. split; [done|].
  split; [rewrite Forall_fmap in Hb; exact Hb|].
  split; [rewrite Forall_fmap in Ha; exact Ha|].
  split; [done|].
  unfold createSession. rewrite Hroom.
  destruct (getContext env) as [[[]|]|x]; simpl;
    [|by repeat split|by repeat split].
  destruct (newPage env) as [p|x]; simpl; [|by repeat split].
  destruct (goto env) as [[]|x]; simpl; [|by repeat split].
  split; [done|]. split; [done|]. intros s [= <-]. split; [done|].
  intros Hfresh. rewrite map_set_fresh; [by rewrite app_assoc|].
  intros Hin. apply Hfresh.
  eapply elem_of_sublist; [exact Hin|]. by apply (fmap_sublist fst).
Qed.

(** *** Message counts *)

Lemma kept_refl (m : SessionMap) : kept m m.
Proof. intros key s' H. by exists s'. Qed.

Lemma kept_trans (m1 m2 m3 : SessionMap) :
  kept m1 m2 -> kept m2 m3 -> kept m1 m3.
Proof.
  intros H12 H23 key s3 H3. destruct (H23 key s3 H3) as (s2 & H2 & Hle).
  destruct (H12 key s2 H2) as (s1 & H1 & Hle'). exists s1. split; [done|lia].
Qed.

Lemma kept_delete (k : string) (m : SessionMap) : kept m (map_delete k m).
Proof.
  intros key s' H. rewrite map_get_delete in H.
  destruct (String.eqb k key); [done|]. by exists s'.
Qed.

Lemma kept_mutate (k : string) (f : Session -> Session) (m : SessionMap) :
  (forall s, messageCount s <= messageCount (f s)) ->
  kept m (map_mutate k f m).
Proof.
  intros Hf key s' H. rewrite map_get_mutate in H.
  destruct (String.eqb k key); [|by exists s'].
  destruct (map_get key m) as [s|]; [|done].
  injection H as <-. by exists s.
Qed.

Lemma kept_closeSession (k : string) (m : SessionManager) :
  kept (sessions m) (sessions (fst (closeSession k m))).
Proof.
  unfold closeSession. destruct (map_get k (sessions m)); simpl.
  - apply kept_delete.
  - apply kept_refl.
Qed.

Lemma kept_cleanup (now : Z) (m : SessionManager) :
  kept (sessions m) (sessions (cleanupExpiredSessions now m)).
Proof.
  unfold cleanupExpiredSessions. generalize (expiredIds now m). intros ids.
  revert m. induction ids as [|k ids IH]; intros m; simpl.
  - apply kept_refl.
  - eapply kept_trans; [apply (kept_closeSession k)|apply IH].
Qed.

Lemma kept_makeRoom (env : CreateEnv) (m : SessionManager) :
  kept (sessions m) (sessions (makeRoom env m)).
Proof.
  unfold makeRoom.
  destruct (SESSION_CONFIG.maxSessions <=? length (sessions m));
    [|apply kept_refl].
  destruct (SESSION_CONFIG.maxSessions
            <=? length (sessions (cleanupExpiredSessions (sweepNow env) m)));
    [|apply kept_cleanup].
  destruct (getOldestSession (cleanupExpiredSessions (sweepNow env) m));
    [|apply kept_cleanup].
  eapply kept_trans; [apply kept_cleanup|apply kept_closeSession].
Qed.

Lemma kept_touchSession (k : string) (now : Z) (m : SessionManager) :
  kept (sessions m) (sessions (touchSession k now m)).
Proof.
  unfold touchSession. destruct (map_get k (sessions m)) as [found|]; simpl;
    [|apply kept_refl].
  apply kept_mutate. intros s. simpl. lia.
Qed.

(** A session that is registered before and after [getOrCreateSession]
    has not lost messages, when [uuidv4] gives an unused identifier. *)
Lemma getOrCreateSession_grows (sid : option string) (now : Z)
    (env : CreateEnv) (m : SessionManager) (key : string) (s s' : Session) :
  uuidv4 env ∉ map fst (sessions m) ->
  map_get key (sessions m) = Some s ->
  map_get key (sessions (fst (getOrCreateSession sid now env m))) = Some s' ->
  messageCount s <= messageCount s'.
Proof.
  intros Hfresh Hs Hs'.
  assert (Hcreate : forall s',
            map_get key (sessions (fst (createSession env m))) = Some s' ->
            messageCount s <= messageCount s').
  { clear s' Hs'. intros s' Hs'. unfold createSession in Hs'.
    assert (Hroom : forall s', map_get key (sessions (makeRoom env m)) = Some s' ->
                      messageCount s <= messageCount s').
    { intros s2 H2. destruct (kept_makeRoom env m key s2 H2) as (s1 & H1 & Hle).
      rewrite Hs in H1. by injection H1 as <-. }
    destruct (getContext env) as [[[]|]|x]; simpl in Hs'; try by apply Hroom.
    destruct (newPage env) as [p|x]; simpl in Hs'; try by apply Hroom.
    destruct (goto env) as [[]|x]; simpl in Hs'; try by apply Hroom.
    rewrite map_get_set in Hs'.
    destruct (String.eqb_spec (uuidv4 env) key) as [Heq|Hne]; [|by apply Hroom].
    exfalso. apply map_get_None in Hfresh. rewrite Heq in Hfresh. congruence. }
  unfold getOrCreateSession in Hs'.
  destruct sid as [sid|]; [|by apply Hcreate].
  destruct (truthy sid); [|by apply Hcreate].
  destruct (map_get sid (sessions m)) as [existing|]; [|by apply Hcreate].
  simpl in Hs'.
  destruct (kept_mutate sid (bump now) (sessions m) (fun s => le_n _) key s' Hs')
    as (s1 & H1 & Hle).
  rewrite Hs in H1. by injection H1 as <-.
Qed.

Lemma unchanged_refl (m : SessionMap) : unchanged m m.
Proof. intros key s' H. by exists s'. Qed.

Lemma unchanged_trans (m1 m2 m3 : SessionMap) :
  unchanged m1 m2 -> unchanged m2 m3 -> unchanged m1 m3.
Proof.
  intros H12 H23 key s3 H3. destruct (H23 key s3 H3) as (s2 & H2 & Heq).
  destruct (H12 key s2 H2) as (s1 & H1 & Heq'). exists s1.
  split; [done|congruence].
Qed.

Lemma unchanged_delete (k : string) (m : SessionMap) :
  unchanged m (map_delete k m).
Proof.
  intros key s' H. rewrite map_get_delete in H.
  destruct (String.eqb k key); [done|]. by exists s'.
Qed.

Lemma unchanged_mutate (k : string) (f : Session -> Session) (m : SessionMap) :
  (forall s, messageCount (f s) = messageCount s) ->
  unchanged m (map_mutate k f m).
Proof.
  intros Hf key s' H. rewrite map_get_mutate in H.
  destruct (String.eqb k key); [|by exists s'].
  destruct (map_get key m) as [s|]; [|done].
  injection H as <-. by exists s.
Qed.

Lemma unchanged_closeSession (k : string) (m : SessionManager) :
  unchanged (sessions m) (sessions (fst (closeSession k m))).
Proof.
  unfold closeSession. destruct (map_get k (sessions m)); simpl.
  - apply unchanged_delete.
  - apply unchanged_refl.
Qed.

Lemma unchanged_cleanup (now : Z) (m : SessionManager) :
  unchanged (sessions m) (sessions (cleanupExpiredSessions now m)).
Proof.
  unfold cleanupExpiredSessions. generalize (expiredIds now m). intros ids.
  revert m. induction ids as [|k ids IH]; intros m; simpl.
  - apply unchanged_refl.
  - eapply unchanged_trans; [apply (unchanged_closeSession k)|apply IH].
Qed.

Lemma unchanged_makeRoom (env : CreateEnv) (m : SessionManager) :
  unchanged (sessions m) (sessions (makeRoom env m)).
Proof.
  unfold makeRoom.
  destruct (SESSION_CONFIG.maxSessions <=? length (sessions m));
    [|apply unchanged_refl].
  destruct (SESSION_CONFIG.maxSessions
            <=? length (sessions (cleanupExpiredSessions (sweepNow env) m)));
    [|apply unchanged_cleanup].
  destruct (getOldestSession (cleanupExpiredSessions (sweepNow env) m));
    [|apply unchanged_cleanup].
  eapply unchanged_trans; [apply unchanged_cleanup|apply unchanged_closeSession].
Qed.

(** A session that is registered before and after [getOrCreateSession]
    has the message count it had, when [uuidv4] gives an unused
    identifier. *)
Lemma getOrCreateSession_counts_nothing (sid : option string) (now : Z)
    (env : CreateEnv) (m : SessionManager) (key : string) (s s' : Session) :
  uuidv4 env ∉ map fst (sessions m) ->
  map_get key (sessions m) = Some s ->
  map_get key (sessions (fst (getOrCreateSession sid now env m))) = Some s' ->
  messageCount s' = messageCount s.
Proof.
  intros Hfresh Hs Hs'.
  assert (Hcreate : forall s',
            map_get key (sessions (fst (createSession env m))) = Some s' ->
            messageCount s' = messageCount s).
  { clear s' Hs'. intros s' Hs'. unfold createSession in Hs'.
    assert (Hroom : forall s', map_get key (sessions (makeRoom env m)) = Some s' ->
                      messageCount s' = messageCount s).
    { intros s2 H2.
      destruct (unchanged_makeRoom env m key s2 H2) as (s1 & H1 & Heq).
      rewrite Hs in H1. by injection H1 as <-. }
    destruct (getContext env) as [[[]|]|x]; simpl in Hs'; try by apply Hroom.
    destruct (newPage env) as [p|x]; simpl in Hs'; try by apply Hroom.
    destruct (goto env) as [[]|x]; simpl in Hs'; try by apply Hroom.
    rewrite map_get_set in Hs'.
    destruct (String.eqb_spec (uuidv4 env) key) as [Heq|Hne]; [|by apply Hroom].
    exfalso. apply map_get_None in Hfresh. rewrite Heq in Hfresh. congruence. }
  unfold getOrCreateSession in Hs'.
  destruct sid as [sid|]; [|by apply Hcreate].
  destruct (truthy sid); [|by apply Hcreate].
  destruct (map_get sid (sessions m)) as [existing|]; [|by apply Hcreate].
  simpl in Hs'.
  destruct (unchanged_mutate sid (bump now) (sessions m) (fun s => eq_refl)
              key s' Hs') as (s1 & H1 & Heq).
  rewrite Hs in H1. by injection H1 as <-.
Qed.

(** *** The registry stays a map *)

Lemma map_set_keys (k : string) (v : Session) (m : SessionMap) :
  map fst (map_set k v m)
  = if bool_decide (k ∈ map fst m) then map fst m else map fst m ++ [k].
Proof.
  induction m as [|[k0 v0] m IH]; simpl; [done|].
  destruct (String.eqb_spec k0 k) as [->|Hne]; simpl.
  - rewrite bool_decide_eq_true_2; [done|left].
  - rewrite IH. case_bool_decide as Hin.
    + rewrite bool_decide_eq_true_2; [done|by right].
    + rewrite bool_decide_eq_false_2; [done|].
      intros Hin'. apply elem_of_cons in Hin' as [->|Hin']; done.
Qed.

Lemma map_set_entries (k : string) (v : Session) (m : SessionMap) (e : string * Session) :
  e ∈ map_set k v m -> e = (k, v) \/ e ∈ m.
Proof.
  induction m as [|[k0 v0] m IH]; simpl.
  - intros He. apply list_elem_of_singleton in He. by left.
  - destruct (String.eqb k0 k); intros He;
      apply elem_of_cons in He as [->|He]; [by left|right; by right| |].
    + right. left.
    + destruct (IH He) as [->|Hin]; [by left|right; by right].
Qed.

Lemma map_mutate_keys (k : string) (f : Session -> Session) (m : SessionMap) :
  map fst (map_mutate k f m) = map fst m.
Proof.
  induction m as [|[k0 v0] m IH]; simpl; [done|].
  destruct (String.eqb k0 k); simpl; [done|by rewrite IH].
Qed.

Lemma map_mutate_entries (k : string) (f : Session -> Session) (m : SessionMap)
    (e : string * Session) :
  e ∈ map_mutate k f m -> e ∈ m \/ exists v, (fst e, v) ∈ m /\ snd e = f v.
Proof.
  induction m as [|[k0 v0] m IH]; simpl; [by left|].
  destruct (String.eqb k0 k); intros He; apply elem_of_cons in He as [->|He].
  - right. exists v0. split; [left|done].
  - left. by right.
  - left. left.
  - destruct (IH He) as [Hin|(v & Hin & Hv)]; [left; by right|].
    right. exists v. split; [by right|done].
Qed.

Lemma wf_closeSession (k : string) (m : SessionManager) :
  wf m -> wf (fst (closeSession k m)).
Proof.
  intros Hwf. unfold closeSession.
  destruct (map_get k (sessions m)); [|done].
  eapply wf_sublist; [|exact Hwf]. simpl. apply filter_sublist.
Qed.

Lemma wf_makeRoom (env : CreateEnv) (m : SessionManager) :
  wf m -> wf (makeRoom env m).
Proof.
  intros Hwf. unfold makeRoom.
  destruct (SESSION_CONFIG.maxSessions <=? length (sessions m)); [|done].
  destruct (SESSION_CONFIG.maxSessions
            <=? length (sessions (cleanupExpiredSessions (sweepNow env) m)));
    [|by apply wf_cleanup].
  destruct (getOldestSession (cleanupExpiredSessions (sweepNow env) m));
    [|by apply wf_cleanup].
  by apply wf_closeSession, wf_cleanup.
Qed.

Lemma wf_mutate (k : string) (f : Session -> Session) (m : SessionManager) :
  (forall v, id (f v) = id v) -> wf m ->
  wf {| sessions := map_mutate k f (sessions m); closed := closed m |}.
Proof.
  intros Hf [Hnd Hid]. split; simpl.
  - by rewrite map_mutate_keys.
  - apply Forall_forall. intros e He.
    destruct (map_mutate_entries _ _ _ _ He) as [Hin|(v & Hin & Hv)].
    + by eapply Forall_forall in Hid.
    + eapply Forall_forall in Hid; [|exact Hin]. simpl in Hid.
      by rewrite Hv, Hf.
Qed.

Lemma wf_createSession (env : CreateEnv) (m : SessionManager) :
  wf m -> wf (fst (createSession env m)).
Proof.
  intros Hwf. pose proof (wf_makeRoom env m Hwf) as Hroom.
  unfold createSession.
  destruct (getContext env) as [[[]|]|x]; simpl; try done.
  destruct (newPage env) as [p|x]; simpl; try done.
  destruct (goto env) as [[]|x]; simpl; try done.
  destruct Hroom as [Hnd Hid]. split; simpl.
  - rewrite map_set_keys. case_bool_decide as Hin; [done|].
    apply NoDup_app. repeat split; [done| |apply NoDup_singleton].
    intros k Hk Hk'. apply list_elem_of_singleton in Hk'. by subst.
  - apply Forall_forall. intros e He.
    destruct (map_set_entries _ _ _ _ He) as [->|Hin]; [done|].
    by eapply Forall_forall in Hid.
Qed.

Lemma wf_getOrCreateSession (sid : option string) (now : Z) (env : CreateEnv)
    (m : SessionManager) :
  wf m -> wf (fst (getOrCreateSession sid now env m)).
Proof.
  intros Hwf. unfold getOrCreateSession.
  destruct sid as [sid|]; [|by apply wf_createSession].
  destruct (truthy sid); [|by apply wf_createSession].
  destruct (map_get sid (sessions m)); [|by apply wf_createSession].
  simpl. by apply wf_mutate.
Qed.

Lemma wf_touchSession (k : string) (now : Z) (m : SessionManager) :
  wf m -> wf (touchSession k now m).
Proof.
  intros Hwf. unfold touchSession.
  destruct (map_get k (sessions m)); [|done]. by apply wf_mutate.
Qed.

Lemma eviction_takes_oldest_witness :
  let m' := fst (createSession (create_env 100 "new" 10) full_registry) in
  closed m' = [1]
  /\ map fst (sessions m')
     = ["s0"; "s2"; "s3"; "s4"; "s5"; "s6"; "s7"; "s8"; "s9"; "new"].
Proof.
  assert (Hwf : wf full_registry).
  { split; [refine (bool_decide_unpack _ _); by vm_compute|].
    repeat constructor. }
  assert (Hfull : SESSION_CONFIG.maxSessions <= length (sessions full_registry))
    by (vm_compute; lia).
  assert (Hstill : SESSION_CONFIG.maxSessions
            <= length (sessions (cleanupExpiredSessions
                                   (sweepNow (create_env 100 "new" 10))
                                   full_registry)))
    by (vm_compute; lia).
  destruct (eviction_takes_oldest (create_env 100 "new" 10) full_registry
              Hwf Hfull Hstill)
    as (before & victim & after & Hsw & Hold & _ & _ & _ & Hclosed & _ & _).
  destruct victim as [k v]. simpl in Hold.
  assert (Hv : v = snd (session "s1" 1 30 2)).
  { vm_compute in Hold. by injection Hold as <-. }
  intros m'. split.
  - unfold m'. etrans; [exact Hclosed|]. subst v. reflexivity.
  - reflexivity.
Defined.

End SessionsFacts.

(** * Properties of [trim] and [toLowerCase] *)

Module StringFacts.
Import JS.

Local Abbreviation rev := (rev_string EmptyString).

Lemma append_cons (c : ascii) (s t : string) :
  String c s +++ t = String c (s +++ t).
Proof. done. Qed.

Lemma append_empty_r (s : string) : s +++ "" = s.
Proof. induction s as [|c s IH]; [done|]. by rewrite append_cons, IH. Qed.

Lemma append_assoc (a b c : string) : (a +++ b) +++ c = a +++ b +++ c.
Proof. induction a as [|x a IH]; [done|]. by rewrite !append_cons, IH. Qed.

Lemma rev_string_acc (s : string) : forall acc,
  rev_string acc s = rev s +++ acc.
Proof.
  induction s as [|c s IH]; intros acc; simpl; [done|].
  by rewrite (IH (String c acc)), (IH (String c "")), append_assoc.
Qed.

Lemma rev_cons (c : ascii) (s : string) :
  rev (String c s) = rev s +++ String c "".
Proof. simpl. apply rev_string_acc. Qed.

Lemma rev_app (a b : string) : rev (a +++ b) = rev b +++ rev a.
Proof.
  induction a as [|c a IH].
  - change ("" +++ b) with b. by rewrite append_empty_r.
  - by rewrite append_cons, !rev_cons, IH, append_assoc.
Qed.

Lemma rev_involutive (s : string) : rev (rev s) = s.
Proof.
  induction s as [|c s IH]; [done|]. by rewrite rev_cons, rev_app, IH.
Qed.

Lemma truthy_app (a b : string) : truthy (a +++ b) = truthy a || truthy b.
Proof. by destruct a. Qed.

Lemma truthy_rev (s : string) : truthy (rev s) = truthy s.
Proof.
  destruct s as [|c s]; [done|].
  by rewrite rev_cons, truthy_app, orb_true_r.
Qed.

Lemma not_truthy (s : string) : truthy s = false -> s = "".
Proof. by destruct s. Qed.

(** *** [trim] *)

Lemma trimStart_app (a b : string) :
  trimStart (a +++ b)
  = if truthy (trimStart a) then trimStart a +++ b else trimStart b.
Proof.
  induction a as [|c a IH]; [done|]. rewrite append_cons. simpl.
  by destruct (isWhiteSpace c).
Qed.

Lemma trimStart_head (s : string) (c : ascii) (rest : string) :
  trimStart s = String c rest -> isWhiteSpace c = false.
Proof.
  induction s as [|x s IH]; simpl; [done|].
  destruct (isWhiteSpace x) eqn:Hx; [done|]. by intros [= <- _].
Qed.

Lemma trimStart_idem (s : string) : trimStart (trimStart s) = trimStart s.
Proof.
  induction s as [|c s IH]; simpl; [done|].
  destruct (isWhiteSpace c) eqn:Hc; [done|]. simpl. by rewrite Hc.
Qed.

Lemma blank_rev (s : string) : trimStart s = "" -> trimStart (rev s) = "".
Proof.
  induction s as [|c s IH]; simpl; [done|].
  destruct (isWhiteSpace c) eqn:Hc; [|done]. intros Hs.
  rewrite rev_string_acc, trimStart_app, (IH Hs). simpl. by rewrite Hc.
Qed.

Lemma trimEnd_app_blank (s ws : string) :
  trimStart ws = "" -> trimEnd (s +++ ws) = trimEnd s.
Proof.
  intros Hws. unfold trimEnd.
  by rewrite rev_app, trimStart_app, (blank_rev ws Hws).
Qed.

Lemma trimEnd_cons (c : ascii) (r : string) :
  trimEnd (String c r)
  = if truthy (trimEnd r) then String c (trimEnd r)
    else if isWhiteSpace c then "" else String c "".
Proof.
  unfold trimEnd. rewrite rev_cons, trimStart_app, truthy_rev.
  destruct (truthy (trimStart (rev r))) eqn:Hr.
  - by rewrite rev_app.
  - simpl. by destruct (isWhiteSpace c).
Qed.

Lemma trimStart_trimEnd (s : string) :
  trimStart (trimEnd s) = trimEnd (trimStart s).
Proof.
  induction s as [|c s IH]; [done|].
  simpl trimStart at 2. destruct (isWhiteSpace c) eqn:Hc.
  - rewrite <- IH, trimEnd_cons, Hc.
    destruct (truthy (trimEnd s)) eqn:Hs; simpl; [by rewrite Hc|].
    by rewrite (not_truthy _ Hs).
  - rewrite trimEnd_cons, Hc.
    destruct (truthy (trimEnd s)); simpl; by rewrite Hc.
Qed.

Lemma trimEnd_idem (s : string) : trimEnd (trimEnd s) = trimEnd s.
Proof. unfold trimEnd. by rewrite rev_involutive, trimStart_idem. Qed.

Lemma trim_idem (s : string) : trim (trim s) = trim s.
Proof.
  unfold trim. by rewrite trimStart_trimEnd, trimStart_idem, trimEnd_idem.
Qed.

Lemma trim_blank (s : string) : trim s = "" <-> trimStart s = "".
Proof.
  unfold trim. split; [|by intros ->].
  destruct (trimStart s) as [|c rest] eqn:Hs; [done|].
  rewrite trimEnd_cons, (trimStart_head s c rest Hs).
  by destruct (truthy (trimEnd rest)).
Qed.

Lemma trim_pad (ws1 ws2 s : string) :
  trim ws1 = "" -> trim ws2 = "" -> trim (ws1 +++ s +++ ws2) = trim s.
Proof.
  rewrite !trim_blank. intros H1 H2. unfold trim.
  rewrite trimStart_app, H1. simpl. rewrite trimStart_app.
  destruct (truthy (trimStart s)) eqn:Hs.
  - by apply trimEnd_app_blank.
  - by rewrite H2, (not_truthy _ Hs).
Qed.

(** *** [toLowerCase] *)

Lemma isWhiteSpace_lowerChar (c : ascii) :
  isWhiteSpace (lowerChar c) = isWhiteSpace c.
Proof. by destruct c as [[] [] [] [] [] [] [] []]; vm_compute. Qed.

Lemma lowerChar_idem (c : ascii) : lowerChar (lowerChar c) = lowerChar c.
Proof. by destruct c as [[] [] [] [] [] [] [] []]; vm_compute. Qed.

Lemma toLowerCase_idem (s : string) :
  toLowerCase (toLowerCase s) = toLowerCase s.
Proof.
  induction s as [|c s IH]; simpl; [done|]. by rewrite lowerChar_idem, IH.
Qed.

Lemma toLowerCase_app (a b : string) :
  toLowerCase (a +++ b) = toLowerCase a +++ toLowerCase b.
Proof.
  induction a as [|c a IH]; [done|]. rewrite !append_cons. simpl.
  by rewrite append_cons, IH.
Qed.

Lemma toLowerCase_trimStart (s : string) :
  toLowerCase (trimStart s) = trimStart (toLowerCase s).
Proof.
  induction s as [|c s IH]; simpl; [done|].
  rewrite isWhiteSpace_lowerChar. by destruct (isWhiteSpace c).
Qed.

Lemma toLowerCase_rev (s : string) : toLowerCase (rev s) = rev (toLowerCase s).
Proof.
  induction s as [|c s IH]; [done|].
  simpl toLowerCase at 2. by rewrite !rev_cons, toLowerCase_app, IH.
Qed.

Lemma toLowerCase_trim (s : string) :
  toLowerCase (trim s) = trim (toLowerCase s).
Proof.
  unfold trim, trimEnd.
  by rewrite toLowerCase_rev, toLowerCase_trimStart, toLowerCase_rev,
    toLowerCase_trimStart.
Qed.

End StringFacts.

(** * Names that are no model names *)

Module NamesFacts.
Import JS OpenAI Models StringFacts.

(** What [mapModelName] looks up is in lower case. *)
Lemma normalized_is_lower (name : string) :
  toLowerCase (trim (toLowerCase name)) = trim (toLowerCase name).
Proof. by rewrite toLowerCase_trim, toLowerCase_idem. Qed.

Lemma assoc_Some {V} (key : string) (l : list (string * V)) (v : V) :
  assoc key l = Some v -> key ∈ map fst l.
Proof.
  induction l as [|[k x] l IH]; simpl; [done|].
  destruct (String.eqb_spec k key) as [->|Hne]; [left|right; auto].
Qed.

Lemma assoc_None {V} (key : string) (l : list (string * V)) :
  assoc key l = None -> key ∉ map fst l.
Proof.
  induction l as [|[k x] l IH]; simpl; [intros _; apply not_elem_of_nil|].
  destruct (String.eqb_spec k key) as [->|Hne]; [done|].
  intros H. apply not_elem_of_cons. split; [congruence|auto].
Qed.

Lemma existsb_eqb (key : string) (l : list string) :
  existsb (String.eqb key) l = true <-> key ∈ l.
Proof.
  rewrite existsb_exists. split.
  - intros (x & Hin & Hx). apply String.eqb_eq in Hx. subst.
    by apply list_elem_of_In.
  - intros Hin. exists key. split; [by apply list_elem_of_In|].
    apply String.eqb_refl.
Qed.




End NamesFacts.

(** * Properties of the handlers *)

Module HandlersFacts.
Import JS Cfg OpenAI Sessions Handlers Examples SessionsFacts.

Lemma find_all_false {A} (f : A -> bool) (l : list A) :
  Forall (fun x => f x = false) l -> List.find f l = None.
Proof.
  induction 1 as [|x l Hx Hl IH]; simpl; [done|]. by rewrite Hx.
Qed.

Lemma lastUserMessage_None (msgs : list ChatMessage) :
  Forall (fun m => role m <> "user") msgs -> lastUserMessage msgs = None.
Proof.
  intros H. unfold lastUserMessage. apply find_all_false.
  apply List.Forall_rev. eapply Forall_impl; [exact H|].
  intros m Hm. by apply String.eqb_neq.
Qed.

Section Facts.
Variable cfg : Config.


(** C10, as it holds. A request that passes the checks of [messages],
    [stream] and [model], names a registered session that has already
    counted a message, and carries no message with role user, is
    answered 400 with code no_user_message; nothing is enqueued, no
    session is added or removed, no page is closed and no message count
    changes; the one change is that the session's [lastActivityAt] has
    been set to the time of the request. *)
Theorem continued_session_needs_user_message (env : RequestEnv)
    (body : ChatCompletionRequest) (srv : Server)
    (msgs : list ChatMessage) (sid : string) (s : Session) :
  messages body = Some msgs -> msgs <> [] -> stream body = false ->
  truthyModel (model body)
    && negb (Models.isValidModel (default "" (model body))) = false ->
  session_id body = Some sid -> truthy sid = true ->
  map_get sid (sessions (sessionManager srv)) = Some s ->
  0 < messageCount s ->
  Forall (fun m => role m <> "user") msgs ->
  let srv' := fst (handleChatCompletion cfg env body srv) in
  snd (handleChatCompletion cfg env body srv) = inl (Status 400 noUserMessage)
  /\ error_code noUserMessage = "no_user_message"
  /\ requestQueue srv' = requestQueue srv
  /\ suspended srv' = suspended srv
  /\ closed (sessionManager srv') = closed (sessionManager srv)
  /\ sessions (sessionManager srv')
     = map_mutate sid (bump (arrivalNow env)) (sessions (sessionManager srv))
  /\ map fst (sessions (sessionManager srv'))
     = map fst (sessions (sessionManager srv))
  /\ map_get sid (sessions (sessionManager srv'))
     = Some (bump (arrivalNow env) s)
  /\ forall key,
       messageCount <$> map_get key (sessions (sessionManager srv'))
       = messageCount <$> map_get key (sessions (sessionManager srv)).
Proof.
  intros Hmsgs Hne Hstream Hmodel Hsid Htruthy Hget Hcount Hnouser srv'.
  assert (Heq : handleChatCompletion cfg env body srv
            = ({| sessionManager :=
                    {| sessions := map_mutate sid (bump (arrivalNow env))
                                     (sessions (sessionManager srv));
                       closed := closed (sessionManager srv) |};
                  requestQueue := requestQueue srv;
                  suspended := suspended srv;
                  responses := responses srv |},
               inl (Status 400 noUserMessage))).
  { unfold handleChatCompletion. rewrite Hmsgs.
    destruct msgs as [|m0 rest]; [done|].
    rewrite Hstream, Hmodel. unfold getOrCreateSession.
    rewrite Hsid, Htruthy, Hget. simpl.
    destruct (messageCount s) eqn:Hc; [lia|]. simpl.
    by rewrite (lastUserMessage_None (m0 :: rest) Hnouser). }
  unfold srv'. rewrite Heq. simpl.
  repeat split; try done.
  - generalize (sessions (sessionManager srv)). intros l.
    induction l as [|[k v] l IH]; simpl; [done|].
    destruct (String.eqb k sid); simpl; [done|by rewrite IH].
  - by rewrite map_get_mutate, String.eqb_refl, Hget.
  - intros key. rewrite map_get_mutate.
    destruct (String.eqb sid key); [|done].
    by destruct (map_get key (sessions (sessionManager srv))).
Qed.

(** *** Message counts *)

Lemma handleChatCompletion_sessions (env : RequestEnv)
    (body : ChatCompletionRequest) (srv : Server) :
  sessionManager (fst (handleChatCompletion cfg env body srv))
    = sessionManager srv
  \/ sessionManager (fst (handleChatCompletion cfg env body srv))
     = fst (getOrCreateSession (session_id body) (arrivalNow env)
              (create env) (sessionManager srv)).
Proof.
  unfold handleChatCompletion.
  destruct (messages body) as [[|m0 rest]|]; [by left| |by left].
  destruct (stream body); [by left|].
  destruct (truthyModel (model body)
            && negb (Models.isValidModel (default "" (model body))));
    [by left|].
  destruct (getOrCreateSession _ _ _ _) as [sm [session|x]]; [|by right].
  destruct (if messageCount session =? 0 then _ else _); [|by right].
  destruct (Queue.enqueue _ _ _) as [q [e|promise]]; by right.
Qed.

Lemma deliver_kept (promise : nat) (st : @Queue.Settlement string)
    (env : ResumeEnv) (srv : Server) :
  kept (sessions (sessionManager srv))
       (sessions (sessionManager (deliver promise st env srv))).
Proof.
  unfold deliver. destruct (find_suspended promise srv) as [k|];
    [|apply kept_refl].
  destruct st as [text|e]; simpl; [apply kept_touchSession|apply kept_refl].
Qed.

Lemma server_step_grows (srv : Server) (ev : ServerEvent)
    (key : string) (s s' : Session) :
  fresh_uuid srv ev ->
  map_get key (sessions (sessionManager srv)) = Some s ->
  map_get key (sessions (sessionManager (server_step cfg srv ev))) = Some s' ->
  messageCount s <= messageCount s'.
Proof.
  intros Hfresh Hs Hs'.
  assert (Hkept : forall m',
            kept (sessions (sessionManager srv)) m' ->
            map_get key m' = Some s' -> messageCount s <= messageCount s').
  { intros m' Hk H'. destruct (Hk key s' H') as (s1 & H1 & Hle).
    rewrite Hs in H1. by injection H1 as <-. }
  destruct ev as [env body|promise r env|promise|now|sessionId];
    simpl in Hs', Hfresh.
  - assert (Hsm : sessionManager
                    (match handleChatCompletion cfg env body srv with
                     | (srv0, inl r) => respond r srv0
                     | (srv0, inr k) => suspend k srv0
                     end)
                  = sessionManager (fst (handleChatCompletion cfg env body srv))).
    { by destruct (handleChatCompletion cfg env body srv) as [srv0 [r|k]]. }
    rewrite Hsm in Hs'.
    destruct (handleChatCompletion_sessions env body srv) as [Heq|Heq];
      rewrite Heq in Hs'.
    + rewrite Hs in Hs'. by injection Hs' as <-.
    + by eapply getOrCreateSession_grows.
  - destruct (Queue.find_running promise (requestQueue srv));
      [|rewrite Hs in Hs'; by injection Hs' as <-].
    eapply Hkept; [|exact Hs']. apply (deliver_kept promise _ env (withQueue _ srv)).
  - case_bool_decide; [|rewrite Hs in Hs'; by injection Hs' as <-].
    unfold deliver_rejection in Hs'.
    destruct (find_suspended promise _); simpl in Hs';
      rewrite Hs in Hs'; by injection Hs' as <-.
  - eapply Hkept; [|exact Hs']. apply kept_cleanup.
  - unfold handleDeleteSession in Hs'.
    pose proof (kept_closeSession sessionId (sessionManager srv)) as Hk.
    destruct (closeSession sessionId (sessionManager srv)) as [sm [|]];
      simpl in *; by eapply Hkept.
Qed.

(** Every state the server can reach holds a registry that is a map. *)
Lemma wf_server_step (srv : Server) (ev : ServerEvent) :
  wf (sessionManager srv) -> wf (sessionManager (server_step cfg srv ev)).
Proof.
  intros Hwf. destruct ev as [env body|promise r env|promise|now|sessionId]; simpl.
  - assert (Hsm : sessionManager
                    (match handleChatCompletion cfg env body srv with
                     | (srv0, inl r) => respond r srv0
                     | (srv0, inr k) => suspend k srv0
                     end)
                  = sessionManager (fst (handleChatCompletion cfg env body srv))).
    { by destruct (handleChatCompletion cfg env body srv) as [srv0 [r|k]]. }
    rewrite Hsm.
    destruct (handleChatCompletion_sessions env body srv) as [->| ->]; [done|].
    by apply wf_getOrCreateSession.
  - destruct (Queue.find_running promise (requestQueue srv)); [|done].
    unfold deliver. destruct (find_suspended promise _); [|done].
    destruct (Queue.settlement r); simpl; [by apply wf_touchSession|done].
  - case_bool_decide; [|done]. unfold deliver_rejection.
    by destruct (find_suspended promise _).
  - by apply wf_cleanup.
  - unfold handleDeleteSession.
    pose proof (wf_closeSession sessionId (sessionManager srv) Hwf) as Hc.
    by destruct (closeSession sessionId (sessionManager srv)) as [sm [|]].
Qed.

Lemma wf_server_run (evs : list ServerEvent) (srv : Server) :
  wf (sessionManager srv) -> wf (sessionManager (server_run cfg evs srv)).
Proof.
  revert srv. induction evs as [|ev evs IH]; intros srv Hwf; [done|].
  simpl. by apply IH, wf_server_step.
Qed.

Lemma wf_reachable (evs : list ServerEvent) :
  wf (sessionManager (server_run cfg evs start)).
Proof.
  apply wf_server_run. split; simpl; [apply NoDup_nil_2|by constructor].
Qed.

(** What one step of the server does to the message count of a session
    that is registered before and after it. *)
Lemma server_step_counts (srv : Server) (ev : ServerEvent)
    (key : string) (s s' : Session) :
  fresh_uuid srv ev ->
  map_get key (sessions (sessionManager srv)) = Some s ->
  map_get key (sessions (sessionManager (server_step cfg srv ev))) = Some s' ->
  messageCount s' = messageCount s + (if counts srv ev key then 1 else 0).
Proof.
  intros Hfresh Hs Hs'.
  assert (Hsame : forall m',
            unchanged (sessions (sessionManager srv)) m' ->
            map_get key m' = Some s' -> messageCount s' = messageCount s + 0).
  { intros m' Hk H'. destruct (Hk key s' H') as (s1 & H1 & Heq).
    rewrite Hs in H1. injection H1 as <-. lia. }
  assert (Hstay : map_get key (sessions (sessionManager srv)) = Some s' ->
                  messageCount s' = messageCount s + 0).
  { intros H'. apply (Hsame _ (unchanged_refl _) H'). }
  destruct ev as [env body|promise r env|promise|now|sessionId];
    simpl in Hs', Hfresh.
  - simpl.
    assert (Hsm : sessionManager
                    (match handleChatCompletion cfg env body srv with
                     | (srv0, inl r) => respond r srv0
                     | (srv0, inr k) => suspend k srv0
                     end)
                  = sessionManager (fst (handleChatCompletion cfg env body srv))).
    { by destruct (handleChatCompletion cfg env body srv) as [srv0 [r|k]]. }
    rewrite Hsm in Hs'.
    destruct (handleChatCompletion_sessions env body srv) as [Heq|Heq];
      rewrite Heq in Hs'; [by apply Hstay|].
    rewrite (getOrCreateSession_counts_nothing _ _ _ _ key s s' Hfresh Hs Hs').
    lia.
  - unfold counts.
    destruct (Queue.find_running promise (requestQueue srv)) as [item|];
      [|destruct r; by apply Hstay].
    unfold deliver in Hs'.
    change (find_suspended promise (withQueue _ srv))
      with (find_suspended promise srv) in Hs'.
    destruct (find_suspended promise srv) as [k|];
      [|destruct r; by apply Hstay].
    destruct r as [text|x]; simpl in Hs'; [|by apply Hstay].
    unfold touchSession in Hs'.
    destruct (map_get (id (sus_session k)) (sessions (sessionManager srv)))
      as [found|] eqn:Hfound; simpl in Hs'.
    + rewrite map_get_mutate in Hs'.
      destruct (String.eqb (id (sus_session k)) key); [|by apply Hstay].
      rewrite Hs in Hs'. injection Hs' as <-. simpl. lia.
    + destruct (String.eqb_spec (id (sus_session k)) key) as [Heq|Hne];
        [|by apply Hstay].
      rewrite Heq in Hfound. congruence.
  - simpl. case_bool_decide; [|by apply Hstay].
    unfold deliver_rejection in Hs'.
    destruct (find_suspended promise _); simpl in Hs'; by apply Hstay.
  - simpl. eapply Hsame; [|exact Hs']. apply unchanged_cleanup.
  - simpl. unfold handleDeleteSession in Hs'.
    pose proof (unchanged_closeSession sessionId (sessionManager srv)) as Hk.
    destruct (closeSession sessionId (sessionManager srv)) as [sm [|]];
      simpl in *; by eapply Hsame.
Qed.

(** Once the handler that awaited [promise] has run on, no later
    settlement of that promise counts. *)
Lemma counts_once (srv : Server) (promise : nat) (r r' : Outcome string)
    (env env' : ResumeEnv) (key : string) :
  counts (server_step cfg srv (ExchangeSettles promise r env))
         (ExchangeSettles promise r' env') key = false.
Proof.
  assert (Hgone : forall l : list Suspended,
            List.find (fun k => Nat.eqb (awaited k) promise)
              (List.filter (fun k => negb (Nat.eqb (awaited k) promise)) l)
            = None).
  { induction l as [|k l IH]; simpl; [done|].
    destruct (Nat.eqb (awaited k) promise) eqn:Hk; simpl; [done|].
    by rewrite Hk. }
  assert (Hnone : forall srv0,
            find_suspended promise srv0 = None ->
            counts srv0 (ExchangeSettles promise r' env') key = false).
  { intros srv0 H0. unfold counts. rewrite H0.
    destruct r'; [|done]. by destruct (Queue.find_running _ _). }
  simpl server_step.
  destruct (Queue.find_running promise (requestQueue srv)) as [item|] eqn:Hrun.
  - unfold deliver.
    change (find_suspended promise (withQueue _ srv))
      with (find_suspended promise srv).
    destruct (find_suspended promise srv) as [k|] eqn:Hk.
    + apply Hnone. destruct (Queue.settlement r); simpl; apply Hgone.
    + apply Hnone. exact Hk.
  - unfold counts. rewrite Hrun. by destruct r'.
Qed.

(** C9, as it holds. When the handler resumes after a successful
    exchange and the session is still registered, that session's
    [messageCount] goes up by exactly one and no other session changes;
    when the session has been closed in the meantime, nothing changes
    at all; when the exchange fails, nothing changes; no step of the
    server makes the [messageCount] of a session that stays registered
    go down. Over the steps of the server: the [messageCount] of a
    session that stays registered goes up by one on the step on which a
    handler suspended for that session resumes after a fulfilled
    exchange, and is the same after every other step as before it: a
    request that arrives, for this session or another, a failed
    exchange, a queue timeout, a cleanup and a deletion count nothing;
    and for one exchange there is one such step, a later settlement of
    the same promise counting nothing. *)
Theorem messageCount_counts_completions :
  (forall env k text srv s,
      map_get (id (sus_session k)) (sessions (sessionManager srv)) = Some s ->
      let srv' := fst (handleChatCompletion_then env k text srv) in
      map_get (id (sus_session k)) (sessions (sessionManager srv'))
        = Some (touch (touchNow env) s)
      /\ messageCount (touch (touchNow env) s) = S (messageCount s)
      /\ forall key, key <> id (sus_session k) ->
           map_get key (sessions (sessionManager srv'))
           = map_get key (sessions (sessionManager srv)))
  /\ (forall env k text srv,
        map_get (id (sus_session k)) (sessions (sessionManager srv)) = None ->
        fst (handleChatCompletion_then env k text srv) = srv)
  /\ (forall k e srv, fst (handleChatCompletion_catch k e srv) = srv)
  /\ (forall srv ev key s s',
        fresh_uuid srv ev ->
        map_get key (sessions (sessionManager srv)) = Some s ->
        map_get key (sessions (sessionManager (server_step cfg srv ev)))
          = Some s' ->
        messageCount s <= messageCount s')
  /\ (forall srv ev key s s',
        fresh_uuid srv ev ->
        map_get key (sessions (sessionManager srv)) = Some s ->
        map_get key (sessions (sessionManager (server_step cfg srv ev)))
          = Some s' ->
        messageCount s'
        = messageCount s + (if counts srv ev key then 1 else 0))
  /\ (forall srv promise r env r' env' key,
        counts (server_step cfg srv (ExchangeSettles promise r env))
               (ExchangeSettles promise r' env') key = false).
Proof.
  split; [|split; [|split; [|split; [|split]]]].
  - intros env k text srv s Hs srv'. unfold srv'. simpl.
    unfold touchSession. rewrite Hs. simpl. repeat split.
    + by rewrite map_get_mutate, String.eqb_refl, Hs.
    + intros key Hne. rewrite map_get_mutate.
      by rewrite (proj2 (String.eqb_neq _ _)) by congruence.
  - intros env k text srv Hs. simpl. unfold touchSession. rewrite Hs.
    by destruct srv.
  - done.
  - apply server_step_grows.
  - apply server_step_counts.
  - intros. apply counts_once.
Qed.

(** C7, as it holds. In every state the server can reach, the cleanup
    callback closes the pages of exactly the sessions whose
    [lastActivityAt] lies more than the idle threshold before the time it
    reads, and keeps the others; it neither reads nor changes the request
    queue, so whether an exchange is running against such a page makes no
    difference. *)
Theorem sweep_looks_at_idle_time_only (evs : list ServerEvent) (now : Z) :
  let srv := server_run cfg evs start in
  let srv' := server_step cfg srv (CleanupInterval now) in
  closed (sessionManager srv')
    = closed (sessionManager srv)
      ++ map (fun e => page (snd e))
           (List.filter (fun e => isExpired now (snd e))
              (sessions (sessionManager srv)))
  /\ sessions (sessionManager srv')
     = List.filter (fun e => negb (isExpired now (snd e)))
         (sessions (sessionManager srv))
  /\ requestQueue srv' = requestQueue srv
  /\ (forall p, exchangeRunningOn p srv' = exchangeRunningOn p srv)
  /\ (forall e, e ∈ sessions (sessionManager srv) ->
        (now - lastActivityAt (snd e) <= SESSION_CONFIG.timeoutMs)%Z ->
        e ∈ sessions (sessionManager srv'))
  /\ (forall e, e ∈ sessions (sessionManager srv) ->
        (now - lastActivityAt (snd e) > SESSION_CONFIG.timeoutMs)%Z ->
        page (snd e) ∈ closed (sessionManager srv')).
Proof.
  intros srv srv'. pose proof (wf_reachable evs) as Hwf. fold srv in Hwf.
  unfold srv'. simpl.
  rewrite cleanupExpiredSessions_spec by done. simpl.
  repeat split; try done.
  - intros e He Hidle. apply list_elem_of_In, filter_In.
    split; [by apply list_elem_of_In|].
    unfold isExpired. apply negb_true_iff. rewrite Z.gtb_ltb.
    apply Z.ltb_ge. lia.
  - intros e He Hidle. apply elem_of_app. right.
    apply list_elem_of_In, in_map_iff. exists e. split; [done|].
    apply filter_In. split; [by apply list_elem_of_In|].
    unfold isExpired. rewrite Z.gtb_ltb. apply Z.ltb_lt. lia.
Qed.

End Facts.



(** C10 as stated fails: the request is answered no_user_message, and the
    registry is not what it was, the session's [lastActivityAt] having
    moved from 0 to the time of the request. *)
Lemma continued_session_counterexample :
  let '(srv', r) :=
    handleChatCompletion config (request_env 5 "u" 2) system_only one_session in
  r = inl (Status 400 noUserMessage)
  /\ sessions (sessionManager srv') <> sessions (sessionManager one_session)
  /\ lastActivityAt <$> map_get "s1" (sessions (sessionManager one_session))
     = Some 0%Z
  /\ lastActivityAt <$> map_get "s1" (sessions (sessionManager srv'))
     = Some 5%Z.
Proof. vm_compute. repeat split; done. Qed.

Lemma continued_session_needs_user_message_witness :
  snd (handleChatCompletion config (request_env 5 "u" 2) system_only one_session)
  = inl (Status 400 noUserMessage)
  /\ requestQueue (fst (handleChatCompletion config (request_env 5 "u" 2)
                          system_only one_session))
     = Queue.init.
Proof.
  assert (Hne : [system_says "be brief"] <> []) by done.
  assert (Hcount : 0 < messageCount (snd (session "s1" 1 0 1)))
    by (simpl; lia).
  assert (Hnouser : Forall (fun m => role m <> "user") [system_says "be brief"])
    by (repeat constructor; done).
  destruct (continued_session_needs_user_message config (request_env 5 "u" 2)
              system_only one_session [system_says "be brief"] "s1"
              (snd (session "s1" 1 0 1))
              eq_refl Hne eq_refl eq_refl eq_refl eq_refl eq_refl
              Hcount Hnouser)
    as (Hr & _ & Hq & _).
  split; [exact Hr|exact Hq].
Defined.

(** C9 as stated fails: the exchange completes and the request is
    answered with a completion for session s1, but s1 was deleted while
    the exchange ran; [touchSession] finds nothing, and no message count
    has moved: s1 held 0 before it was closed and the registry is
    empty. *)
Lemma messageCount_counterexample :
  let before := server_run config (take 1 closed_meanwhile) start in
  let after := server_run config closed_meanwhile start in
  messageCount <$> map_get "s1" (sessions (sessionManager before)) = Some 0
  /\ (response_session_id <$>
        (match last (responses after) with
         | Some (Json body) => Some body
         | _ => None
         end)) = Some "s1"
  /\ sessions (sessionManager after) = []
  /\ closed (sessionManager after) = [7].
Proof. vm_compute. repeat split; done. Qed.

Lemma messageCount_counts_completions_witness :
  let srv := server_run config (take 1 closed_meanwhile) start in
  let k := {| awaited := 0; sus_session := snd (session "s1" 7 0 0);
              sus_requestedModel := Some "copilot-auto" |} in
  messageCount <$>
    map_get "s1"
      (sessions (sessionManager
         (fst (handleChatCompletion_then (resume_env 9) k "hello" srv))))
  = Some 1
  /\ messageCount (bump 5 (snd (session "s1" 1 0 1))) = 1 + 0
  /\ messageCount (touch 9 (snd (session "s1" 7 0 0))) = 0 + 1.
Proof.
  intros srv k.
  destruct (messageCount_counts_completions config)
    as (Hthen & _ & _ & _ & Hstep & _).
  destruct (Hthen (resume_env 9) k "hello" srv (snd (session "s1" 7 0 0))
              eq_refl) as (Hget & Hcount & _).
  split; [etrans; [exact (f_equal (fmap messageCount) Hget)|reflexivity]|].
  split.
  - apply (Hstep one_session (ChatCompletion (request_env 5 "u" 2) follow_up)
             "s1" (snd (session "s1" 1 0 1))
             (bump 5 (snd (session "s1" 1 0 1)))).
    + vm_compute. intros Hin. inversion Hin as [|? ? ? Hin']; subst.
      inversion Hin'.
    + reflexivity.
    + reflexivity.
  - apply (Hstep srv (ExchangeSettles 0 (Fulfilled "hello") (resume_env 9))
             "s1" (snd (session "s1" 7 0 0))
             (touch 9 (snd (session "s1" 7 0 0)))).
    + exact I.
    + reflexivity.
    + reflexivity.
Defined.

(** C7 as stated fails: the exchange of the first request is running
    against page 7 when the cleanup callback reads a clock that is past
    the idle threshold; the callback closes page 7, and the exchange is
    still running against it. *)
Lemma sweep_counterexample :
  let before := server_run config (take 1 long_exchange) start in
  let after := server_run config long_exchange start in
  exchangeRunningOn 7 before = true
  /\ map fst (sessions (sessionManager before)) = ["s1"]
  /\ closed (sessionManager before) = []
  /\ exchangeRunningOn 7 after = true
  /\ closed (sessionManager after) = [7].
Proof. vm_compute. repeat split; done. Qed.

Lemma sweep_looks_at_idle_time_only_witness :
  let srv := server_run config (take 1 long_exchange) start in
  snd (session "s1" 7 0 0)
    ∈ map snd (sessions (sessionManager
                 (server_step config srv (CleanupInterval 1800000))))
  /\ 7 ∈ closed (sessionManager
                   (server_step config srv (CleanupInterval 1800001))).
Proof.
  intros srv.
  assert (Hin : session "s1" 7 0 0 ∈ sessions (sessionManager srv))
    by (vm_compute; left).
  destruct (sweep_looks_at_idle_time_only config (take 1 long_exchange) 1800000)
    as (_ & _ & _ & _ & Hkeep & _).
  destruct (sweep_looks_at_idle_time_only config (take 1 long_exchange) 1800001)
    as (_ & _ & _ & _ & _ & Hclose).
  split.
  - apply list_elem_of_fmap. exists (session "s1" 7 0 0). split; [done|].
    apply Hkeep; [exact Hin|]. vm_compute. discriminate.
  - apply (Hclose (session "s1" 7 0 0)); [exact Hin|]. vm_compute. reflexivity.
Defined.

End HandlersFacts.


(** * Properties of the page interaction *)

Module CopilotFacts.
Import JS Cfg Copilot Examples.

#[local] Existing Instances M_ret M_bind.

Section Facts.
Context {World : Type}.
Variable page : Page World.
Variable cfg : Config.

Abbreviation M := (Copilot.M World).

Lemma settles_ret {A} (a : A) : settles World (mret a : M A).
Proof. by intros s. Qed.

Lemma settles_throw {A} (x : Thrown) : settles World (throw World x : M A).
Proof. by intros s. Qed.

Lemma settles_log (line : string) : settles World (log World line).
Proof. by intros s. Qed.

Lemma settles_delay (a b : Z) : settles World (delay World page a b).
Proof. by intros s. Qed.

Lemma settles_await {A} (call : World -> Outcome A * World) :
  settles World (await World call).
Proof. intros s. unfold await. by destruct (call (fst s)) as [[a|x] w]. Qed.

Lemma settles_bind {A B} (m : M A) (k : A -> M B) :
  settles World m -> (forall a, settles World (k a)) ->
  settles World (m ≫= k).
Proof.
  intros Hm Hk s. unfold mbind, M_bind, bind. specialize (Hm s).
  destruct (m s) as [[a|x|] s']; simpl in *; [apply Hk|done|done].
Qed.

Lemma settles_tryCatch {A} (body : M A) (handler : Thrown -> M A) :
  settles World body -> (forall x, settles World (handler x)) ->
  settles World (tryCatch World body handler).
Proof.
  intros Hb Hh s. unfold tryCatch. specialize (Hb s).
  destruct (body s) as [[a|x|] s']; simpl in *; [done|apply Hh|done].
Qed.

Lemma returns_bind {A B} (m : M A) (k : A -> M B) :
  returns World m -> (forall a, returns World (k a)) ->
  returns World (m ≫= k).
Proof.
  intros Hm Hk s. unfold mbind, M_bind, bind.
  destruct (Hm s) as (a & s' & ->). apply Hk.
Qed.

Lemma bind_Returned {A B} (m : M A) (k : A -> M B) (s s' : St World) (a : A) :
  m s = (Returned a, s') -> (m ≫= k) s = k a s'.
Proof. intros H. unfold mbind, M_bind, bind. by rewrite H. Qed.

Lemma returns_ret {A} (a : A) : returns World (mret a : M A).
Proof. intros s. by exists a, s. Qed.

Lemma returns_log (line : string) : returns World (log World line).
Proof. intros s. by eexists _, _. Qed.

Lemma returns_delay (a b : Z) : returns World (delay World page a b).
Proof. intros s. by eexists _, _. Qed.

Lemma returns_tryCatch {A} (body : M A) (handler : Thrown -> M A) :
  settles World body -> (forall x, returns World (handler x)) ->
  returns World (tryCatch World body handler).
Proof.
  intros Hb Hh s. unfold tryCatch. specialize (Hb s).
  destruct (body s) as [[a|x|] s']; simpl in *;
    [by exists a, s'|apply Hh|done].
Qed.

Ltac settle :=
  repeat first
    [ apply settles_ret | apply settles_throw | apply settles_log
    | apply settles_delay | apply settles_await
    | apply settles_bind; [|intros ?]
    | apply settles_tryCatch; [|intros ?]
    | match goal with
      | |- settles _ (match ?x with _ => _ end) => destruct x
      end ].

(** *** Model selection *)

(** Whatever fails inside the [try] block of [selectModelOnPage], the
    function returns, provided that the [Escape] key press of its
    [catch] clause does not fail itself. *)
Lemma selectModelOnPage_swallows (model : Models.Value) :
  (forall w, exists w', keyboard_press World page "Escape" w = (Fulfilled tt, w')) ->
  returns World (selectModelOnPage World page model).
Proof.
  intros Hescape. unfold selectModelOnPage.
  apply returns_bind; [apply returns_log|intros _].
  apply returns_tryCatch.
  - settle.
  - intros error.
    apply returns_bind; [apply returns_log|intros _].
    apply returns_bind; [apply returns_delay|intros _].
    intros s. unfold await. destruct (Hescape (fst s)) as (w' & ->).
    by eexists _, _.
Qed.

Lemma startNewChatOnPage_returns :
  returns World (startNewChatOnPage World page).
Proof.
  unfold startNewChatOnPage.
  apply returns_bind; [apply returns_log|intros _].
  apply returns_tryCatch; [settle|]. intros error. apply returns_log.
Qed.

(** With [isFirstMessage], once the page is on the chat surface and
    given that the [Escape] key press cannot fail, the exchange always
    gets to [sendMessageOnPage]. *)
Lemma chatCompletionOnPage_reaches_submission (fuel : nat)
    (message : string) (model : Models.Value) :
  returns World (ensureOnCopilot World page) ->
  (forall w, exists w', keyboard_press World page "Escape" w = (Fulfilled tt, w')) ->
  forall s, exists s1,
    chatCompletionOnPage World page cfg fuel message model true s
    = (response ← sendMessageOnPage World page cfg fuel message;
       shortDelay World page;; mret response) s1.
Proof.
  intros Hensure Hescape s. unfold chatCompletionOnPage.
  destruct (Hensure s) as ([] & s1 & H1).
  destruct (returns_delay 200 600 s1) as ([] & s2 & H2).
  assert (Hfirst : returns World
            (startNewChatOnPage World page;; shortDelay World page;;
             selectModelOnPage World page model;; shortDelay World page)).
  { apply returns_bind; [apply startNewChatOnPage_returns|intros _].
    apply returns_bind; [apply returns_delay|intros _].
    apply returns_bind; [by apply selectModelOnPage_swallows|intros _].
    apply returns_delay. }
  destruct (Hfirst s2) as ([] & s3 & H3).
  exists s3.
  rewrite (bind_Returned _ _ s s1 tt H1).
  rewrite (bind_Returned _ _ s1 s2 tt H2).
  by rewrite (bind_Returned _ _ s2 s3 tt H3).
Qed.

(** *** Extraction *)

(** What a selector of the loop yields is never blank. *)
Lemma trySelector_not_blank (selector : Selector) (s s' : St World)
    (text : string) :
  trySelector World page selector s = (Returned (Some text), s') ->
  truthy text = true /\ exists raw, text = trim raw.
Proof.
  unfold trySelector, tryCatch, mbind, M_bind, bind, await, mret, M_ret, ret.
  destruct (queryAll World page selector (fst s)) as [[elements|x] w];
    simpl; [|done].
  destruct (last elements) as [lastElement|]; simpl; [|done].
  destruct (textContent World page lastElement w) as [[[t|]|x] w'];
    simpl; [|done|done].
  destruct (truthy t && truthy (trim t)) eqn:Ht; simpl; [|done].
  intros [= <- <-]. apply andb_true_iff in Ht as [_ Ht]. split; [done|].
  by exists t.
Qed.

Lemma trySelectors_not_blank (selectors : list Selector) :
  forall (s s' : St World) (text : string),
    trySelectors World page selectors s = (Returned (Some text), s') ->
    truthy text = true.
Proof.
  induction selectors as [|selector rest IH]; intros s s' text; simpl.
  - done.
  - unfold mbind, M_bind, bind.
    destruct (trySelector World page selector s) as [[[t|]|x|] s1] eqn:H1;
      simpl; try done.
    + intros [= <- <-]. by destruct (trySelector_not_blank _ _ _ _ H1).
    + apply IH.
Qed.

(** The first selector that yields a text decides. *)
Lemma extract_first_selector (s s' : St World) (text : string) :
  trySelector World page lastAssistantMessage s = (Returned (Some text), s') ->
  extractLastResponseFromPage World page s = (Returned text, s').
Proof.
  intros H. unfold extractLastResponseFromPage. simpl.
  unfold mbind, M_bind, bind. by rewrite H.
Qed.

(** When no selector and no fallback yields, the function throws. *)
Lemma extract_nothing (s s1 s2 : St World) :
  trySelectors World page
    [lastAssistantMessage; assistantMessage; responseContainer] s
    = (Returned None, s1) ->
  tryAnyMessage World page s1 = (Returned None, s2) ->
  extractLastResponseFromPage World page s
  = (Threw (ThrownError extractionError), s2).
Proof.
  intros H1 H2. unfold extractLastResponseFromPage.
  unfold mbind, M_bind, bind. by rewrite H1, H2.
Qed.

End Facts.

(** *** Extraction against its specification, on a page that stands still *)

Lemma truthy_trim (t : string) : truthy (trim t) = true -> truthy t = true.
Proof. by destruct t. Qed.

Lemma trySelector_still (snap : Snapshot) (selector : Selector) (s : St unit) :
  trySelector unit (still_page snap) selector s
  = (Returned (yieldOf snap selector), s).
Proof.
  destruct s as [[] console].
  unfold trySelector, tryCatch, mbind, M_bind, bind, await, mret, M_ret, ret,
    yieldOf. simpl.
  destruct (last (elementsOf snap selector)) as [e|]; simpl; [|done].
  destruct (textOf snap e) as [t|]; simpl; [|done].
  destruct (truthy (trim t)) eqn:Ht; simpl.
  - by rewrite (truthy_trim t Ht).
  - by rewrite andb_false_r.
Qed.

Lemma trySelectors_still (snap : Snapshot) (selectors : list Selector)
    (s : St unit) :
  trySelectors unit (still_page snap) selectors s
  = (Returned (firstYield snap selectors), s).
Proof.
  induction selectors as [|selector rest IH]; simpl; [done|].
  unfold mbind, M_bind, bind. rewrite trySelector_still.
  by destruct (yieldOf snap selector).
Qed.

(** On a page that stands still, [extractLastResponseFromPage] does what
    the specification says, except when the last element of the fallback
    holds blanks only. *)
Lemma extract_as_specified (snap : Snapshot) (s : St unit) :
  ~ blank_fallback snap ->
  extractLastResponseFromPage unit (still_page snap) s
  = (specified_extraction snap, s).
Proof.
  intros Hblank. destruct s as [[] console].
  unfold extractLastResponseFromPage, specified_extraction.
  unfold mbind at 1, M_bind at 1, bind at 1. rewrite trySelectors_still.
  cbn [firstYield].
  destruct (yieldOf snap lastAssistantMessage) as [t1|]; [done|].
  destruct (yieldOf snap assistantMessage) as [t2|]; [done|].
  destruct (yieldOf snap responseContainer) as [t3|]; [done|].
  unfold tryAnyMessage, tryCatch, mbind, M_bind, bind, await, mret, M_ret, ret,
    throw, yieldOf. simpl.
  destruct (last (elementsOf snap anyMessage)) as [e|] eqn:He; simpl; [|done].
  destruct (textOf snap e) as [t|] eqn:Ht; simpl; [|done].
  destruct (truthy t) eqn:Htruthy; simpl.
  - destruct (truthy (trim t)) eqn:Htrim; [done|].
    exfalso. apply Hblank. exists e, t. repeat split; try done.
    by destruct (trim t).
  - destruct t; [|done]. done.
Qed.

(** C5 at a page that has been closed: the lookup of the model selector
    button is rejected, the [catch] clause logs it and presses [Escape],
    that call is rejected too, and [selectModelOnPage] throws; so does
    [chatCompletionOnPage], before any call that would submit the
    message. *)
Theorem selectModel_failure_escapes :
  let select :=
    selectModelOnPage _ closed_page (Models.Model Models.Quick) ([], []) in
  let exchange :=
    chatCompletionOnPage _ closed_page config 10 "hi"
      (Models.Model Models.Quick) true ([], []) in
  fst select = Threw targetClosed
  /\ fst (snd select) = [CallQuery modelSelectorButton; CallPress "Escape"]
  /\ fst exchange = Threw targetClosed
  /\ fst (snd exchange)
     = [CallQuery newChatButton; CallQuery modelSelectorButton;
        CallPress "Escape"].
Proof. vm_compute. repeat split; done. Qed.

(** C6 at a page where the three selectors find nothing and the last
    element the fallback finds holds blanks only: no strategy yields a
    text and the specification asks for the extraction error, but the
    function returns the empty string; the same text under one of the
    three selectors is passed over and ends in the extraction error. *)
Theorem fallback_returns_blank :
  specified_extraction blank_snapshot = Threw (ThrownError extractionError)
  /\ fst (extractLastResponseFromPage _ (still_page blank_snapshot) (tt, []))
     = Returned ""
  /\ fst (extractLastResponseFromPage _ (page_with is_anyMessage "   ") ([], []))
     = Returned ""
  /\ fst (extractLastResponseFromPage _
            (page_with is_responseContainer "   ") ([], []))
     = Threw (ThrownError extractionError)
  /\ fst (extractLastResponseFromPage _
            (page_with is_responseContainer " ok  ") ([], []))
     = Returned "ok".
Proof. vm_compute. repeat split; done. Qed.

End CopilotFacts.

(** * Properties of the model names *)

Module ModelsFacts.
Import JS Models.

(** Every name the error message lists is accepted. *)
Lemma available_names_valid :
  Forall (fun name => isValidModel name = true) availableModelNames.
Proof. repeat constructor. Qed.

(** Names are compared without regard to case and surrounding blanks. *)
Lemma names_are_normalized :
  mapModelName "  GPT-4o " = Some (Model Quick).
Proof. reflexivity. Qed.

(** The aliases are accepted too, and are not in the list. *)
Lemma aliases_valid_unlisted :
  isValidModel "gpt-4o" = true /\ "gpt-4o" ∉ availableModelNames.
Proof.
  split; [reflexivity|]. intros Hin.
  repeat (apply elem_of_cons in Hin as [Hin|Hin]; [discriminate Hin|]).
  by apply not_elem_of_nil in Hin.
Qed.

(** What [modelMapping] inherits passes for a model name as well. *)
Lemma inherited_keys_pass :
  isValidModel "constructor" = true
  /\ getCopilotModel (Some "constructor") = Inherited "constructor".
Proof. by split. Qed.

End ModelsFacts.

(** * More about the request queue *)

Module QueueMore.
Import JS Cfg Queue Examples QueueFacts.

Section Facts.
Context {T Op : Type}.
Variable cfg : Config.

Abbreviation State := (@RequestQueue T Op).
Abbreviation Item := (@QueueItem Op).
Abbreviation Ev := (@Event T Op).
Abbreviation start := (@init T Op).

Lemma length_queue_processNext (q : State) :
  length (queue (processNext q)) <= length (queue q).
Proof.
  unfold processNext. destruct (processing q); simpl; [done|].
  destruct (queue q) as [|item rest] eqn:Hq; simpl; rewrite ?Hq; simpl; lia.
Qed.

Lemma bounded_step (q : State) (ev : Ev) :
  length (queue q) <= maxQueueSize cfg ->
  length (queue (step cfg q ev)) <= maxQueueSize cfg.
Proof.
  intros Hb. destruct ev as [op|id|id r|]; simpl.
  - unfold enqueue.
    destruct (Nat.leb_spec (maxQueueSize cfg) (length (queue q))); [done|].
    simpl. etrans; [apply length_queue_processNext|].
    simpl. rewrite length_app. simpl. lia.
  - case_bool_decide; [|done]. unfold onTimeout. simpl.
    destruct (indexOf id (queue q)) as [index|] eqn:Hix; [|done].
    apply indexOf_Some in Hix as (l1 & it & l2 & Hq & _ & Hsp). simpl.
    rewrite Hsp. rewrite Hq, length_app in Hb. simpl in Hb.
    rewrite length_app. lia.
  - destruct (find_running id q); [|done]. unfold processNext_resume.
    etrans; [apply length_queue_processNext|done].
  - lia.
Qed.

Lemma bounded_run (evs : list Ev) : forall q0 : State,
  length (queue q0) <= maxQueueSize cfg ->
  length (queue (run cfg evs q0)) <= maxQueueSize cfg.
Proof.
  induction evs as [|ev evs IH]; intros q0 H0; [done|].
  rewrite run_cons. by apply IH, bounded_step.
Qed.

(** X1. [getPendingCount] never exceeds [maxQueueSize], whatever the calls,
    timers and completions were; with the operation that runs, at most
    [maxQueueSize + 1] promises are pending. *)
Theorem backlog_is_bounded (evs : list Ev) :
  let q := run cfg evs start in
  getPendingCount q <= maxQueueSize cfg
  /\ length (pendingIds q) <= S (maxQueueSize cfg).
Proof.
  intros q. unfold getPendingCount, pendingIds.
  assert (Hb : length (queue q) <= maxQueueSize cfg).
  { apply bounded_run. simpl. lia. }
  split; [done|].
  destruct (reachable_Inv cfg evs) as [H _]. fold q in H.
  rewrite length_app, !length_map, (inv_running q H).
  destruct (processing q); lia.
Qed.

(** X2. [isProcessing] tells whether an operation is executing: it holds
    exactly when one operation runs, and while it does not hold nothing
    waits and no timer is armed. *)
Theorem worker_is_never_idle_while_items_wait (evs : list Ev) :
  let q := run cfg evs start in
  (isProcessing q = true <-> exists item, running q = [item])
  /\ (isProcessing q = false ->
      getPendingCount q = 0 /\ running q = [] /\ timers q = []).
Proof.
  intros q. unfold isProcessing, getPendingCount.
  destruct (reachable_Inv cfg evs) as [H Hidle]. fold q in H, Hidle.
  pose proof (inv_running q H) as Hrun. pose proof (inv_timers q H) as Htim.
  split; [split|].
  - intros Hp. rewrite Hp in Hrun.
    destruct (running q) as [|item [|]]; simpl in Hrun; try lia. by exists item.
  - intros (item & Hr). rewrite Hr in Hrun. simpl in Hrun.
    by destruct (processing q).
  - intros Hp. rewrite Hp in Hrun. specialize (Hidle Hp).
    rewrite Hidle in Htim. rewrite Hidle. repeat split; [|done].
    by destruct (running q).
Qed.

(** *** Where the promises are *)

Lemma pendingIds_processNext (q : State) :
  pendingIds (processNext q) = pendingIds q.
Proof.
  unfold processNext, pendingIds. destruct (processing q); simpl; [done|].
  destruct (queue q) as [|item rest] eqn:Hq; simpl; rewrite ?Hq; [done|].
  by rewrite map_app, <- app_assoc.
Qed.

Lemma accepted_processNext (q : State) : accepted (processNext q) = accepted q.
Proof.
  unfold processNext. destruct (processing q); simpl; [done|].
  by destruct (queue q).
Qed.

Lemma nextId_processNext (q : State) : nextId (processNext q) = nextId q.
Proof.
  unfold processNext. destruct (processing q); simpl; [done|].
  by destruct (queue q).
Qed.

Lemma sequential_step (q : State) (ev : Ev) :
  accepted q = seq 0 (nextId q) ->
  accepted (step cfg q ev) = seq 0 (nextId (step cfg q ev)).
Proof.
  intros Hs. destruct ev as [op|id|id r|]; simpl.
  - unfold enqueue. destruct (maxQueueSize cfg <=? length (queue q)); [done|].
    simpl. rewrite accepted_processNext, nextId_processNext.
    cbn [accepted nextId]. by rewrite seq_S, Hs.
  - case_bool_decide; [|done]. unfold onTimeout. simpl.
    by destruct (indexOf id (queue q)).
  - destruct (find_running id q); [|done]. unfold processNext_resume.
    by rewrite accepted_processNext, nextId_processNext.
  - done.
Qed.

Lemma accounted_step (q : State) (ev : Ev) :
  Inv q ->
  accepted q ≡ₚ map fst (settled q) ++ pendingIds q ->
  accepted (step cfg q ev)
  ≡ₚ map fst (settled (step cfg q ev)) ++ pendingIds (step cfg q ev).
Proof.
  intros [H Hidle] Hacc. destruct ev as [op|id|id r|]; simpl.
  - unfold enqueue. destruct (maxQueueSize cfg <=? length (queue q)); [done|].
    simpl. rewrite accepted_processNext, settled_processNext,
      pendingIds_processNext. unfold pendingIds in *. simpl.
    rewrite Hacc, map_app. simpl. by rewrite !app_assoc.
  - case_bool_decide; [|done]. unfold onTimeout. simpl.
    destruct (indexOf id (queue q)) as [index|] eqn:Hix; [|done].
    apply indexOf_Some in Hix as (l1 & it & l2 & Hq & Hid & Hsp).
    unfold pendingIds in *. simpl. rewrite Hsp, Hacc, Hq, !map_app. simpl.
    rewrite Hid, <- !app_assoc. apply Permutation_app_head. simpl.
    rewrite !app_assoc. symmetry. apply Permutation_middle.
  - destruct (find_running id q) as [item|] eqn:Hf; [|done].
    destruct (find_running_Some id q item H Hf) as (Hid & Hr & Hp).
    unfold processNext_resume.
    rewrite accepted_processNext, settled_processNext, pendingIds_processNext.
    unfold pendingIds in *. simpl. rewrite Hacc, Hr, map_app. simpl.
    rewrite filter_cons, decide_False, filter_nil by (intros X; by apply X).
    simpl. rewrite <- app_assoc. done.
  - unfold pendingIds in *. simpl. rewrite Hacc, map_app, map_map. simpl.
    rewrite <- app_assoc. apply Permutation_app_head.
    rewrite app_nil_r. apply Permutation_app_comm.
Qed.

Lemma accounted_run (evs : list Ev) :
  let q := run cfg evs start in
  accepted q = seq 0 (nextId q)
  /\ accepted q ≡ₚ map fst (settled q) ++ pendingIds q.
Proof.
  induction evs as [|ev evs IH] using rev_ind; [done|].
  destruct IH as [IH1 IH2]. simpl. rewrite run_app. simpl. split.
  - by apply sequential_step.
  - apply accounted_step; [apply reachable_Inv|done].
Qed.

(** X3. The promises are numbered in the order of the calls of [enqueue]
    that were accepted, and each of them is in exactly one place:
    settled, held by the operation that runs, or waiting. *)
Theorem every_promise_is_accounted_for (evs : list Ev) :
  let q := run cfg evs start in
  accepted q = seq 0 (nextId q)
  /\ accepted q
     ≡ₚ map fst (settled q) ++ map itemId (running q) ++ map itemId (queue q)
  /\ NoDup (map fst (settled q) ++ map itemId (running q)
            ++ map itemId (queue q))
  /\ forall id, id < nextId q ->
       id ∈ map fst (settled q) \/ id ∈ map itemId (running q)
       \/ id ∈ map itemId (queue q).
Proof.
  intros q. destruct (accounted_run evs) as [Hseq Hacc]. fold q in Hseq, Hacc.
  destruct (reachable_Inv cfg evs) as [H _]. fold q in H.
  unfold pendingIds in Hacc. repeat split; [done|done| |].
  - rewrite <- Hacc. apply H.
  - intros id Hid. rewrite <- !elem_of_app, <- Hacc, Hseq.
    apply elem_of_seq. lia.
Qed.

(** *** [clear] *)

(** X4. [clear] rejects every waiting promise with the shutdown error, in
    the order of the queue, and disarms every timer; it leaves the
    operation that runs alone, and no operation that waited is started
    afterwards. *)
Theorem clear_rejects_what_waits (evs : list Ev) :
  let q := run cfg evs start in
  let q' := step cfg q ClearCall in
  getPendingCount q' = 0 /\ timers q' = []
  /\ running q' = running q /\ isProcessing q' = isProcessing q
  /\ settled q'
     = settled q
       ++ map (fun it => (itemId it, Rejected queueClearedError)) (queue q)
  /\ message queueClearedError = "Queue cleared - server shutting down"
  /\ forall (item : Item) (later : list Ev),
       item ∈ queue q ->
       itemId item ∉ map itemId (started (run cfg later q')).
Proof.
  intros q q'. destruct (reachable_Inv cfg evs) as [H Hidle]. fold q in H, Hidle.
  assert (Hinv' : Inv q') by (apply Inv_clear; by split).
  repeat split; try done.
  - apply Hinv'.
  - intros item later Hin.
    assert (Hid : itemId item ∈ map itemId (queue q)).
    { apply list_elem_of_fmap. by exists item. }
    assert (Hd : dropped (itemId item) q').
    { repeat split.
      - assert (Hacc : itemId item ∈ accepted q).
        { apply (Wf_in_accepted q _ H). apply elem_of_app. by right. }
        eapply Forall_forall in Hacc; [|apply (inv_fresh q H)]. exact Hacc.
      - pose proof (Wf_NoDup q H) as Hnd.
        apply NoDup_app in Hnd as (_ & Hdisj & _). intros Hs. by apply (Hdisj _ Hs).
      - apply not_elem_of_nil. }
    apply (dropped_run cfg _ later q' Hd).
Qed.

(** *** [enqueue] on a queue that has room *)

(** X5. A call of [enqueue] that finds room hands out the next promise; on
    an idle queue the operation is started before [enqueue] returns and
    its timer is disarmed at once, on a busy queue the item waits behind
    the others with its timer armed. Either way the worker is busy
    afterwards. *)
Theorem enqueue_starts_or_waits (evs : list Ev) (op : Op) :
  let q := run cfg evs start in
  getPendingCount q < maxQueueSize cfg ->
  let q' := fst (enqueue cfg op q) in
  snd (enqueue cfg op q) = Pending (nextId q)
  /\ nextId q' = S (nextId q)
  /\ isProcessing q' = true
  /\ (if isProcessing q
      then queue q' = queue q ++ [newItem (nextId q) op]
           /\ running q' = running q
           /\ timers q' = timers q ++ [nextId q]
      else queue q' = [] /\ running q' = [newItem (nextId q) op]
           /\ timers q' = []).
Proof.
  intros q Hroom q'. unfold getPendingCount, isProcessing in *.
  destruct (reachable_Inv cfg evs) as [H Hidle]. fold q in H, Hidle.
  pose proof (inv_running q H) as Hrun. pose proof (inv_timers q H) as Htim.
  subst q'. unfold enqueue.
  destruct (Nat.leb_spec (maxQueueSize cfg) (length (queue q))); [lia|].
  simpl. rewrite nextId_processNext. simpl.
  unfold processNext. simpl. destruct (processing q) eqn:Hp; simpl.
  - done.
  - rewrite (Hidle eq_refl) in *. simpl in *. rewrite Htim. simpl.
    destruct (running q); [|done]. simpl.
    rewrite filter_cons, decide_False, filter_nil by (intros X; by apply X).
    done.
Qed.

(** *** The promises that are pending *)

Lemma pending_NoDup (q : State) : Wf q -> NoDup (pendingIds q).
Proof.
  intros H. pose proof (Wf_NoDup q H) as Hnd.
  pose proof (inv_running q H) as Hrun.
  pose proof (inv_running_started q H) as Hrs.
  unfold pendingIds. apply NoDup_app in Hnd as (_ & Hdisj & Hq).
  destruct (running q) as [|it [|it' l]]; simpl in *.
  - done.
  - rewrite Forall_singleton in Hrs. apply NoDup_cons.
    split; [by apply Hdisj|done].
  - destruct (processing q); simpl in Hrun; lia.
Qed.

Lemma pending_enqueue (op : Op) (q q' : State) (id : nat) :
  enqueue cfg op q = (q', Pending id) ->
  id = nextId q /\ pendingIds q' = pendingIds q ++ [id]
  /\ q' = step cfg q (EnqueueCall op).
Proof.
  intros He. simpl. rewrite He. split; [|split; [|done]]; revert He;
    unfold enqueue;
    destruct (maxQueueSize cfg <=? length (queue q)); try done;
    intros [= <- <-]; [done|].
  rewrite pendingIds_processNext. unfold pendingIds. simpl.
  by rewrite map_app, app_assoc.
Qed.

Lemma enqueue_Threw (op : Op) (q q' : State) (e : Error) :
  enqueue cfg op q = (q', Threw e) -> q' = q.
Proof.
  unfold enqueue. destruct (maxQueueSize cfg <=? length (queue q)); [|done].
  by intros [= <- _].
Qed.

Lemma pending_settle (id : nat) (r : Outcome T) (q : State) (item : Item) :
  Wf q -> find_running id q = Some item ->
  pendingIds q = id :: map itemId (queue q)
  /\ pendingIds (step cfg q (ExecuteSettles id r)) = map itemId (queue q)
  /\ id ∉ map itemId (queue q).
Proof.
  intros H Hf. pose proof (pending_NoDup q H) as Hnd.
  destruct (find_running_Some id q item H Hf) as (Hid & Hr & Hp).
  simpl. rewrite Hf. unfold processNext_resume.
  rewrite pendingIds_processNext. unfold pendingIds in *. simpl.
  rewrite Hr in *. simpl in *. rewrite Hid in *.
  rewrite filter_cons, decide_False, filter_nil by (intros X; by apply X).
  by apply NoDup_cons in Hnd as [? _].
Qed.

Lemma pending_timer (id : nat) (q : State) :
  Wf q -> id ∈ timers q ->
  exists l1 l2,
    pendingIds q = l1 ++ id :: l2
    /\ pendingIds (step cfg q (TimerFires id)) = l1 ++ l2
    /\ id ∉ l1 ++ l2.
Proof.
  intros H Harmed. pose proof (pending_NoDup q H) as Hnd.
  simpl. rewrite bool_decide_true by done. unfold onTimeout. simpl.
  destruct (indexOf id (queue q)) as [index|] eqn:Hix.
  2:{ apply indexOf_None in Hix. by rewrite (inv_timers q H) in Harmed. }
  apply indexOf_Some in Hix as (a & it & b & Hq & Hid & Hsp).
  exists (map itemId (running q) ++ map itemId a), (map itemId b).
  unfold pendingIds in *. simpl. rewrite Hsp. rewrite Hq in *.
  rewrite !map_app in *. simpl in *. rewrite Hid in *.
  rewrite app_assoc in Hnd. split; [by rewrite <- app_assoc|].
  split; [by rewrite <- app_assoc|].
  apply NoDup_app in Hnd as (_ & Hdisj & Hnd2).
  apply NoDup_cons in Hnd2 as [Hb _].
  intros Hin. apply elem_of_app in Hin as [Hin|Hin]; [|done].
  apply (Hdisj id Hin). left.
Qed.

Lemma enqueue_idle (op : Op) (q : State) :
  Inv q -> processing q = false -> 0 < maxQueueSize cfg ->
  enqueue cfg op q
  = ({| queue := []; processing := true; nextId := S (nextId q);
        timers := []; running := [newItem (nextId q) op];
        accepted := accepted q ++ [nextId q];
        started := started q ++ [newItem (nextId q) op];
        settled := settled q |},
     Pending (nextId q)).
Proof.
  intros [H Hidle] Hp Hroom. pose proof (inv_running q H) as Hrun.
  pose proof (inv_timers q H) as Htim. rewrite Hp in Hrun.
  rewrite (Hidle Hp) in Htim. unfold enqueue. rewrite (Hidle Hp). simpl.
  destruct (Nat.leb_spec (maxQueueSize cfg) 0); [lia|].
  unfold processNext. simpl. rewrite Hp, Htim. simpl.
  rewrite filter_cons, decide_False, filter_nil by (intros X; by apply X).
  by destruct (running q).
Qed.

Lemma settle_alone (item : Item) (r : Outcome T) (q : State) :
  running q = [item] -> queue q = [] ->
  step cfg q (ExecuteSettles (itemId item) r)
  = {| queue := []; processing := false; nextId := nextId q;
       timers := timers q; running := []; accepted := accepted q;
       started := started q;
       settled := settled q ++ [(itemId item, settlement r)] |}.
Proof.
  intros Hr Hq. simpl. unfold find_running. rewrite Hr. simpl.
  rewrite Nat.eqb_refl. unfold processNext_resume, processNext. simpl.
  rewrite Hq, Hr. simpl.
  by rewrite filter_cons, decide_False, filter_nil by (intros X; by apply X).
Qed.

End Facts.

Lemma enqueue_starts_or_waits_witness :
  let q := run (T:=string) config two_waiting init in
  map execute (queue q) = ["b"; "c"]
  /\ map execute (queue (fst (enqueue config "d" q))) = ["b"; "c"; "d"]
  /\ timers (fst (enqueue config "d" q)) = [1; 2; 3].
Proof.
  destruct (enqueue_starts_or_waits (T:=string) config two_waiting "d")
    as (_ & _ & _ & Hq & _ & Ht); [vm_compute; lia|].
  split; [reflexivity|]. split.
  - etrans; [exact (f_equal (map execute) Hq)|reflexivity].
  - etrans; [exact Ht|reflexivity].
Defined.

Lemma worker_is_never_idle_while_items_wait_witness :
  let q := run (T:=string) config two_waiting init in
  isProcessing q = true /\ map execute (running q) = ["a"].
Proof.
  destruct (worker_is_never_idle_while_items_wait (T:=string) config
              two_waiting) as [[_ Hbusy] _].
  split; [|reflexivity]. apply Hbusy. by eexists.
Defined.

Lemma every_promise_is_accounted_for_witness :
  let q := step (T:=string) config (run config two_waiting init)
             (TimerFires 2) in
  2 ∈ map fst (settled q) \/ 2 ∈ map itemId (running q)
  \/ 2 ∈ map itemId (queue q).
Proof.
  destruct (every_promise_is_accounted_for (T:=string) config
              (two_waiting ++ [TimerFires 2])) as (_ & _ & _ & Hwhere).
  apply (Hwhere 2). vm_compute. lia.
Defined.

Lemma clear_rejects_what_waits_witness :
  let q := run (T:=string) config two_waiting init in
  settled (clear q)
  = [(1, Rejected queueClearedError); (2, Rejected queueClearedError)]
  /\ 1 ∉ map itemId
           (started (run config [ExecuteSettles 0 (Fulfilled "ra")] (clear q))).
Proof.
  destruct (clear_rejects_what_waits (T:=string) config two_waiting)
    as (_ & _ & _ & _ & Hsettled & _ & Hnever).
  split; [etrans; [exact Hsettled|reflexivity]|].
  apply (Hnever (newItem 1 "b") [ExecuteSettles 0 (Fulfilled "ra")]).
  vm_compute. left.
Defined.

End QueueMore.

(** * More about the session manager *)

Module SessionsMore.
Import JS Sessions Examples SessionsFacts.

Lemma map_get_split (k : string) (s : Session) (m : SessionMap) :
  map_get k m = Some s -> exists b a, m = b ++ (k, s) :: a /\ k ∉ map fst b.
Proof.
  induction m as [|[k' v] m IH]; simpl; [done|].
  destruct (String.eqb_spec k' k) as [->|Hne].
  - intros [= ->]. exists [], m. split; [done|apply not_elem_of_nil].
  - intros H. destruct (IH H) as (b & a & -> & Hb). exists ((k', v) :: b), a.
    split; [done|]. simpl. apply not_elem_of_cons. split; [congruence|done].
Qed.

(** X6. [closeSession] answers whether the session was registered; it takes
    away that entry and no other, closes that page and no other, and a
    second call for the same identifier finds nothing and changes
    nothing. *)
Theorem closeSession_removes_one (sid : string) (m : SessionManager) :
  wf m ->
  let m' := fst (closeSession sid m) in
  snd (closeSession sid m) = hasSession sid m
  /\ hasSession sid m' = false
  /\ (forall k, k <> sid -> getSession k m' = getSession k m)
  /\ closeSession sid m' = (m', false)
  /\ length (sessions m)
     = length (sessions m') + (if hasSession sid m then 1 else 0)
  /\ closed m'
     = closed m ++ match getSession sid m with
                   | Some s => [page s]
                   | None => []
                   end.
Proof.
  intros [Hnd Hid] m'. subst m'.
  unfold closeSession, hasSession, getSession, map_has.
  destruct (map_get sid (sessions m)) as [s|] eqn:Hg; simpl.
  - assert (Hgone : map_get sid (map_delete sid (sessions m)) = None).
    { by rewrite map_get_delete, String.eqb_refl. }
    rewrite Hgone. repeat split; try done.
    + intros k Hk. rewrite map_get_delete.
      by destruct (String.eqb_spec sid k); [congruence|].
    + destruct (map_get_split _ _ _ Hg) as (b & a & Hm & Hb).
      rewrite Hm in *. rewrite map_delete_middle by done.
      rewrite !length_app. simpl. lia.
  - rewrite Hg, app_nil_r. repeat split; try done; lia.
Qed.

Lemma wf_full_registry : wf full_registry.
Proof.
  split; [refine (bool_decide_unpack _ _); by vm_compute|].
  repeat constructor.
Qed.

Lemma closeSession_removes_one_witness :
  let m' := fst (closeSession "s3" full_registry) in
  snd (closeSession "s3" full_registry) = true
  /\ closed m' = [3] /\ length (sessions m') = 9.
Proof.
  destruct (closeSession_removes_one "s3" full_registry wf_full_registry)
    as (Hb & _ & _ & _ & _ & Hc).
  intros m'. split; [etrans; [exact Hb|reflexivity]|].
  split; [etrans; [exact Hc|reflexivity]|reflexivity].
Defined.

(** *** The sweep *)

Lemma Forall_filter_true {A} (f : A -> bool) (l : list A) :
  Forall (fun x => f x = true) (List.filter f l).
Proof.
  induction l as [|x l IH]; simpl; [constructor|].
  destruct (f x) eqn:Hx; [by constructor|done].
Qed.

Lemma filter_none {A} (f : A -> bool) (l : list A) :
  Forall (fun x => f x = false) l -> List.filter f l = [].
Proof.
  induction 1 as [|x l Hx Hl IH]; simpl; [done|]. by rewrite Hx.
Qed.

Lemma filter_filter_implied {A} (f g : A -> bool) (l : list A) :
  (forall x, g x = true -> f x = true) ->
  List.filter g (List.filter f l) = List.filter g l.
Proof.
  intros Himp. induction l as [|x l IH]; simpl; [done|].
  destruct (f x) eqn:Hf; simpl.
  - by rewrite IH.
  - destruct (g x) eqn:Hg; [|done]. by rewrite (Himp x Hg) in Hf.
Qed.

Lemma isExpired_spec (now : Z) (s : Session) :
  isExpired now s = true
  <-> (now - lastActivityAt s > SESSION_CONFIG.timeoutMs)%Z.
Proof. unfold isExpired. rewrite Z.gtb_gt. lia. Qed.

Lemma isExpired_later (now now' : Z) (s : Session) :
  (now' <= now)%Z -> isExpired now' s = true -> isExpired now s = true.
Proof. rewrite !isExpired_spec. lia. Qed.

(** X7. After a sweep no session is idle for longer than the threshold, so
    that a sweep that reads the same or an earlier time finds nothing to
    close; and sweeping at an earlier time first makes no difference to
    the sessions that a sweep leaves. *)
Theorem sweep_leaves_nothing_expired (now now' : Z) (m : SessionManager) :
  wf m -> (now' <= now)%Z ->
  let m1 := cleanupExpiredSessions now m in
  Forall (fun e => (now - lastActivityAt (snd e)
                    <= SESSION_CONFIG.timeoutMs)%Z) (sessions m1)
  /\ expiredIds now' m1 = []
  /\ cleanupExpiredSessions now' m1 = m1
  /\ sessions (cleanupExpiredSessions now (cleanupExpiredSessions now' m))
     = sessions m1.
Proof.
  intros Hwf Hle m1.
  assert (Hm1 : sessions m1
                = List.filter (fun e => negb (isExpired now (snd e)))
                    (sessions m)).
  { unfold m1. by rewrite cleanupExpiredSessions_spec. }
  assert (Hfresh : Forall (fun e => isExpired now' (snd e) = false)
                     (sessions m1)).
  { rewrite Hm1.
    eapply Forall_impl;
      [apply (Forall_filter_true (fun e => negb (isExpired now (snd e))))|].
    intros e He. simpl in He. apply negb_true_iff in He.
    destruct (isExpired now' (snd e)) eqn:Hx; [|done].
    by rewrite (isExpired_later now now' _ Hle Hx) in He. }
  assert (Hnone : expiredIds now' m1 = []).
  { unfold expiredIds.
    by rewrite (filter_none (fun e => isExpired now' (snd e))). }
  repeat split.
  - rewrite Hm1.
    eapply Forall_impl;
      [apply (Forall_filter_true (fun e => negb (isExpired now (snd e))))|].
    intros e He. simpl in He. apply negb_true_iff in He.
    destruct (Z.le_gt_cases (now - lastActivityAt (snd e))
                SESSION_CONFIG.timeoutMs) as [|Hgt]; [done|].
    assert (Hx : isExpired now (snd e) = true) by (apply isExpired_spec; lia).
    by rewrite Hx in He.
  - done.
  - unfold cleanupExpiredSessions. by rewrite Hnone.
  - rewrite Hm1.
    rewrite (cleanupExpiredSessions_spec now) by by apply wf_cleanup.
    simpl. rewrite (cleanupExpiredSessions_spec now') by done. simpl.
    apply (filter_filter_implied
             (fun e => negb (isExpired now' (snd e)))
             (fun e => negb (isExpired now (snd e)))).
    intros e He. apply negb_true_iff in He. apply negb_true_iff.
    destruct (isExpired now' (snd e)) eqn:Hx; [|done].
    by rewrite (isExpired_later now now' _ Hle Hx) in He.
Qed.

Lemma sweep_leaves_nothing_expired_witness :
  let m1 := cleanupExpiredSessions 1800050 full_registry in
  map fst (sessions m1) = ["s0"; "s2"; "s4"; "s5"; "s6"; "s8"; "s9"]
  /\ cleanupExpiredSessions 1800040 m1 = m1.
Proof.
  destruct (sweep_leaves_nothing_expired 1800050 1800040 full_registry
              wf_full_registry) as (_ & _ & Hsame & _); [lia|].
  split; [reflexivity|exact Hsame].
Defined.

(** *** [createSession] *)

(** X8. A session that [createSession] hands out is new: no message yet,
    both timestamps at the time read after the page was opened, the
    identifier drawn by [uuidv4]; and it is registered under that
    identifier, beside what [makeRoom] left. *)
Theorem createSession_registers (env : CreateEnv) (m : SessionManager)
    (s : Session) :
  snd (createSession env m) = Fulfilled s ->
  let m' := fst (createSession env m) in
  id s = uuidv4 env /\ messageCount s = 0
  /\ createdAt s = createNow env /\ lastActivityAt s = createNow env
  /\ newPage env = Fulfilled (page s)
  /\ getSession (id s) m' = Some s
  /\ (forall k, k <> id s -> getSession k m' = getSession k (makeRoom env m))
  /\ closed m' = closed (makeRoom env m).
Proof.
  unfold createSession, getSession.
  destruct (getContext env) as [[[]|]|x]; simpl; try done.
  destruct (newPage env) as [p|x]; simpl; try done.
  destruct (goto env) as [[]|x]; simpl; try done.
  intros [= <-]. simpl. repeat split.
  - by rewrite map_get_set, String.eqb_refl.
  - intros k Hk. rewrite map_get_set.
    by destruct (String.eqb_spec (uuidv4 env) k); [congruence|].
Qed.

Lemma createSession_registers_witness :
  let r := createSession (create_env 100 "new" 10) full_registry in
  getSession "new" (fst r)
  = Some {| id := "new"; page := 10; createdAt := 100;
            lastActivityAt := 100; messageCount := 0 |}.
Proof.
  destruct (createSession_registers (create_env 100 "new" 10) full_registry
              {| id := "new"; page := 10; createdAt := 100;
                 lastActivityAt := 100; messageCount := 0 |} eq_refl)
    as (_ & _ & _ & _ & _ & Hget & _).
  exact Hget.
Defined.

Lemma length_map_set (k : string) (v : Session) (m : SessionMap) :
  length (map_set k v m) <= S (length m).
Proof.
  rewrite <- (length_map fst (map_set k v m)), map_set_keys.
  case_bool_decide; rewrite ?length_app, !length_map; simpl; lia.
Qed.

Lemma makeRoom_makes_room (env : CreateEnv) (m : SessionManager) :
  wf m -> length (sessions m) <= SESSION_CONFIG.maxSessions ->
  length (sessions (makeRoom env m)) < SESSION_CONFIG.maxSessions.
Proof.
  intros Hwf Hle. unfold makeRoom.
  destruct (Nat.leb_spec SESSION_CONFIG.maxSessions (length (sessions m)));
    [|done].
  pose proof (wf_cleanup (sweepNow env) m Hwf) as Hwf'.
  assert (Hswept : length (sessions (cleanupExpiredSessions (sweepNow env) m))
                   <= length (sessions m)).
  { rewrite cleanupExpiredSessions_spec by done. simpl.
    apply List.filter_length_le. }
  set (swept := cleanupExpiredSessions (sweepNow env) m) in *.
  destruct (Nat.leb_spec SESSION_CONFIG.maxSessions (length (sessions swept)));
    [|done].
  assert (Hne : sessions swept <> []).
  { intros Hnil. rewrite Hnil in *. unfold SESSION_CONFIG.maxSessions in *.
    simpl in *. lia. }
  destruct (getOldestSession_spec swept Hne) as (r & Hr & b & a & Hl & _ & _).
  apply map_eq_app in Hl as (before & rest & Hsw & Hbefore & Hrest).
  apply map_eq_cons in Hrest as (victim & after & -> & Hvictim & Hafter).
  rewrite Hr. destruct Hwf' as [Hnd Hid]. rewrite Hsw in Hnd, Hid.
  apply Forall_app in Hid as [_ Hid]. apply Forall_cons in Hid as [Hk _].
  destruct victim as [k v]. simpl in *. subst k r.
  assert (Hlen : length (sessions swept) = S (length (before ++ after))).
  { rewrite Hsw, !length_app. simpl. lia. }
  destruct swept as [l pages]. simpl in *. subst l.
  rewrite closeSession_middle by done. simpl. lia.
Qed.

(** X9. A call of [createSession] that finds the registry within
    [maxSessions] leaves it within [maxSessions], whether it succeeds
    or fails; and when it fails while there was room, the manager is as
    it was before the call. *)
Theorem createSession_keeps_capacity (env : CreateEnv) (m : SessionManager) :
  wf m -> length (sessions m) <= SESSION_CONFIG.maxSessions ->
  length (sessions (fst (createSession env m))) <= SESSION_CONFIG.maxSessions
  /\ (forall x, snd (createSession env m) = RejectedWith x ->
        length (sessions m) < SESSION_CONFIG.maxSessions ->
        fst (createSession env m) = m).
Proof.
  intros Hwf Hle. pose proof (makeRoom_makes_room env m Hwf Hle) as Hroom.
  split.
  - unfold createSession.
    destruct (getContext env) as [[[]|]|x]; simpl; try lia.
    destruct (newPage env) as [p|x]; simpl; try lia.
    destruct (goto env) as [[]|x]; simpl; try lia.
    etrans; [apply length_map_set|]. lia.
  - intros x Hx Hlt.
    assert (Hsame : makeRoom env m = m).
    { unfold makeRoom.
      by destruct (Nat.leb_spec SESSION_CONFIG.maxSessions
                     (length (sessions m))); [lia|]. }
    revert Hx. unfold createSession. rewrite Hsame.
    destruct (getContext env) as [[[]|]|y]; simpl; try done.
    destruct (newPage env) as [p|y]; simpl; try done.
    by destruct (goto env) as [[]|y].
Qed.

Lemma createSession_keeps_capacity_witness :
  length (sessions (fst (createSession (create_env 100 "new" 10)
                           full_registry))) <= 10.
Proof.
  destruct (createSession_keeps_capacity (create_env 100 "new" 10)
              full_registry wf_full_registry) as [Hcap _];
    [vm_compute; lia|].
  exact Hcap.
Defined.

(** *** [getOrCreateSession] *)

Lemma created_is_new (env : CreateEnv) (m : SessionManager) (s : Session) :
  snd (createSession env m) = Fulfilled s ->
  getSession (id s) (fst (createSession env m)) = Some s
  /\ messageCount s = 0 /\ id s = uuidv4 env.
Proof.
  unfold createSession, getSession.
  destruct (getContext env) as [[[]|]|x]; simpl; try done.
  destruct (newPage env) as [p|x]; simpl; try done.
  destruct (goto env) as [[]|x]; simpl; try done.
  intros [= <-]. simpl. by rewrite map_get_set, String.eqb_refl.
Qed.


(** X10. The session that [getOrCreateSession] hands out is registered under
    its identifier. For a registered identifier it is that session with
    its activity time set to the time of the call and nothing else
    changed; in every other case (no identifier, an empty one, one that
    is not registered) it is a new session, whose identifier is the one
    that [uuidv4] drew: the identifier that the caller asked for plays
    no part, and the new session bears it only when [uuidv4] drew that
    very identifier. *)
Theorem getOrCreateSession_hands_out (sid : option string) (now : Z)
    (env : CreateEnv) (m : SessionManager) (s : Session) :
  wf m ->
  snd (getOrCreateSession sid now env m) = Fulfilled s ->
  let m' := fst (getOrCreateSession sid now env m) in
  getSession (id s) m' = Some s
  /\ (forall name old,
        sid = Some name -> truthy name = true ->
        getSession name m = Some old ->
        s = bump now old /\ id s = name /\ lastActivityAt s = now
        /\ messageCount s = messageCount old /\ page s = page old
        /\ closed m' = closed m
        /\ map fst (sessions m') = map fst (sessions m))
  /\ ((forall name, sid = Some name -> truthy name = true ->
         getSession name m = None) ->
      id s = uuidv4 env /\ messageCount s = 0
      /\ m' = fst (createSession env m)
      /\ forall name, sid = Some name ->
           (id s = name <-> uuidv4 env = name)).
Proof.
  intros Hwf Hs m'.
  assert (Hcreate : getOrCreateSession sid now env m = createSession env m ->
            getSession (id s) m' = Some s
            /\ (id s = uuidv4 env /\ messageCount s = 0
                /\ m' = fst (createSession env m)
                /\ forall name, sid = Some name ->
                     (id s = name <-> uuidv4 env = name))).
  { intros Heq. unfold m'. rewrite Heq in *.
    destruct (created_is_new env m s Hs) as (Hget & Hcount & Hid).
    do 4 (split; [done|]). intros name _. by rewrite Hid. }
  unfold getSession in *.
  destruct sid as [name|]; [|destruct Hcreate as (? & ?); done].
  destruct (truthy name) eqn:Hname.
  2:{ destruct Hcreate as (? & ?).
      { unfold getOrCreateSession. by rewrite Hname. }
      split; [done|]. split; [|done]. intros ? ? [= <-]. congruence. }
  destruct (map_get name (sessions m)) as [old|] eqn:Hold.
  2:{ destruct Hcreate as (? & ?).
      { unfold getOrCreateSession. by rewrite Hname, Hold. }
      split; [done|]. split; [|done]. intros ? ? [= <-]. congruence. }
  clear Hcreate. subst m'. revert Hs. unfold getOrCreateSession.
  rewrite Hname, Hold. simpl. intros [= <-].
  assert (Hid : id old = name).
  { destruct Hwf as [_ Hid]. destruct (map_get_split _ _ _ Hold) as (b & a & Hm & _).
    rewrite Hm in Hid. apply Forall_app in Hid as [_ Hid].
    by apply Forall_cons in Hid as [Hk _]. }
  split; [|split].
  - simpl. rewrite Hid, map_get_mutate, String.eqb_refl. by rewrite Hold.
  - intros name' old' [= <-] _ Hold'. rewrite Hold in Hold'.
    injection Hold' as <-. repeat split; try done. apply map_mutate_keys.
  - intros Hnone. specialize (Hnone name eq_refl Hname). congruence.
Qed.

Lemma getOrCreateSession_hands_out_witness :
  let r := getOrCreateSession (Some "s3") 200 (create_env 200 "new" 10)
             full_registry in
  getSession "s3" (fst r) = Some (snd (session "s3" 3 200 1)).
Proof.
  destruct (getOrCreateSession_hands_out (Some "s3") 200
              (create_env 200 "new" 10) full_registry
              (snd (session "s3" 3 200 1)) wf_full_registry eq_refl)
    as (Hget & _).
  exact Hget.
Defined.

(** *** [closeAllSessions] *)

Lemma map_has_key (k : string) (m : SessionMap) :
  k ∈ map fst m -> map_has k m = true.
Proof.
  intros Hin. unfold map_has.
  destruct (map_get k m) eqn:Hg; [done|]. by apply map_get_None in Hg.
Qed.

Lemma filter_all {A} (f : A -> bool) (l : list A) :
  Forall (fun x => f x = true) l -> List.filter f l = l.
Proof.
  induction 1 as [|x l Hx Hl IH]; simpl; [done|]. by rewrite Hx, IH.
Qed.

Lemma delete_all (ks : list string) : forall acc : SessionMap,
  (forall e, e ∈ acc -> fst e ∈ ks) ->
  fold_left (fun acc id => map_delete id acc) ks acc = [].
Proof.
  induction ks as [|k ks IH]; intros acc Hsub; simpl.
  - destruct acc as [|e acc]; [done|].
    exfalso. eapply not_elem_of_nil, (Hsub e). left.
  - apply IH. intros e He. unfold map_delete in He.
    apply list_elem_of_In, filter_In in He as [He Hne].
    apply list_elem_of_In, Hsub, elem_of_cons in He as [Hk|Hk]; [|done].
    apply negb_true_iff in Hne. by rewrite Hk, String.eqb_refl in Hne.
Qed.

Lemma pages_in_order (l : SessionMap) : forall pre : SessionMap,
  NoDup (map fst (pre ++ l)) ->
  omap (fun id => page <$> map_get id (pre ++ l)) (map fst l)
  = map (fun e => page (snd e)) l.
Proof.
  induction l as [|[k v] l IH]; intros pre Hnd; simpl; [done|].
  assert (Hk : k ∉ map fst pre).
  { rewrite map_app in Hnd. apply NoDup_app in Hnd as (_ & Hdisj & _).
    intros Hin. apply (Hdisj k Hin). left. }
  rewrite (map_get_middle k v pre l Hk). simpl. f_equal.
  specialize (IH (pre ++ [(k, v)])). rewrite <- app_assoc in IH. simpl in IH.
  by apply IH.
Qed.

Lemma close_in_turn (l : SessionMap) : forall (pre : SessionMap) pages,
  NoDup (map fst (l ++ pre)) ->
  fold_left (fun m id => fst (closeSession id m)) (map fst l)
    {| sessions := l ++ pre; closed := pages |}
  = {| sessions := pre;
       closed := pages ++ map (fun e => page (snd e)) l |}.
Proof.
  induction l as [|[k v] l IH]; intros pre pages Hnd; simpl.
  - by rewrite app_nil_r.
  - pose proof (closeSession_middle k v [] (l ++ pre) pages Hnd) as Hc.
    simpl in Hc. rewrite Hc. simpl.
    rewrite IH; [by rewrite <- app_assoc|]. by apply NoDup_cons in Hnd as [_ ?].
Qed.

(** X11. [closeAllSessions] closes the page of every registered session, in
    the order in which the sessions were registered, and leaves the
    registry empty; starting the calls of [closeSession] together, as
    [Promise.all] does, gives what closing the sessions one after the
    other gives. *)
Theorem closeAllSessions_closes_every_page (m : SessionManager) :
  wf m ->
  closeAllSessions m
  = {| sessions := [];
       closed := closed m ++ map (fun e => page (snd e)) (sessions m) |}
  /\ closeAllSessions m
     = fold_left (fun m id => fst (closeSession id m))
         (map fst (sessions m)) m.
Proof.
  intros [Hnd _].
  assert (Hall : closeAllSessions m
            = {| sessions := [];
                 closed := closed m
                           ++ map (fun e => page (snd e)) (sessions m) |}).
  { unfold closeAllSessions. f_equal.
    - rewrite filter_all.
      + apply delete_all. intros e He. apply list_elem_of_fmap. by exists e.
      + apply Forall_forall. intros k Hk. by apply map_has_key.
    - f_equal. by apply (pages_in_order (sessions m) []). }
  split; [done|]. rewrite Hall.
  destruct m as [l pages]. simpl in *.
  pose proof (close_in_turn l [] pages) as Hturn.
  rewrite app_nil_r in Hturn. by rewrite Hturn.
Qed.

Lemma closeAllSessions_closes_every_page_witness :
  closed (closeAllSessions full_registry) = [0; 1; 2; 3; 4; 5; 6; 7; 8; 9]
  /\ sessions (closeAllSessions full_registry) = [].
Proof.
  destruct (closeAllSessions_closes_every_page full_registry wf_full_registry)
    as [Hall _].
  split; [etrans; [exact (f_equal closed Hall)|reflexivity]|].
  etrans; [exact (f_equal sessions Hall)|reflexivity].
Defined.

(** *** [getStats] *)

(** X12. [getStats] lists the sessions in the order of the registry;
    [idleMinutes] is the number of whole minutes since the last
    activity, which is at least 30 for a session that a sweep reading
    the same time would close, and at most 30 for every session that
    such a sweep leaves. *)
Theorem getStats_counts_whole_minutes (now : Z) (m : SessionManager) :
  let stats := getStats now m in
  activeSessions stats = length (info_sessions stats)
  /\ map info_id (info_sessions stats) = map (fun e => id (snd e)) (sessions m)
  /\ Forall (fun i => (60000 * idleMinutes i
                       <= now - info_lastActivityAt i
                       < 60000 * idleMinutes i + 60000)%Z)
       (info_sessions stats)
  /\ (forall s, isExpired now s = true ->
        (30 <= idleMinutes (sessionInfo now s))%Z)
  /\ (wf m ->
      Forall (fun i => (idleMinutes i <= 30)%Z)
        (info_sessions (getStats now (cleanupExpiredSessions now m)))).
Proof.
  intros stats. unfold stats, getStats. simpl.
  assert (Hdiv : forall x : Z,
            (60000 * (x / 60000) <= x < 60000 * (x / 60000) + 60000)%Z).
  { intros x. pose proof (Z.div_mod x 60000 ltac:(lia)).
    pose proof (Z.mod_pos_bound x 60000 ltac:(lia)). lia. }
  split; [by rewrite !length_map|].
  split; [by rewrite !map_map|].
  split; [|split].
  - rewrite !Forall_fmap. apply Forall_forall. intros e _. simpl. apply Hdiv.
  - intros s Hx. apply isExpired_spec in Hx. simpl.
    unfold SESSION_CONFIG.timeoutMs in Hx.
    pose proof (Hdiv (now - lastActivityAt s)%Z). lia.
  - intros Hwf. rewrite cleanupExpiredSessions_spec by done. simpl.
    rewrite !Forall_fmap.
    eapply Forall_impl;
      [apply (Forall_filter_true (fun e => negb (isExpired now (snd e))))|].
    intros e He. simpl in *. apply negb_true_iff in He.
    destruct (Z.le_gt_cases (now - lastActivityAt (snd e))
                SESSION_CONFIG.timeoutMs) as [Hle|Hgt].
    + unfold SESSION_CONFIG.timeoutMs in Hle.
      pose proof (Hdiv (now - lastActivityAt (snd e))%Z). lia.
    + assert (Hx : isExpired now (snd e) = true)
        by (apply isExpired_spec; lia).
      by rewrite Hx in He.
Qed.


Lemma getStats_counts_whole_minutes_witness :
  map idleMinutes (info_sessions (getStats 1800050 full_registry))
  = [30; 30; 29; 30; 29; 29; 29; 30; 29; 29]%Z
  /\ Forall (fun i => (idleMinutes i <= 30)%Z)
       (info_sessions
          (getStats 1800050 (cleanupExpiredSessions 1800050 full_registry))).
Proof.
  destruct (getStats_counts_whole_minutes 1800050 full_registry)
    as (_ & _ & _ & _ & Hswept).
  split; [reflexivity|]. exact (Hswept wf_full_registry).
Defined.
End SessionsMore.

(** * More about the model names *)

Module ModelsMore.
Import JS OpenAI Models StringFacts NamesFacts.

(** X13. The names that pass for a model name are those that, put in lower
    case and trimmed, are a key of [modelMapping], and two more:
    [constructor] and [__proto__], which [modelMapping] inherits; for
    these two [getCopilotModel] yields no member of [CopilotModel]. *)
Theorem names_that_pass (name : string) :
  let normalized := trim (toLowerCase name) in
  (isValidModel name = true
   <-> normalized ∈ map fst modelMapping
       \/ normalized = "constructor" \/ normalized = "__proto__")
  /\ (forall m, mapModelName name = Some (Model m)
                <-> assoc normalized modelMapping = Some m)
  /\ (forall key, mapModelName name = Some (Inherited key)
                  <-> normalized = key
                      /\ (key = "constructor" \/ key = "__proto__")).
Proof.
  intros normalized.
  assert (Hlower : toLowerCase normalized = normalized)
    by apply normalized_is_lower.
  assert (Hproto : normalized ∈ objectPrototype
                   <-> normalized = "constructor" \/ normalized = "__proto__").
  { split.
    - intros Hin. unfold objectPrototype in Hin.
      repeat (apply elem_of_cons in Hin as [Hin|Hin];
              [first [by left | by right
                     | rewrite Hin in Hlower; discriminate Hlower]|]).
      by apply not_elem_of_nil in Hin.
    - intros [->| ->]; apply existsb_eqb; reflexivity. }
  unfold isValidModel, mapModelName, getProperty. fold normalized.
  destruct (assoc normalized modelMapping) as [m|] eqn:Hm.
  - apply assoc_Some in Hm as Hin. split; [by split; [left|]|].
    split.
    + intros m'. split; congruence.
    + intros key. split; [done|]. intros [<- Hkey].
      apply assoc_None in Hin; [done|].
      by destruct Hkey as [->| ->].
  - apply assoc_None in Hm as Hnot.
    destruct (existsb (String.eqb normalized) objectPrototype) eqn:Hex.
    + apply existsb_eqb, Hproto in Hex. split; [by split; [right|]|].
      split; [intros m'; split; done|].
      intros key. split; [by intros [= <-]|]. by intros [<- _].
    + assert (Hno : ~ (normalized = "constructor" \/ normalized = "__proto__")).
      { intros H. apply Hproto, existsb_eqb in H. congruence. }
      split; [split; [done|intros [?|?]; done]|].
      split; [intros m'; split; done|].
      intros key. split; [done|]. intros [<- Hkey]. done.
Qed.

(** X14. A name is looked up without regard to blank space around it and to
    the case of its letters: padding it with blanks, trimming it or
    putting it in lower case beforehand changes nothing. *)
Theorem model_names_are_normalized (name ws1 ws2 : string) :
  trim ws1 = "" -> trim ws2 = "" ->
  mapModelName (ws1 +++ name +++ ws2) = mapModelName name
  /\ mapModelName (trim name) = mapModelName name
  /\ mapModelName (toLowerCase name) = mapModelName name
  /\ isValidModel (ws1 +++ name +++ ws2) = isValidModel name.
Proof.
  intros H1 H2.
  assert (Hlow : forall ws, trim ws = "" -> trim (toLowerCase ws) = "").
  { intros ws Hws. by rewrite <- toLowerCase_trim, Hws. }
  assert (Hpad : mapModelName (ws1 +++ name +++ ws2) = mapModelName name).
  { unfold mapModelName. rewrite !toLowerCase_app.
    by rewrite trim_pad by by apply Hlow. }
  repeat split.
  - done.
  - unfold mapModelName. by rewrite toLowerCase_trim, trim_idem.
  - unfold mapModelName. by rewrite toLowerCase_idem.
  - unfold isValidModel. by rewrite Hpad.
Qed.

Lemma model_names_are_normalized_witness :
  mapModelName ("  " +++ "GPT-4o" +++ " ") = Some (Model Quick).
Proof.
  destruct (model_names_are_normalized "GPT-4o" "  " " " eq_refl eq_refl)
    as (Hpad & _).
  etrans; [exact Hpad|reflexivity].
Defined.

(** X15. The models that [GET /v1/models] lists are all accepted by
    [isValidModel], carry distinct names, and name each member of
    [CopilotModel] exactly once. *)
Theorem listed_models_are_served (now : Z) :
  let ids := map model_id (getAvailableModels now) in
  ids = availableModelNames
  /\ Forall (fun id => isValidModel id = true) ids
  /\ NoDup ids
  /\ forall m : CopilotModel,
       exists id, id ∈ ids
         /\ getCopilotModel (Some id) = Model m
         /\ forall id', id' ∈ ids ->
              getCopilotModel (Some id') = Model m -> id' = id.
Proof.
  intros ids.
  assert (Hids : ids = availableModelNames).
  { done. }
  rewrite Hids. split; [done|]. split; [repeat constructor|].
  split; [refine (bool_decide_unpack _ _); by vm_compute|].
  assert (Hcases : forall (P : string -> Prop),
            P "copilot-auto" -> P "copilot-quick" -> P "copilot-think" ->
            P "gpt-5.2-quick" -> P "gpt-5.2-think" ->
            forall id, id ∈ availableModelNames -> P id).
  { intros P H1 H2 H3 H4 H5 id Hin. unfold availableModelNames in Hin.
    repeat (apply elem_of_cons in Hin as [->|Hin]; [done|]).
    by apply not_elem_of_nil in Hin. }
  intros m.
  exists (match m with
          | Auto => "copilot-auto" | Quick => "copilot-quick"
          | Think => "copilot-think" | GPT52Quick => "gpt-5.2-quick"
          | GPT52Think => "gpt-5.2-think"
          end).
  split; [|split].
  - destruct m; apply existsb_eqb; reflexivity.
  - by destruct m.
  - intros id' Hin. revert id' Hin.
    destruct m;
      refine (Hcases (fun id' => getCopilotModel (Some id') = Model _
                                   -> id' = _) _ _ _ _ _); done.
Qed.


Lemma names_that_pass_witness :
  isValidModel " Constructor" = true
  /\ mapModelName " Constructor" = Some (Inherited "constructor").
Proof.
  destruct (names_that_pass " Constructor") as (Hvalid & _ & Hkey).
  split.
  - apply Hvalid. right. by left.
  - apply Hkey. split; [reflexivity|by left].
Defined.

Lemma listed_models_are_served_witness :
  exists id, id ∈ availableModelNames
             /\ getCopilotModel (Some id) = Model GPT52Think.
Proof.
  destruct (listed_models_are_served 0) as (Hids & _ & _ & Heach).
  destruct (Heach GPT52Think) as (id & Hin & Hm & _).
  exists id. split; [|done]. by rewrite <- Hids.
Defined.
End ModelsMore.

(** * More about the page interaction *)

Module CopilotMore.
Import JS Cfg Copilot Examples StringFacts CopilotFacts.

#[local] Existing Instances M_ret M_bind.

Section Facts.
Context {World : Type}.
Variable page : Page World.
Variable cfg : Config.

Abbreviation M := (Copilot.M World).

Ltac settle :=
  repeat first
    [ apply settles_ret | apply settles_throw | apply settles_log
    | apply settles_delay | apply settles_await
    | apply settles_bind; [|intros ?]
    | apply settles_tryCatch; [|intros ?]
    | match goal with
      | |- settles _ (match ?x with _ => _ end) => destruct x
      | |- settles _ (if ?x then _ else _) => destruct x
      end ].

(** *** [startNewChatOnPage] *)

(** X16. [startNewChatOnPage] returns whatever the page does: what fails
    inside its [try] block is caught, and its [catch] clause makes no
    call into the page. *)
Theorem startNewChatOnPage_never_throws (s : St World) :
  exists s', startNewChatOnPage World page s = (Returned tt, s').
Proof.
  assert (Hreturns : returns World (startNewChatOnPage World page)).
  { unfold startNewChatOnPage.
    apply returns_bind; [apply returns_log|intros _].
    apply returns_tryCatch; [settle|]. intros error. apply returns_log. }
  destruct (Hreturns s) as ([] & s' & Hs). by exists s'.
Qed.

(** *** [extractLastResponseFromPage] *)

Lemma trySelector_gives (selector : Selector) (s : St World) :
  exists r s',
    trySelector World page selector s = (Returned r, s')
    /\ snd s' = snd s
    /\ forall text, r = Some text -> truthy text = true /\ trim text = text.
Proof.
  unfold trySelector, tryCatch, mbind, M_bind, bind, await, mret, M_ret, ret.
  destruct (queryAll World page selector (fst s)) as [[elements|x] w];
    simpl; [|by eexists _, _].
  destruct (last elements) as [lastElement|]; simpl; [|by eexists _, _].
  destruct (textContent World page lastElement w) as [[[t|]|x] w'];
    simpl; [|by eexists _, _|by eexists _, _].
  destruct (truthy t && truthy (trim t)) eqn:Ht; simpl; [|by eexists _, _].
  eexists _, _. split; [done|]. split; [done|].
  intros text [= <-]. apply andb_true_iff in Ht as [_ Ht].
  split; [done|apply trim_idem].
Qed.

Lemma trySelectors_gives (selectors : list Selector) : forall s : St World,
  exists r s',
    trySelectors World page selectors s = (Returned r, s')
    /\ snd s' = snd s
    /\ forall text, r = Some text -> truthy text = true /\ trim text = text.
Proof.
  induction selectors as [|selector rest IH]; intros s; simpl.
  - by eexists _, _.
  - unfold mbind, M_bind, bind.
    destruct (trySelector_gives selector s) as (r & s1 & -> & Hc & Hr).
    destruct r as [text|].
    + eexists _, _. split; [done|]. split; [done|].
      intros ? [= <-]. by apply Hr.
    + destruct (IH s1) as (r & s2 & -> & Hc2 & Hr2).
      eexists _, _. split; [done|]. split; [congruence|done].
Qed.

Lemma tryAnyMessage_gives (s : St World) :
  exists r s',
    tryAnyMessage World page s = (Returned r, s')
    /\ snd s' = snd s
    /\ forall text, r = Some text -> trim text = text.
Proof.
  unfold tryAnyMessage, tryCatch, mbind, M_bind, bind, await, mret, M_ret, ret.
  destruct (queryAll World page anyMessage (fst s)) as [[elements|x] w];
    simpl; [|by eexists _, _].
  destruct (last elements) as [lastElement|]; simpl; [|by eexists _, _].
  destruct (textContent World page lastElement w) as [[[t|]|x] w'];
    simpl; [|by eexists _, _|by eexists _, _].
  destruct (truthy t); simpl; [|by eexists _, _].
  eexists _, _. split; [done|]. split; [done|].
  intros text [= <-]. apply trim_idem.
Qed.

(** X17. Whatever the page does, [extractLastResponseFromPage] ends in one
    of two ways: it returns a text that has no blank at either end, or
    it throws its own error. An error of the page never gets out, and
    nothing is written to the console. *)
Theorem extraction_fails_in_one_way_only (s : St World) :
  exists r s',
    extractLastResponseFromPage World page s = (r, s')
    /\ snd s' = snd s
    /\ ((exists text, r = Returned text /\ trim text = text)
        \/ r = Threw (ThrownError extractionError)).
Proof.
  unfold extractLastResponseFromPage.
  unfold mbind at 1, M_bind at 1, bind at 1.
  destruct (trySelectors_gives
              [lastAssistantMessage; assistantMessage; responseContainer] s)
    as (r & s1 & -> & Hc1 & Hr1).
  destruct r as [text|].
  - eexists _, _. split; [done|]. split; [done|]. left. exists text.
    split; [done|]. by apply Hr1.
  - unfold mbind, M_bind, bind.
    destruct (tryAnyMessage_gives s1) as (r & s2 & -> & Hc2 & Hr2).
    destruct r as [text|]; eexists _, _; (split; [done|]);
      (split; [congruence|]).
    + left. exists text. split; [done|]. by apply Hr2.
    + by right.
Qed.

End Facts.

(** *** The exchange ends *)

Section Clock.
Context {World : Type}.
Variable page : Page World.
Variable cfg : Config.

Abbreviation M := (Copilot.M World).

(** A delay takes at least its shortest time, and the clock does not go
    back while the page is asked for an element or waited for. *)
Hypothesis delay_takes_time : forall minMs maxMs w,
  (dateNow World page w + minMs
   <= dateNow World page (randomDelay World page minMs maxMs w))%Z.
Hypothesis query_keeps_time : forall selector w,
  (dateNow World page w
   <= dateNow World page (snd (query World page selector w)))%Z.
Hypothesis wait_keeps_time : forall selector timeout w,
  (dateNow World page w
   <= dateNow World page
        (snd (waitForSelector World page selector timeout w)))%Z.

Ltac settle :=
  repeat first
    [ apply settles_ret | apply settles_throw | apply settles_log
    | apply settles_delay | apply settles_await
    | apply settles_bind; [|intros ?]
    | apply settles_tryCatch; [|intros ?]
    | match goal with
      | |- settles _ (match ?x with _ => _ end) => destruct x
      | |- settles _ (if ?x then _ else _) => destruct x
      end ].












End Clock.


(** *** [formatMessagesAsPrompt] *)

Lemma prefix_empty (t : string) : String.prefix "" t = true.
Proof. by destruct t. Qed.

Lemma prefix_app (n t : string) : String.prefix n (n +++ t) = true.
Proof.
  induction n as [|c n IH]; [apply prefix_empty|].
  rewrite append_cons. simpl. by destruct (ascii_dec c c).
Qed.

Lemma prefix_split (n : string) : forall x,
  String.prefix n x = true -> exists b, x = n +++ b.
Proof.
  induction n as [|c n IH]; intros x Hx; [by exists x|].
  destruct x as [|c' x]; [done|]. simpl in Hx.
  destruct (ascii_dec c c') as [<-|]; [|done].
  destruct (IH x Hx) as (b & ->). by exists b.
Qed.

Lemma includes_unfold (n s : string) :
  includes n s
  = String.prefix n s
    || match s with
       | EmptyString => false
       | String _ rest => includes n rest
       end.
Proof. by destruct s. Qed.

Lemma includes_split (n : string) : forall x,
  includes n x = true -> exists a b, x = a +++ n +++ b.
Proof.
  induction x as [|c x IH]; rewrite includes_unfold; intros Hx.
  - rewrite orb_false_r in Hx. destruct (prefix_split n _ Hx) as (b & ->).
    by exists "", b.
  - apply orb_true_iff in Hx as [Hx|Hx].
    + destruct (prefix_split n _ Hx) as (b & ->). by exists "", b.
    + destruct (IH Hx) as (a & b & ->). by exists (String c a), b.
Qed.

Lemma includes_middle (a n b : string) : includes n (a +++ n +++ b) = true.
Proof.
  induction a as [|c a IH]; rewrite includes_unfold.
  - change ("" +++ n +++ b) with (n +++ b). by rewrite prefix_app.
  - rewrite append_cons, IH. apply orb_true_r.
Qed.

Lemma includes_inside (n x a b : string) :
  includes n x = true -> includes n (a +++ x +++ b) = true.
Proof.
  intros Hx. destruct (includes_split n x Hx) as (a' & b' & ->).
  rewrite <- (append_assoc a), !append_assoc, <- (append_assoc a a').
  apply includes_middle.
Qed.

Lemma join_holds (sep x : string) (l : list string) :
  x ∈ l -> exists a b, join sep l = a +++ x +++ b.
Proof.
  induction l as [|y l IH]; intros Hin; [by apply not_elem_of_nil in Hin|].
  apply elem_of_cons in Hin as [<-|Hin].
  - destruct l as [|z l]; simpl.
    + exists "", "". by rewrite append_empty_r.
    + by exists "", (sep +++ join sep (z :: l)).
  - destruct (IH Hin) as (a & b & Hj). destruct l as [|z l].
    + by apply not_elem_of_nil in Hin.
    + exists (y +++ sep +++ a), b.
      change (join sep (y :: z :: l)) with (y +++ sep +++ join sep (z :: l)).
      by rewrite Hj, !append_assoc.
Qed.

Lemma includes_formatMessage (msg : OpenAI.ChatMessage) :
  includes (OpenAI.content msg) (formatMessage msg) = true.
Proof.
  unfold formatMessage.
  destruct (String.eqb (OpenAI.role msg) "system").
  - rewrite <- (append_empty_r (OpenAI.content msg)) at 2.
    rewrite <- append_assoc. apply includes_middle.
  - destruct (String.eqb (OpenAI.role msg) "assistant").
    + rewrite <- (append_empty_r (OpenAI.content msg)) at 2.
      rewrite <- append_assoc. apply includes_middle.
    + rewrite <- (append_empty_r (OpenAI.content msg)) at 2.
      apply (includes_middle "").
Qed.

(** X19. The prompt made of the messages of a request holds the content of
    every message. A single message is sent as it is, whatever its
    role; of several messages each is there in the form that its role
    gives it. *)
Theorem prompt_holds_every_message (messages : list OpenAI.ChatMessage)
    (msg : OpenAI.ChatMessage) :
  msg ∈ messages ->
  includes (OpenAI.content msg) (formatMessagesAsPrompt messages) = true
  /\ (length messages = 1 ->
      formatMessagesAsPrompt messages = OpenAI.content msg)
  /\ (length messages <> 1 ->
      includes (formatMessage msg) (formatMessagesAsPrompt messages) = true).
Proof.
  intros Hin.
  assert (Hseveral :
            includes (formatMessage msg)
              (join (newline +++ newline) (map formatMessage messages)) = true).
  { destruct (join_holds (newline +++ newline) (formatMessage msg)
                (map formatMessage messages)) as (a & b & ->).
    - apply list_elem_of_fmap. by exists msg.
    - apply includes_middle. }
  assert (Hcontent :
            includes (OpenAI.content msg)
              (join (newline +++ newline) (map formatMessage messages)) = true).
  { destruct (includes_split _ _ Hseveral) as (a & b & ->).
    apply includes_inside, includes_formatMessage. }
  destruct messages as [|only [|second rest]].
  - by apply not_elem_of_nil in Hin.
  - apply list_elem_of_singleton in Hin as ->. simpl.
    split; [|by split].
    rewrite <- (append_empty_r (OpenAI.content only)) at 2.
    apply (includes_middle "").
  - split; [exact Hcontent|]. split; [done|]. intros _. exact Hseveral.
Qed.

Lemma prompt_holds_every_message_witness :
  includes "hi"
    (formatMessagesAsPrompt [system_says "be brief"; user_says "hi"]) = true
  /\ formatMessagesAsPrompt [system_says "be brief"; user_says "hi"]
     = "[System Instructions]" +++ newline +++ "be brief"
       +++ newline +++ newline +++ "hi".
Proof.
  destruct (prompt_holds_every_message
              [system_says "be brief"; user_says "hi"] (user_says "hi"))
    as (Hin & _).
  - apply elem_of_cons. right. left.
  - split; [exact Hin|reflexivity].
Defined.

End CopilotMore.

(** * More about the handlers *)

Module HandlersMore.
Import JS Cfg OpenAI Sessions Handlers Examples SessionsFacts HandlersFacts.

Lemma find_rev_split {A} (f : A -> bool) (l : list A) (x : A) :
  List.find f (rev l) = Some x ->
  exists before after,
    l = before ++ x :: after /\ f x = true
    /\ Forall (fun y => f y = false) after.
Proof.
  induction l as [|y l IH] using rev_ind; [done|].
  rewrite rev_unit. simpl. destruct (f y) eqn:Hy.
  - intros [= <-]. exists l, []. by repeat split.
  - intros Hx. destruct (IH Hx) as (before & after & -> & Hfx & Hafter).
    exists before, (after ++ [y]). rewrite <- app_assoc. repeat split; [done|].
    apply Forall_app. split; [done|]. by apply Forall_singleton.
Qed.

Lemma lastUserMessage_Some (msgs : list ChatMessage) (m : ChatMessage) :
  lastUserMessage msgs = Some m ->
  exists before after,
    msgs = before ++ m :: after /\ role m = "user"
    /\ Forall (fun x => role x <> "user") after.
Proof.
  intros H. apply find_rev_split in H as (before & after & -> & Hm & Hafter).
  exists before, after. split; [done|]. split; [by apply String.eqb_eq|].
  eapply Forall_impl; [exact Hafter|]. intros x Hx. simpl in Hx.
  by apply String.eqb_neq.
Qed.

Section Facts.
Variable cfg : Config.

(** X20. An answer that [handleChatCompletion] gives before it suspends is an
    error: 400 with one of four codes, or 500. The checks of the body
    come first and in the order messages, stream, model; a 400 other
    than [no_user_message] leaves the server exactly as it was. *)
Theorem early_answers_are_errors (env : RequestEnv)
    (body : ChatCompletionRequest) (srv : Server) :
  let out := handleChatCompletion cfg env body srv in
  (forall r, snd out = inl r ->
     exists code e,
       r = Status code e
       /\ ((code = 400 /\ error_type e = "invalid_request_error"
            /\ error_code e ∈ ["invalid_messages"; "streaming_not_supported";
                               "model_not_found"; "no_user_message"])
           \/ (code = 500 /\ error_type e = "server_error"
               /\ error_code e = "internal_error")))
  /\ (forall e, snd out = inl (Status 400 e) ->
        error_code e <> "no_user_message" -> fst out = srv)
  /\ (messages body = None \/ messages body = Some [] ->
      out = (srv, inl (Status 400 invalidMessages)))
  /\ (forall m rest, messages body = Some (m :: rest) -> stream body = true ->
      out = (srv, inl (Status 400 streamingNotSupported))).
Proof.
  intros out. unfold out, handleChatCompletion.
  assert (Hin : forall code : string,
            existsb (String.eqb code)
              ["invalid_messages"; "streaming_not_supported";
               "model_not_found"; "no_user_message"] = true ->
            code ∈ ["invalid_messages"; "streaming_not_supported";
                    "model_not_found"; "no_user_message"]).
  { intros code H. apply existsb_exists in H as (x & Hx & Heq).
    apply String.eqb_eq in Heq. subst. by apply list_elem_of_In. }
  assert (Hcases : forall (srv' : Server) (code : nat) (e : ErrorResponse),
            (code = 400 /\ error_type e = "invalid_request_error"
             /\ existsb (String.eqb (error_code e))
                  ["invalid_messages"; "streaming_not_supported";
                   "model_not_found"; "no_user_message"] = true
             /\ (error_code e <> "no_user_message" -> srv' = srv))
            \/ (code = 500 /\ error_type e = "server_error"
                /\ error_code e = "internal_error") ->
            (forall r, @inl Response Suspended (Status code e) = inl r ->
               exists code e,
                 r = Status code e
                 /\ ((code = 400 /\ error_type e = "invalid_request_error"
                      /\ error_code e
                           ∈ ["invalid_messages"; "streaming_not_supported";
                              "model_not_found"; "no_user_message"])
                     \/ (code = 500 /\ error_type e = "server_error"
                         /\ error_code e = "internal_error")))
            /\ (forall e', @inl Response Suspended (Status code e)
                           = inl (Status 400 e') ->
                  error_code e' <> "no_user_message" -> srv' = srv)).
  { intros srv' code e Hce. split.
    - intros r [= <-]. exists code, e. split; [done|].
      destruct Hce as [(? & ? & ? & _)|?]; [left|by right].
      repeat split; try done. by apply Hin.
    - intros e' [= -> <-] Hne. destruct Hce as [(_ & _ & _ & H)|(? & _)];
        [by apply H|done]. }
  destruct (messages body) as [[|m0 rest]|] eqn:Hmsgs; simpl.
  { destruct (Hcases srv 400 invalidMessages) as [H1 H2]; [by left|].
    split; [exact H1|]. split; [exact H2|]. by split. }
  2:{ destruct (Hcases srv 400 invalidMessages) as [H1 H2]; [by left|].
    split; [exact H1|]. split; [exact H2|]. by split. }
  destruct (stream body) eqn:Hstream.
  { destruct (Hcases srv 400 streamingNotSupported) as [H1 H2]; [by left|].
    split; [exact H1|]. split; [exact H2|]. split; [by intros [|]|done]. }
  destruct (truthyModel (model body)
            && negb (Models.isValidModel (default "" (model body)))).
  { destruct (Hcases srv 400
                (Models.createModelNotFoundError (default "" (model body))))
      as [H1 H2]; [by left|].
    split; [exact H1|]. split; [exact H2|]. split; [by intros [|]|done]. }
  destruct (getOrCreateSession _ _ _ _) as [sm [session|x]].
  2:{ match goal with
      | |- context [Status 500 ?e] =>
          destruct (Hcases {| sessionManager := sm;
                              requestQueue := requestQueue srv;
                              suspended := suspended srv;
                              responses := responses srv |} 500 e)
            as [H1 H2]; [by right|]
      end.
    split; [exact H1|]. split; [exact H2|]. split; [by intros [|]|done]. }
  destruct (if messageCount session =? 0 then _ else _).
  2:{ destruct (Hcases {| sessionManager := sm;
                          requestQueue := requestQueue srv;
                          suspended := suspended srv;
                          responses := responses srv |} 400 noUserMessage)
        as [H1 H2].
      { left. repeat split; try done. }
      split; [exact H1|]. split; [exact H2|]. split; [by intros [|]|done]. }
  destruct (Queue.enqueue _ _ _) as [q [e|promise]].
  - match goal with
    | |- context [Status 500 ?e] =>
        destruct (Hcases {| sessionManager := sm; requestQueue := q;
                            suspended := suspended srv;
                            responses := responses srv |} 500 e)
          as [H1 H2]; [by right|]
    end.
    split; [exact H1|]. split; [exact H2|]. split; [by intros [|]|done].
  - split; [done|]. split; [done|]. split; [by intros [|]|done].
Qed.

(** X21. When [handleChatCompletion] suspends, it has put one exchange in the
    queue, against the page of the session it was given. For a session
    that has had no exchange yet the exchange carries the prompt made of
    all the messages and starts a new chat; for any other session it
    carries the content of the last message with role [user], and
    nothing else of the body. *)
Theorem exchange_carries_the_right_message (env : RequestEnv)
    (body : ChatCompletionRequest) (srv srv' : Server) (k : Suspended) :
  handleChatCompletion cfg env body srv = (srv', inr k) ->
  exists msgs op,
    messages body = Some msgs
    /\ snd (getOrCreateSession (session_id body) (arrivalNow env)
              (create env) (sessionManager srv)) = Fulfilled (sus_session k)
    /\ Queue.enqueue cfg op (requestQueue srv)
       = (requestQueue srv', Queue.Pending (awaited k))
    /\ ex_page op = page (sus_session k)
    /\ ex_model op = Models.getCopilotModel (model body)
    /\ ex_isFirstMessage op = (messageCount (sus_session k) =? 0)
    /\ (messageCount (sus_session k) = 0 ->
        ex_message op = Copilot.formatMessagesAsPrompt msgs)
    /\ (0 < messageCount (sus_session k) ->
        exists before m after,
          msgs = before ++ m :: after /\ role m = "user"
          /\ Forall (fun x => role x <> "user") after
          /\ ex_message op = content m).
Proof.
  unfold handleChatCompletion.
  destruct (messages body) as [[|m0 rest]|] eqn:Hmsgs; [done| |done].
  destruct (stream body); [done|].
  destruct (truthyModel (model body)
            && negb (Models.isValidModel (default "" (model body))));
    [done|].
  destruct (getOrCreateSession _ _ _ _) as [sm [session|x]]; [|done].
  destruct (messageCount session =? 0) eqn:Hcount.
  - destruct (Queue.enqueue _ _ _) as [q [e|promise]] eqn:Hq; [done|].
    intros [= <- <-]. eexists _, _. split; [done|]. split; [done|].
    split; [exact Hq|]. simpl. rewrite Hcount. repeat split; try done.
    apply Nat.eqb_eq in Hcount. lia.
  - destruct (lastUserMessage (m0 :: rest)) as [m|] eqn:Hlast; simpl; [|done].
    destruct (Queue.enqueue _ _ _) as [q [e|promise]] eqn:Hq; [done|].
    intros [= <- <-]. eexists _, _. split; [done|]. split; [done|].
    split; [exact Hq|]. simpl. rewrite Hcount.
    apply Nat.eqb_neq in Hcount.
    split; [done|]. split; [done|]. split; [done|]. split; [lia|].
    intros _. destruct (lastUserMessage_Some _ _ Hlast)
      as (before & after & Hsplit & Hrole & Hafter).
    by exists before, m, after.
Qed.

(** X22. A first request that finds the queue full is answered 500 with the
    error of the queue, but not before [createSession] has done its
    work: the session that was created for the request stays
    registered, with its page open. *)
Theorem full_queue_after_the_session (env : RequestEnv)
    (body : ChatCompletionRequest) (srv : Server)
    (msgs : list ChatMessage) (s : Session) :
  messages body = Some msgs -> msgs <> [] -> stream body = false ->
  truthyModel (model body)
    && negb (Models.isValidModel (default "" (model body))) = false ->
  session_id body = None ->
  snd (createSession (create env) (sessionManager srv)) = Fulfilled s ->
  maxQueueSize cfg <= length (Queue.queue (requestQueue srv)) ->
  let srv' := fst (handleChatCompletion cfg env body srv) in
  snd (handleChatCompletion cfg env body srv)
  = inl (Status 500
           (internalError (ThrownError (Queue.queueFullError cfg))))
  /\ error_message (internalError (ThrownError (Queue.queueFullError cfg)))
     = "Queue is full (max " +++ ofNat (maxQueueSize cfg) +++ " requests)"
  /\ sessionManager srv' = fst (createSession (create env) (sessionManager srv))
  /\ getSession (id s) (sessionManager srv') = Some s
  /\ requestQueue srv' = requestQueue srv
  /\ suspended srv' = suspended srv.
Proof.
  intros Hmsgs Hne Hstream Hmodel Hsid Hs Hfull srv'.
  destruct (SessionsMore.created_is_new _ _ _ Hs) as (Hget & Hcount & _).
  subst srv'. unfold handleChatCompletion. rewrite Hmsgs.
  destruct msgs as [|m0 rest]; [done|]. rewrite Hstream, Hmodel, Hsid.
  simpl getOrCreateSession.
  destruct (createSession (create env) (sessionManager srv))
    as [sm [session|x]]; simpl in Hs, Hget; [|done].
  injection Hs as ->. rewrite Hcount. simpl.
  unfold Queue.enqueue.
  destruct (Nat.leb_spec (maxQueueSize cfg)
              (length (Queue.queue (requestQueue srv)))); [|lia].
  done.
Qed.

(** X23. [handleDeleteSession] answers with success exactly when the session
    was registered, and a second request for the same identifier is
    answered 404. Neither touches the queue or the handlers that are
    suspended: an exchange against the page goes on. *)
Theorem deleting_twice_finds_nothing (sessionId : string) (srv : Server) :
  let srv1 := fst (handleDeleteSession sessionId srv) in
  snd (handleDeleteSession sessionId srv)
  = (if hasSession sessionId (sessionManager srv)
     then Success ("Session " +++ sessionId +++ " closed")
     else Status 404 (sessionNotFound sessionId))
  /\ hasSession sessionId (sessionManager srv1) = false
  /\ handleDeleteSession sessionId srv1
     = (srv1, Status 404 (sessionNotFound sessionId))
  /\ error_code (sessionNotFound sessionId) = "session_not_found"
  /\ requestQueue srv1 = requestQueue srv
  /\ suspended srv1 = suspended srv
  /\ responses srv1 = responses srv.
Proof.
  intros srv1. subst srv1.
  unfold handleDeleteSession, closeSession, hasSession, map_has.
  destruct (map_get sessionId (sessions (sessionManager srv))) as [s|] eqn:Hg;
    simpl.
  - rewrite map_get_delete, String.eqb_refl. done.
  - rewrite Hg. done.
Qed.

End Facts.

Lemma full_queue_after_the_session_witness :
  let srv := server_run small_queue two_requests start in
  let out := handleChatCompletion small_queue (request_env 2 "s3" 9) hello srv in
  snd out
  = inl (Status 500
           {| error_message := "Queue is full (max 1 requests)";
              error_type := "server_error"; error_code := "internal_error" |})
  /\ map fst (sessions (sessionManager (fst out))) = ["s1"; "s2"; "s3"].
Proof.
  intros srv out.
  destruct (full_queue_after_the_session small_queue (request_env 2 "s3" 9)
              hello srv [user_says "hi"]
              {| id := "s3"; page := 9; createdAt := 2; lastActivityAt := 2;
                 messageCount := 0 |})
    as (Hout & _);
    [done|done|done|done|done|by vm_compute|vm_compute; lia|].
  split; [etrans; [exact Hout|reflexivity]|reflexivity].
Defined.

(** *** Requests and responses *)

Lemma Permutation_filter {A} (f : A -> bool) (l l' : list A) :
  l ≡ₚ l' -> List.filter f l ≡ₚ List.filter f l'.
Proof.
  induction 1 as [|x l l' _ IH|x y l|l l' l'' _ IH1 _ IH2]; simpl.
  - done.
  - destruct (f x); [by constructor|done].
  - destruct (f x), (f y); try done. apply perm_swap.
  - by etrans.
Qed.

Lemma filter_out_fresh (x : nat) (l : list nat) :
  x ∉ l -> List.filter (fun i => negb (i =? x)) l = l.
Proof.
  induction l as [|y l IH]; intros Hx; simpl; [done|].
  apply not_elem_of_cons in Hx as [Hne Hx].
  destruct (Nat.eqb_spec y x); [congruence|]. simpl. by rewrite IH.
Qed.

Lemma filter_out_middle (x : nat) (l1 l2 : list nat) :
  x ∉ l1 ++ l2 ->
  List.filter (fun i => negb (i =? x)) (l1 ++ x :: l2) = l1 ++ l2.
Proof.
  intros Hx. apply not_elem_of_app in Hx as [H1 H2].
  rewrite List.filter_app. simpl. rewrite Nat.eqb_refl. simpl.
  by rewrite !filter_out_fresh.
Qed.

Lemma awaited_forget (promise : nat) (srv : Server) :
  map awaited (suspended (forget promise srv))
  = List.filter (fun i => negb (i =? promise)) (map awaited (suspended srv)).
Proof.
  simpl. induction (suspended srv) as [|k l IH]; simpl; [done|].
  destruct (awaited k =? promise); simpl; by rewrite IH.
Qed.

Lemma find_suspended_Some (promise : nat) (srv : Server) :
  promise ∈ map awaited (suspended srv) ->
  exists k, find_suspended promise srv = Some k.
Proof.
  unfold find_suspended. induction (suspended srv) as [|k l IH]; simpl.
  - intros H. by apply not_elem_of_nil in H.
  - intros H. destruct (Nat.eqb_spec (awaited k) promise); [by exists k|].
    apply elem_of_cons in H as [H|H]; [congruence|by apply IH].
Qed.

Section Accounting.
Variable cfg : Config.

(** What holds of the queue of the server and of the handlers that wait
    for it, between two callbacks. *)
Local Abbreviation Sound srv :=
  (Queue.Inv (requestQueue srv)
   /\ length (Queue.queue (requestQueue srv)) <= maxQueueSize cfg
   /\ Coherent srv).

Lemma handleChatCompletion_effect (env : RequestEnv)
    (body : ChatCompletionRequest) (srv : Server) :
  let out := handleChatCompletion cfg env body srv in
  suspended (fst out) = suspended srv /\ responses (fst out) = responses srv
  /\ match snd out with
     | inl _ => requestQueue (fst out) = requestQueue srv
     | inr k =>
         exists op,
           Queue.enqueue cfg op (requestQueue srv)
           = (requestQueue (fst out), Queue.Pending (awaited k))
     end.
Proof.
  unfold handleChatCompletion.
  destruct (messages body) as [[|m0 rest]|]; [done| |done].
  destruct (stream body); [done|].
  destruct (truthyModel (model body)
            && negb (Models.isValidModel (default "" (model body))));
    [done|].
  destruct (getOrCreateSession _ _ _ _) as [sm [session|x]]; [|done].
  destruct (if messageCount session =? 0 then _ else _); [|done].
  destruct (Queue.enqueue _ _ _) as [q [e|promise]] eqn:Hq; simpl.
  - by rewrite (QueueMore.enqueue_Threw _ _ _ _ _ Hq).
  - split; [done|]. split; [done|]. by eexists.
Qed.

Lemma settled_effect (promise : nat) (srv srv' : Server)
    (l1 l2 : list nat) :
  Coherent srv ->
  Queue.pendingIds (requestQueue srv) = l1 ++ promise :: l2 ->
  promise ∉ l1 ++ l2 ->
  suspended srv' = suspended (forget promise srv) ->
  Queue.pendingIds (requestQueue srv') = l1 ++ l2 ->
  Coherent srv' /\ S (length (suspended srv')) = length (suspended srv).
Proof.
  unfold Coherent. intros Hco Hpend Hfresh Hsus Hpend'.
  rewrite Hpend in Hco.
  assert (Hids : map awaited (suspended srv') ≡ₚ l1 ++ l2).
  { rewrite Hsus, awaited_forget, <- (filter_out_middle promise l1 l2 Hfresh).
    by apply Permutation_filter. }
  split; [by rewrite Hpend'|].
  apply Permutation_length in Hco, Hids.
  rewrite !length_map, ?length_app in *. simpl in *. lia.
Qed.

Lemma server_step_accounts (srv : Server) (ev : ServerEvent) :
  Sound srv ->
  Sound (server_step cfg srv ev)
  /\ length (responses (server_step cfg srv ev))
     + length (suspended (server_step cfg srv ev))
     = length (responses srv) + length (suspended srv)
       + (if is_request ev then 1 else 0).
Proof.
  intros (Hinv & Hbound & Hco).
  assert (Hsame : Sound srv) by done.
  destruct ev as [env body|promise r env|promise|now|sessionId];
    unfold server_step; simpl (is_request _).
  - destruct (handleChatCompletion_effect env body srv) as (Hsus & Hres & Hq).
    destruct (handleChatCompletion cfg env body srv) as [srv0 [r|k]];
      simpl in *.
    + rewrite Hq, Hsus, Hres, length_app. simpl.
      split; [|lia]. split; [done|]. split; [done|].
      unfold Coherent in *. simpl. by rewrite Hsus, Hq.
    + destruct Hq as (op & Hq).
      destruct (QueueMore.pending_enqueue _ _ _ _ _ Hq) as (Hid & Hpend & Hstep).
      rewrite Hsus, Hres, length_app. simpl. split; [|lia].
      split; [rewrite Hstep; by apply QueueFacts.Inv_step|].
      split; [rewrite Hstep; by apply QueueMore.bounded_step|].
      unfold Coherent in *. simpl. rewrite map_app, Hsus, Hpend. simpl.
      by rewrite Hco, Hid.
  - destruct (Queue.find_running promise (requestQueue srv)) as [item|] eqn:Hf.
    2:{ split; [done|lia]. }
    destruct (QueueMore.pending_settle cfg promise r _ item (proj1 Hinv) Hf)
      as (Hpend & Hpend' & Hfresh).
    set (srv1 := withQueue _ srv).
    assert (Hk : exists k, find_suspended promise srv1 = Some k).
    { apply find_suspended_Some. simpl. unfold Coherent in Hco.
      rewrite Hco, Hpend. left. }
    destruct Hk as (k & Hk).
    assert (Hafter : requestQueue (deliver promise (Queue.settlement r) env srv1)
                       = requestQueue srv1
                     /\ suspended (deliver promise (Queue.settlement r) env srv1)
                        = suspended (forget promise srv)
                     /\ responses (deliver promise (Queue.settlement r) env srv1)
                        = responses srv ++ [snd (
                            match Queue.settlement r with
                            | Queue.Resolved text =>
                                handleChatCompletion_then env k text
                                  (forget promise srv1)
                            | Queue.Rejected e =>
                                handleChatCompletion_catch k e
                                  (forget promise srv1)
                            end)]).
    { unfold deliver. rewrite Hk. by destruct (Queue.settlement r). }
    destruct Hafter as (Hq' & Hsus' & Hres').
    destruct (settled_effect promise srv
                (deliver promise (Queue.settlement r) env srv1) [] _
                Hco Hpend Hfresh Hsus') as [Hco' Hlen].
    { by rewrite Hq'. }
    rewrite Hres', length_app. simpl. split; [|lia].
    rewrite Hq'. split; [by apply QueueFacts.Inv_step|].
    split; [by apply QueueMore.bounded_step|done].
  - case_bool_decide as Harmed; [|split; [done|lia]].
    destruct (QueueMore.pending_timer cfg promise _ (proj1 Hinv) Harmed)
      as (l1 & l2 & Hpend & Hpend' & Hfresh).
    set (srv1 := withQueue _ srv).
    assert (Hk : exists k, find_suspended promise srv1 = Some k).
    { apply find_suspended_Some. simpl. unfold Coherent in Hco.
      rewrite Hco, Hpend. apply elem_of_app. right. left. }
    destruct Hk as (k & Hk).
    assert (Hafter :
              requestQueue (deliver_rejection promise Queue.queueTimeoutError srv1)
                = requestQueue srv1
              /\ suspended (deliver_rejection promise Queue.queueTimeoutError srv1)
                 = suspended (forget promise srv)
              /\ length (responses
                           (deliver_rejection promise Queue.queueTimeoutError
                              srv1))
                 = S (length (responses srv))).
    { unfold deliver_rejection. rewrite Hk. simpl.
      rewrite length_app. simpl. repeat split. lia. }
    destruct Hafter as (Hq' & Hsus' & Hres').
    destruct (settled_effect promise srv
                (deliver_rejection promise Queue.queueTimeoutError srv1) l1 l2
                Hco Hpend Hfresh Hsus') as [Hco' Hlen].
    { by rewrite Hq'. }
    rewrite Hres'. split; [|lia].
    rewrite Hq'. split; [by apply QueueFacts.Inv_step|].
    split; [by apply QueueMore.bounded_step|done].
  - simpl. split; [done|lia].
  - unfold handleDeleteSession.
    destruct (closeSession sessionId (sessionManager srv)) as [sm [|]];
      simpl; rewrite length_app; simpl; (split; [done|lia]).
Qed.

Lemma server_run_accounts (evs : list ServerEvent) : forall srv : Server,
  Sound srv ->
  Sound (server_run cfg evs srv)
  /\ length (responses (server_run cfg evs srv))
     + length (suspended (server_run cfg evs srv))
     = length (responses srv) + length (suspended srv)
       + length (List.filter is_request evs).
Proof.
  induction evs as [|ev evs IH]; intros srv Hsrv; simpl.
  - split; [done|lia].
  - destruct (server_step_accounts srv ev Hsrv) as [Hstep Hcount].
    destruct (IH _ Hstep) as [Hrun Hcount'].
    split; [done|]. unfold server_run in *. rewrite Hcount', Hcount.
    destruct (is_request ev); simpl; lia.
Qed.

Lemma Sound_start : Sound start.
Proof.
  split; [apply QueueFacts.Inv_init|]. split; [simpl; lia|]. by unfold Coherent.
Qed.

(** *** The handlers, await by await *)

(** [handleChatCompletion] is its two parts, with the call of
    [getOrCreateSession] between them. *)
Lemma handleChatCompletion_in_two (env : RequestEnv)
    (body : ChatCompletionRequest) (srv : Server) :
  handleChatCompletion cfg env body srv
  = match handleChatCompletion_checks body with
    | inl r => (srv, inl r)
    | inr c =>
        let '(sm, r) :=
          getOrCreateSession (session_id body) (arrivalNow env) (create env)
            (sessionManager srv) in
        handleChatCompletion_resume cfg c r (withSessions sm srv)
    end.
Proof.
  unfold handleChatCompletion, handleChatCompletion_checks.
  destruct (messages body) as [[|m0 rest]|]; [done| |done].
  destruct (stream body); [done|].
  destruct (truthyModel (model body)
            && negb (Models.isValidModel (default "" (model body))));
    [done|].
  destruct (getOrCreateSession _ _ _ _) as [sm [session|x]]; [|done].
  unfold handleChatCompletion_resume. simpl.
  destruct (if messageCount session =? 0 then _ else _); [|done].
  by destruct (Queue.enqueue _ _ _) as [q [e|promise]].
Qed.

Lemma handleDeleteSession_in_two (sessionId : string) (srv : Server) :
  handleDeleteSession sessionId srv
  = let '(sm, closed) := closeSession sessionId (sessionManager srv) in
    (withSessions sm srv, handleDeleteSession_resume sessionId closed).
Proof.
  unfold handleDeleteSession.
  by destruct (closeSession sessionId (sessionManager srv)) as [sm [|]].
Qed.

Lemma handleChatCompletion_resume_effect (c : Creating)
    (r : Outcome Session) (srv : Server) :
  let out := handleChatCompletion_resume cfg c r srv in
  suspended (fst out) = suspended srv /\ responses (fst out) = responses srv
  /\ sessionManager (fst out) = sessionManager srv
  /\ match snd out with
     | inl _ => requestQueue (fst out) = requestQueue srv
     | inr k =>
         exists op,
           Queue.enqueue cfg op (requestQueue srv)
           = (requestQueue (fst out), Queue.Pending (awaited k))
     end.
Proof.
  unfold handleChatCompletion_resume.
  destruct r as [session|x]; [|done].
  destruct (if messageCount session =? 0 then _ else _); [|done].
  destruct (Queue.enqueue _ _ _) as [q [e|promise]] eqn:Hq; simpl.
  - by rewrite (QueueMore.enqueue_Threw _ _ _ _ _ Hq).
  - do 3 (split; [done|]). by eexists.
Qed.

(** The handlers whose promises [clear] rejects run on, one response
    each. *)
Lemma rejected_effect (e : Error) (ids : list nat) : forall (srv : Server)
    (rest : list nat),
  map awaited (suspended srv) ≡ₚ rest ++ ids ->
  NoDup (rest ++ ids) ->
  let srv' := fold_left (fun s id => deliver_rejection id e s) ids srv in
  map awaited (suspended srv') ≡ₚ rest
  /\ requestQueue srv' = requestQueue srv
  /\ sessionManager srv' = sessionManager srv
  /\ length (responses srv') + length (suspended srv')
     = length (responses srv) + length (suspended srv).
Proof.
  induction ids as [|p ids IH]; intros srv rest Hco Hnd; simpl.
  - rewrite app_nil_r in Hco. done.
  - assert (Hfresh : p ∉ rest ++ ids).
    { apply NoDup_app in Hnd as (H1 & H2 & H3).
      apply NoDup_cons in H3 as [H3 H4]. apply not_elem_of_app.
      split; [|done]. intros Hin. apply (H2 p Hin). left. }
    assert (Hnd' : NoDup (rest ++ ids)).
    { apply NoDup_app in Hnd as (H1 & H2 & H3).
      apply NoDup_cons in H3 as [H3 H4]. apply NoDup_app.
      split; [done|]. split; [|done].
      intros x Hx Hin. apply (H2 x Hx). by right. }
    destruct (find_suspended_Some p srv) as (k & Hk).
    { rewrite Hco. apply elem_of_app. right. left. }
    set (srv1 := deliver_rejection p e srv).
    assert (H1 : requestQueue srv1 = requestQueue srv
                 /\ sessionManager srv1 = sessionManager srv
                 /\ suspended srv1 = suspended (forget p srv)
                 /\ length (responses srv1) = S (length (responses srv))).
    { unfold srv1, deliver_rejection. rewrite Hk. simpl.
      rewrite length_app. simpl. repeat split. lia. }
    destruct H1 as (Hq1 & Hsm1 & Hsus1 & Hres1).
    assert (Hco1 : map awaited (suspended srv1) ≡ₚ rest ++ ids).
    { rewrite Hsus1, awaited_forget,
        <- (filter_out_middle p rest ids Hfresh).
      by apply Permutation_filter. }
    destruct (IH srv1 rest Hco1 Hnd') as (Hco' & Hq' & Hsm' & Hlen').
    split; [done|]. split; [by rewrite Hq'|]. split; [by rewrite Hsm'|].
    rewrite Hlen', Hres1.
    apply Permutation_length in Hco, Hco1.
    rewrite !length_map, ?length_app in *. simpl in *. lia.
Qed.

Lemma shutdown_accounts (srv : Server) :
  Sound srv ->
  Sound (shutdown srv)
  /\ length (responses (shutdown srv))
     + length (suspended (shutdown srv))
     = length (responses srv) + length (suspended srv).
Proof.
  intros (Hinv & Hbound & Hco).
  pose proof (QueueMore.pending_NoDup _ (proj1 Hinv)) as Hnd.
  unfold Coherent, Queue.pendingIds in Hco. unfold Queue.pendingIds in Hnd.
  assert (Hfold : forall (items : list (@Queue.QueueItem Exchange)) s0,
            fold_left
              (fun s it =>
                 deliver_rejection (Queue.itemId it) Queue.queueClearedError s)
              items s0
            = fold_left
                (fun s id => deliver_rejection id Queue.queueClearedError s)
                (map Queue.itemId items) s0).
  { induction items as [|it items IH]; intros s0; simpl; [done|apply IH]. }
  unfold shutdown. rewrite Hfold.
  destruct (rejected_effect Queue.queueClearedError
              (map Queue.itemId (Queue.queue (requestQueue srv)))
              (withQueue (Queue.clear (requestQueue srv)) srv)
              (map Queue.itemId (Queue.running (requestQueue srv)))
              Hco Hnd) as (Hco' & Hq' & _ & Hlen').
  split; [|exact Hlen'].
  rewrite Hq'. simpl.
  split; [apply (QueueFacts.Inv_step cfg _ Queue.ClearCall Hinv)|].
  split; [simpl; lia|].
  unfold Coherent, Queue.pendingIds. rewrite Hq'. simpl.
  by rewrite app_nil_r.
Qed.

Lemma live_step_accounts (l : Live) (ev : LiveEvent) :
  Sound (server l) ->
  Sound (server (live_step cfg l ev))
  /\ length (responses (server (live_step cfg l ev)))
     + length (suspended (server (live_step cfg l ev)))
     + length (creating (live_step cfg l ev))
     + length (closing (live_step cfg l ev))
     = length (responses (server l)) + length (suspended (server l))
       + length (creating l) + length (closing l)
       + (if arrives ev then 1 else 0).
Proof.
  intros Hsound. pose proof Hsound as (Hinv & Hbound & Hco).
  destruct ev as [body|i r|sessionId|i closed|promise r env|promise|sm|];
    simpl.
  - destruct (handleChatCompletion_checks body) as [r|c]; simpl.
    + rewrite length_app. simpl. split; [done|lia].
    + rewrite length_app. simpl. split; [done|lia].
  - destruct (creating l !! i) as [c|] eqn:Hc; [|split; [done|lia]].
    simpl. rewrite length_delete by by eexists.
    pose proof (lookup_lt_Some _ _ _ Hc) as Hlt.
    destruct (handleChatCompletion_resume_effect c r (server l))
      as (Hsus & Hres & _ & Hq).
    destruct (handleChatCompletion_resume cfg c r (server l))
      as [srv0 [r0|k]]; simpl in *.
    + rewrite Hq, Hsus, Hres, length_app. simpl.
      split; [|lia]. split; [done|]. split; [done|].
      unfold Coherent in *. simpl. by rewrite Hsus, Hq.
    + destruct Hq as (op & Hq).
      destruct (QueueMore.pending_enqueue _ _ _ _ _ Hq) as (Hid & Hpend & Hstep).
      rewrite Hsus, Hres, length_app. simpl. split; [|lia].
      split; [rewrite Hstep; by apply QueueFacts.Inv_step|].
      split; [rewrite Hstep; by apply QueueMore.bounded_step|].
      unfold Coherent in *. simpl. rewrite map_app, Hsus, Hpend. simpl.
      by rewrite Hco, Hid.
  - rewrite length_app. simpl. split; [done|lia].
  - destruct (closing l !! i) as [sessionId|] eqn:Hc; [|split; [done|lia]].
    simpl. rewrite length_delete by by eexists.
    pose proof (lookup_lt_Some _ _ _ Hc) as Hlt.
    rewrite length_app. simpl. split; [done|lia].
  - destruct (server_step_accounts (server l) (ExchangeSettles promise r env)
                Hsound) as [Hstep Hcount].
    split; [exact Hstep|]. simpl in Hcount. lia.
  - destruct (server_step_accounts (server l) (QueueTimerFires promise)
                Hsound) as [Hstep Hcount].
    split; [exact Hstep|]. simpl in Hcount. lia.
  - split; [done|lia].
  - destruct (shutdown_accounts (server l) Hsound) as [Hstep Hcount].
    split; [exact Hstep|]. lia.
Qed.

Lemma live_run_accounts (evs : list LiveEvent) : forall l : Live,
  Sound (server l) ->
  Sound (server (live_run cfg evs l))
  /\ length (responses (server (live_run cfg evs l)))
     + length (suspended (server (live_run cfg evs l)))
     + length (creating (live_run cfg evs l))
     + length (closing (live_run cfg evs l))
     = length (responses (server l)) + length (suspended (server l))
       + length (creating l) + length (closing l)
       + length (List.filter arrives evs).
Proof.
  induction evs as [|ev evs IH]; intros l Hl; simpl.
  - split; [done|lia].
  - destruct (live_step_accounts l ev Hl) as [Hstep Hcount].
    destruct (IH _ Hstep) as [Hrun Hcount'].
    split; [done|]. unfold live_run in *. rewrite Hcount', Hcount.
    destruct (arrives ev); simpl; lia.
Qed.

(** A request that is followed alone, from its arrival through the
    session manager to its next await, is one step of [server_step]. *)
Lemma followed_alone (env : RequestEnv) (body : ChatCompletionRequest)
    (l : Live) :
  let goc :=
    getOrCreateSession (session_id body) (arrivalNow env) (create env)
      (sessionManager (server l)) in
  live_run cfg
    (match handleChatCompletion_checks body with
     | inl _ => [RequestArrives body]
     | inr _ =>
         [ RequestArrives body; RegistryChanges (fst goc);
           SessionSettles (length (creating l)) (snd goc) ]
     end) l
  = onServer (fun srv => server_step cfg srv (ChatCompletion env body)) l.
Proof.
  intros goc. unfold onServer. simpl server_step.
  rewrite handleChatCompletion_in_two. fold goc.
  destruct (handleChatCompletion_checks body) as [r|c] eqn:Hc; simpl.
  - by rewrite Hc.
  - rewrite Hc. simpl. rewrite list_lookup_middle by done.
    rewrite delete_middle, app_nil_r. by destruct goc as [sm r].
Qed.

Lemma deletion_followed_alone (sessionId : string) (l : Live) :
  let cs := closeSession sessionId (sessionManager (server l)) in
  live_run cfg
    [ DeleteArrives sessionId; RegistryChanges (fst cs);
      CloseSettles (length (closing l)) (snd cs) ] l
  = onServer (fun srv => server_step cfg srv (DeleteSession sessionId)) l.
Proof.
  intros cs. unfold onServer. simpl server_step.
  rewrite handleDeleteSession_in_two. fold cs. simpl.
  rewrite list_lookup_middle by done.
  rewrite delete_middle, app_nil_r. by destruct cs as [sm closed].
Qed.


(** X25. What [GET /health] reports of the queue agrees with the handlers
    that are suspended at the queue: [pending] and, when [processing] is
    set, one more count the handlers that await a promise of [enqueue];
    [pending] stays within [maxQueueSize] and is zero while [processing]
    is not set. The handlers that are still suspended in the session
    manager are not in these numbers. *)
Theorem health_counts_queued_requests (evs : list LiveEvent) (now : Z) :
  let l := live_run cfg evs live_start in
  let health := handleHealthCheck now (server l) in
  length (suspended (server l))
  = queue_pending health + (if queue_processing health then 1 else 0)
  /\ queue_pending health <= maxQueueSize cfg
  /\ (queue_processing health = false -> queue_pending health = 0)
  /\ sessions_active health = length (sessions (sessionManager (server l)))
  /\ sessions_max health = 10
  /\ forall body c,
       handleChatCompletion_checks body = inr c ->
       handleHealthCheck now (server (live_step cfg l (RequestArrives body)))
       = health
       /\ creating (live_step cfg l (RequestArrives body))
          = creating l ++ [c].
Proof.
  intros l health.
  destruct (live_run_accounts evs live_start Sound_start)
    as [(Hinv & Hbound & Hco) _]. fold l in Hinv, Hbound, Hco.
  unfold health, handleHealthCheck, Queue.getPendingCount, Queue.isProcessing.
  simpl. split; [|split; [done|split; [|split; [done|split; [done|]]]]].
  - unfold Coherent in Hco. rewrite <- (length_map awaited), Hco.
    unfold Queue.pendingIds.
    rewrite length_app, !length_map, (Queue.inv_running _ (proj1 Hinv)).
    destruct (Queue.processing (requestQueue (server l))); lia.
  - intros Hp. by rewrite (proj2 Hinv Hp).
  - intros body c Hc. by rewrite Hc.
Qed.

(** X30. A name that, put in lower case and trimmed, reads [constructor]
    or [__proto__] is none of the names that [modelMapping] lists, and
    yet it passes the check of the model: the request is not answered
    model_not_found, the handler goes on to [getOrCreateSession] and
    from there as for any other request, and the model that it hands to
    the page is the property that [modelMapping] inherits under that
    name, whose text is that of a function or of an object and the name
    of no member of [CopilotModel]. *)
Theorem inherited_names_reach_the_page (env : RequestEnv)
    (body : ChatCompletionRequest) (srv : Server)
    (msgs : list ChatMessage) (name : string) :
  messages body = Some msgs -> msgs <> [] -> stream body = false ->
  model body = Some name ->
  trim (toLowerCase name) = "constructor"
  \/ trim (toLowerCase name) = "__proto__" ->
  let c := {| cr_messages := msgs; cr_requestedModel := Some name;
              cr_copilotModel := Models.Inherited (trim (toLowerCase name)) |} in
  Models.recognized name = false
  /\ handleChatCompletion_checks body = inr c
  /\ handleChatCompletion cfg env body srv
     = (let '(sm, r) :=
          getOrCreateSession (session_id body) (arrivalNow env) (create env)
            (sessionManager srv) in
        handleChatCompletion_resume cfg c r (withSessions sm srv))
  /\ (forall code e,
        snd (handleChatCompletion cfg env body srv) = inl (Status code e) ->
        error_code e <> "model_not_found")
  /\ Models.toText (cr_copilotModel c)
     = (if String.eqb (trim (toLowerCase name)) "__proto__"
        then "[object Object]"
        else "function Object() { [native code] }")
  /\ forall m, Models.toText (cr_copilotModel c) <> Models.uiName m.
Proof.
  intros Hmsgs Hne Hstream Hmodel Hname c.
  assert (Htruthy : truthy name = true).
  { destruct name; [|done]. by destruct Hname. }
  assert (Hfacts : Models.recognized name = false
                   /\ Models.isValidModel name = true
                   /\ Models.getCopilotModel (Some name)
                      = Models.Inherited (trim (toLowerCase name))).
  { unfold Models.recognized, Models.isValidModel, Models.getCopilotModel,
      Models.mapModelName.
    rewrite Htruthy. by destruct Hname as [-> | ->]. }
  destruct Hfacts as (Hrec & Hvalid & Hcopilot).
  assert (Hchecks : handleChatCompletion_checks body = inr c).
  { unfold handleChatCompletion_checks. rewrite Hmsgs.
    destruct msgs as [|m0 rest]; [done|].
    rewrite Hstream, Hmodel. simpl. rewrite Htruthy, Hvalid. simpl.
    unfold Models.getCopilotModel in Hcopilot. rewrite Htruthy in Hcopilot.
    unfold c. by rewrite Hcopilot. }
  assert (Htwo := handleChatCompletion_in_two env body srv).
  rewrite Hchecks in Htwo.
  split; [done|]. split; [done|]. split; [done|]. split; [|split].
  - intros code e. rewrite Htwo.
    destruct (getOrCreateSession _ _ _ _) as [sm [session|x]];
      unfold handleChatCompletion_resume; [|by intros [= <- <-]].
    destruct (if messageCount session =? 0 then _ else _);
      [|by intros [= <- <-]].
    destruct (Queue.enqueue _ _ _) as [q [e0|promise]]; [|done].
    by intros [= <- <-].
  - simpl. by destruct Hname as [-> | ->].
  - intros m. simpl. destruct Hname as [-> | ->]; by destruct m.
Qed.

(** X26. A first request on a server whose queue is idle, followed to its
    answer: the exchange starts at once, with the prompt made of all the
    messages, a new chat and the page of the new session; when it is
    fulfilled the session counts one message and the request is answered
    with the text, the identifier of the session and the model name as
    the request gave it. *)
Theorem first_request_round_trip (evs : list ServerEvent) (env : RequestEnv)
    (body : ChatCompletionRequest) (msgs : list ChatMessage) (s : Session)
    (text : string) (renv : ResumeEnv) :
  let srv := server_run cfg evs start in
  messages body = Some msgs -> msgs <> [] -> stream body = false ->
  truthyModel (model body)
    && negb (Models.isValidModel (default "" (model body))) = false ->
  session_id body = None ->
  snd (createSession (create env) (sessionManager srv)) = Fulfilled s ->
  Queue.isProcessing (requestQueue srv) = false ->
  0 < maxQueueSize cfg ->
  let promise := Queue.nextId (requestQueue srv) in
  let srv1 := server_step cfg srv (ChatCompletion env body) in
  let srv2 :=
    server_step cfg srv1 (ExchangeSettles promise (Fulfilled text) renv) in
  map Queue.execute (Queue.running (requestQueue srv1))
  = [ {| ex_page := page s;
         ex_message := Copilot.formatMessagesAsPrompt msgs;
         ex_model := Models.getCopilotModel (model body);
         ex_isFirstMessage := true |} ]
  /\ responses srv1 = responses srv
  /\ responses srv2
     = responses srv
       ++ [Json {| response_id := "chatcmpl-" +++ responseUuid renv;
                   created := (responseNow renv / 1000)%Z;
                   response_model :=
                     if truthyModel (model body)
                     then default "" (model body) else "copilot-auto";
                   response_content := text;
                   response_session_id := id s |}]
  /\ getSession (id s) (sessionManager srv2) = Some (touch (touchNow renv) s)
  /\ messageCount (touch (touchNow renv) s) = 1
  /\ suspended srv2 = []
  /\ Queue.isProcessing (requestQueue srv2) = false.
Proof.
  intros srv Hmsgs Hne Hstream Hmodel Hsid Hs Hidle Hroom promise srv1 srv2.
  destruct (server_run_accounts evs start Sound_start)
    as [(Hinv & Hbound & Hco) _]. fold srv in Hinv, Hbound, Hco.
  destruct (SessionsMore.created_is_new _ _ _ Hs) as (Hget & Hcount & _).
  unfold Queue.isProcessing in Hidle.
  pose proof (proj2 Hinv Hidle) as Hqueue.
  pose proof (Queue.inv_running _ (proj1 Hinv)) as Hrun.
  rewrite Hidle in Hrun.
  assert (Hsus : suspended srv = []).
  { unfold Coherent, Queue.pendingIds in Hco. rewrite Hqueue in Hco.
    destruct (Queue.running (requestQueue srv)); [|done]. simpl in Hco.
    apply Permutation_nil_r in Hco. by destruct (suspended srv). }
  set (op := {| ex_page := page s;
                ex_message := Copilot.formatMessagesAsPrompt msgs;
                ex_model := Models.getCopilotModel (model body);
                ex_isFirstMessage := true |}).
  set (k := {| awaited := promise; sus_session := s;
               sus_requestedModel := model body |}).
  pose proof (QueueMore.enqueue_idle cfg op _ Hinv Hidle Hroom) as Henq.
  assert (H1 : handleChatCompletion cfg env body srv
               = ({| sessionManager :=
                       fst (createSession (create env) (sessionManager srv));
                     requestQueue := fst (Queue.enqueue cfg op (requestQueue srv));
                     suspended := []; responses := responses srv |},
                  inr k)).
  { unfold handleChatCompletion. rewrite Hmsgs.
    destruct msgs as [|m0 rest]; [done|]. rewrite Hstream, Hmodel, Hsid.
    simpl getOrCreateSession.
    destruct (createSession (create env) (sessionManager srv))
      as [sm' [session|x]]; simpl in Hs; [|done].
    injection Hs as ->. rewrite Hcount. cbn [Nat.eqb fmap].
    fold op. rewrite Henq, Hsus. done. }
  assert (Hsrv1 : srv1
                  = {| sessionManager :=
                         fst (createSession (create env) (sessionManager srv));
                       requestQueue :=
                         fst (Queue.enqueue cfg op (requestQueue srv));
                       suspended := [k]; responses := responses srv |}).
  { unfold srv1, server_step. by rewrite H1. }
  rewrite Henq in Hsrv1. simpl in Hsrv1.
  assert (Hsrv2 : srv2
            = respond
                (snd (handleChatCompletion_then renv k text
                        (forget promise srv1)))
                (fst (handleChatCompletion_then renv k text
                        (withQueue
                           (Queue.step cfg (requestQueue srv1)
                              (Queue.ExecuteSettles promise (Fulfilled text)))
                           (forget promise srv1))))).
  { unfold srv2, server_step. rewrite Hsrv1. unfold Queue.find_running.
    simpl. fold promise. rewrite Nat.eqb_refl.
    unfold deliver, find_suspended. simpl. by rewrite Nat.eqb_refl. }
  rewrite Hsrv2, Hsrv1. simpl. fold promise. rewrite Nat.eqb_refl. simpl.
  unfold getSession in *. unfold touchSession. simpl. rewrite Hget.
  simpl. rewrite map_get_mutate, String.eqb_refl, Hget. simpl.
  rewrite Hcount. do 6 (split; [done|]).
  unfold Queue.find_running. simpl. by rewrite Nat.eqb_refl.
Qed.

End Accounting.

Lemma first_request_round_trip_witness :
  let srv2 :=
    server_run config
      [ ChatCompletion (request_env 0 "s1" 7) hello;
        ExchangeSettles 0 (Fulfilled "hello there") (resume_env 9000) ]
      start in
  responses srv2
  = [Json {| response_id := "chatcmpl-r"; created := 9;
             response_model := "copilot-auto";
             response_content := "hello there";
             response_session_id := "s1" |}]
  /\ messageCount <$> getSession "s1" (sessionManager srv2) = Some 1.
Proof.
  destruct (first_request_round_trip config [] (request_env 0 "s1" 7) hello
              [user_says "hi"]
              {| id := "s1"; page := 7; createdAt := 0; lastActivityAt := 0;
                 messageCount := 0 |}
              "hello there" (resume_env 9000))
    as (_ & _ & Hres & Hget & _);
    [done|done|done|done|done|done|done|vm_compute; lia|].
  split; [etrans; [exact Hres|reflexivity]|].
  etrans; [exact (f_equal (fmap messageCount) Hget)|reflexivity].
Defined.


Lemma early_answers_are_errors_witness :
  handleChatCompletion config (request_env 0 "s1" 7) bad_model_no_messages start
  = (start, inl (Status 400 invalidMessages)).
Proof.
  destruct (early_answers_are_errors config (request_env 0 "s1" 7)
              bad_model_no_messages start) as (_ & _ & Hfirst & _).
  apply Hfirst. by right.
Defined.

Lemma exchange_carries_the_right_message_witness :
  let out :=
    handleChatCompletion config (request_env 5 "new" 9) follow_up one_session in
  map (fun it => ex_message (Queue.execute it))
      (Queue.running (requestQueue (fst out)))
  = ["second question"].
Proof.
  destruct (exchange_carries_the_right_message config (request_env 5 "new" 9)
              follow_up one_session _ _ eq_refl)
    as (msgs & op & _ & _ & Henq & _ & _ & _ & _ & Hlast).
  destruct Hlast as (before & m & after & _ & _ & _ & Hmessage);
    [vm_compute; lia|].
  reflexivity.
Defined.


Lemma health_counts_queued_requests_witness :
  let l := live_run small_queue three_arrivals live_start in
  length (suspended (server l)) = 2
  /\ queue_pending (handleHealthCheck 0 (server l)) = 1
  /\ queue_processing (handleHealthCheck 0 (server l)) = true
  /\ length (creating l) = 1.
Proof.
  destruct (health_counts_queued_requests small_queue three_arrivals 0)
    as (Hcount & _).
  split; [etrans; [exact Hcount|reflexivity]|]. by repeat split.
Defined.

Lemma inherited_names_reach_the_page_witness :
  let out :=
    handleChatCompletion config (request_env 0 "s1" 7) inherited_model start in
  map (fun it => Models.toText (ex_model (Queue.execute it)))
      (Queue.running (requestQueue (fst out)))
  = ["function Object() { [native code] }"]
  /\ map fst (sessions (sessionManager (fst out))) = ["s1"]
  /\ Models.recognized " Constructor " = false.
Proof.
  assert (Hne : [user_says "hi"] <> []) by done.
  destruct (inherited_names_reach_the_page config (request_env 0 "s1" 7)
              inherited_model start [user_says "hi"] " Constructor "
              eq_refl Hne eq_refl eq_refl (or_introl eq_refl))
    as (Hrec & _ & Hrun & _).
  split; [by rewrite Hrun|]. split; [by rewrite Hrun|exact Hrec].
Defined.

End HandlersMore.

(** * Properties of the browser manager *)

Module ManagerFacts.
Import JS Manager.

Lemma Steady_init : Steady init.
Proof. split; [done|]. by intros promise. Qed.

Lemma Steady_close (contextClose : Outcome unit) (m : BrowserManager) :
  Steady m -> Steady (fst (close contextClose m)).
Proof.
  intros Hm. unfold close. destruct (context m); [|done].
  destruct contextClose; [|done]. destruct Hm as [H1 H2].
  split; simpl; [done|exact H2].
Qed.

Lemma doInitialize_cases (headless : bool) (env : LaunchEnv)
    (m : BrowserManager) :
  (exists c p, doInitialize headless env m
               = (ready headless c p m, Fulfilled tt))
  \/ (exists m' x, doInitialize headless env m = (m', RejectedWith x)
                   /\ initialized m' = initialized m
                   /\ initializing m' = initializing m
                   /\ closedContexts m' = closedContexts m).
Proof.
  unfold doInitialize.
  destruct (mkdirSync env) as [[]|x]; [|right; by eexists _, _].
  destruct (launchPersistentContext env) as [c|x]; [|right; by eexists _, _].
  destruct (pages env) as [|p l]; [|left; by eexists _, _].
  destruct (newPage env) as [p|x]; [left|right]; by eexists _, _.
Qed.

Lemma Steady_initialize (headless : bool) (contextClose : Outcome unit)
    (env : LaunchEnv) (m : BrowserManager) :
  Steady m -> Steady (fst (initialize headless contextClose env m)).
Proof.
  intros Hm. unfold initialize. destruct (initializing m) eqn:Hp; [done|].
  pose proof (Steady_close contextClose m Hm) as Hc.
  assert (Hnone : initializing (fst (close contextClose m)) = None).
  { unfold close. destruct (context m); [|done]. by destruct contextClose. }
  destruct (initialized m && negb (Bool.eqb (currentHeadless m) headless)).
  - destruct (close contextClose m) as [m1 [[]|x]]; simpl in *; [|done].
    destruct (initialized m1) eqn:Hi; [done|].
    destruct (doInitialize_cases headless env m1)
      as [(c & p & ->)|(m' & x & -> & Hi' & _)]; simpl.
    + split; [by repeat split|by intros promise].
    + split; simpl; [congruence|]. intros promise [= <-]. by exists x.
  - destruct (initialized m) eqn:Hi; [done|].
    destruct (doInitialize_cases headless env m)
      as [(c & p & ->)|(m' & x & -> & Hi' & _)]; simpl.
    + split; [by repeat split|by intros promise].
    + split; simpl; [congruence|]. intros promise [= <-]. by exists x.
Qed.

Lemma Steady_step (m : BrowserManager) (call : Call) :
  Steady m -> Steady (step m call).
Proof.
  intros Hm. pose proof (fun h cl env => Steady_initialize h cl env m Hm) as Hi.
  destruct call as [h cl env|cl|h cl env|h cl env]; simpl.
  - apply Hi.
  - by apply Steady_close.
  - unfold getContext. destruct (negb (initialized m)); [|done].
    specialize (Hi h cl env).
    by destruct (initialize h cl env m) as [m1 [[]|x]].
  - unfold getPage.
    destruct (negb (initialized m) || negb (bool_decide (is_Some (page m))));
      [|done].
    specialize (Hi h cl env).
    by destruct (initialize h cl env m) as [m1 [[]|x]].
Qed.

Lemma Steady_run (calls : list Call) : forall m,
  Steady m -> Steady (run calls m).
Proof.
  induction calls as [|call calls IH]; intros m Hm; [done|].
  simpl. by apply IH, Steady_step.
Qed.

Lemma initialize_Fulfilled (headless : bool) (contextClose : Outcome unit)
    (env : LaunchEnv) (m : BrowserManager) :
  Steady m ->
  snd (initialize headless contextClose env m) = Fulfilled tt ->
  initialized (fst (initialize headless contextClose env m)) = true
  /\ currentHeadless (fst (initialize headless contextClose env m)) = headless.
Proof.
  intros [H1 H2]. unfold initialize.
  destruct (initializing m) as [promise|] eqn:Hp.
  { simpl. intros ->. by destruct (H2 _ eq_refl). }
  destruct (initialized m) eqn:Hi; simpl.
  - destruct (Bool.eqb (currentHeadless m) headless) eqn:Hmode; simpl.
    + rewrite Hi. simpl. intros _. split; [done|by apply Bool.eqb_prop].
    + destruct (H1 eq_refl) as ((c & Hc) & _). unfold close. rewrite Hc.
      destruct contextClose as [[]|x]; simpl; [|done].
      destruct (doInitialize_cases headless env
                  {| context := None; page := None; initialized := false;
                     initializing := initializing m;
                     currentHeadless := currentHeadless m;
                     closedContexts := closedContexts m ++ [c] |})
        as [(c' & p & ->)|(m' & x & -> & _)]; [done|done].
  - rewrite Hi.
    by destruct (doInitialize_cases headless env m)
      as [(c' & p & ->)|(m' & x & -> & _)].
Qed.

(** X27. A context that [getContext] hands out is never [null], in any state
    that calls on the manager lead to: it checks [initialized], and
    [initialized] is set only once the context and the page are there. *)
Theorem getContext_is_never_null (calls : list Call) (headless : bool)
    (contextClose : Outcome unit) (env : LaunchEnv) (c : option Context) :
  let m := run calls init in
  snd (getContext headless contextClose env m) = Fulfilled c ->
  is_Some c /\ initialized (fst (getContext headless contextClose env m)) = true.
Proof.
  intros m. pose proof (Steady_run calls init Steady_init) as Hm. fold m in Hm.
  unfold getContext. destruct (initialized m) eqn:Hi; simpl.
  - intros [= <-]. split; [|done]. by destruct Hm as [H1 _], (H1 Hi).
  - pose proof (Steady_initialize headless contextClose env m Hm) as Hs.
    pose proof (initialize_Fulfilled headless contextClose env m Hm) as Hf.
    destruct (initialize headless contextClose env m) as [m1 [[]|x]];
      simpl in *; [|done].
    intros [= <-]. destruct (Hf eq_refl) as [Hi1 _]. split; [|done].
    by destruct Hs as [H1 _], (H1 Hi1).
Qed.

(** The promise kept in [initializing] is rejected with [x], and the
    manager is not initialized. *)
Lemma stuck_step (x : Thrown) (m : BrowserManager) (call : Call) :
  initializing m = Some (RejectedWith x) /\ initialized m = false ->
  initializing (step m call) = Some (RejectedWith x)
  /\ initialized (step m call) = false.
Proof.
  intros [Hp Hi].
  assert (Hinit : forall h cl env,
            initialize h cl env m = (m, RejectedWith x)).
  { intros h cl env. unfold initialize. by rewrite Hp. }
  destruct call as [h cl env|cl|h cl env|h cl env]; simpl.
  - by rewrite Hinit.
  - unfold close. destruct (context m); [|done]. by destruct cl.
  - unfold getContext. by rewrite Hi, Hinit.
  - unfold getPage. by rewrite Hi, Hinit.
Qed.

Lemma stuck_run (x : Thrown) (calls : list Call) : forall m,
  initializing m = Some (RejectedWith x) /\ initialized m = false ->
  initializing (run calls m) = Some (RejectedWith x)
  /\ initialized (run calls m) = false.
Proof.
  induction calls as [|call calls IH]; intros m Hm; [done|].
  simpl. by apply IH, stuck_step.
Qed.

(** X28. Once a launch of the browser has failed, the manager never launches
    it again: [initializing] keeps the rejected promise, because the
    line that sets it back to [null] is not reached, and every later
    call of [initialize], [getContext] or [getPage] is rejected with the
    error of the first failure, whatever the browser would do now. *)
Theorem failed_launch_is_sticky (calls later : list Call)
    (headless headless' : bool) (contextClose contextClose' : Outcome unit)
    (env env' : LaunchEnv) (x : Thrown) :
  let m := run calls init in
  initialized m = false ->
  snd (initialize headless contextClose env m) = RejectedWith x ->
  let m' := run later (fst (initialize headless contextClose env m)) in
  initialized m' = false
  /\ initialize headless' contextClose' env' m' = (m', RejectedWith x)
  /\ getContext headless' contextClose' env' m' = (m', RejectedWith x)
  /\ getPage headless' contextClose' env' m' = (m', RejectedWith x).
Proof.
  intros m Hi Hfail m'.
  pose proof (Steady_run calls init Steady_init) as Hm. fold m in Hm.
  assert (Hstuck : initializing (fst (initialize headless contextClose env m))
                   = Some (RejectedWith x)
                   /\ initialized (fst (initialize headless contextClose env m))
                      = false).
  { revert Hfail. unfold initialize.
    destruct (initializing m) as [promise|] eqn:Hp; simpl.
    { by intros ->. }
    rewrite Hi. simpl. rewrite Hi.
    destruct (doInitialize_cases headless env m)
      as [(c & p & ->)|(m1 & y & -> & Hi1 & _)]; simpl; [done|].
    intros [= ->]. split; [done|congruence]. }
  destruct (stuck_run x later _ Hstuck) as [Hp' Hi']. fold m' in Hp', Hi'.
  assert (Hinit : initialize headless' contextClose' env' m'
                  = (m', RejectedWith x)).
  { unfold initialize. by rewrite Hp'. }
  split; [done|]. split; [done|].
  unfold getContext, getPage. by rewrite Hi', Hinit.
Qed.

(** X29. After a call of [initialize] that succeeds the browser runs in the
    mode that was asked for, and a second call for the same mode does
    nothing, whatever the browser would answer; when the mode differs
    from the one the browser ran in, the old context has been closed. *)
Theorem initialize_settles_the_mode (calls : list Call) (headless : bool)
    (contextClose contextClose' : Outcome unit) (env env' : LaunchEnv) :
  let m := run calls init in
  snd (initialize headless contextClose env m) = Fulfilled tt ->
  let m1 := fst (initialize headless contextClose env m) in
  initialized m1 = true /\ currentHeadless m1 = headless
  /\ is_Some (context m1)
  /\ initialize headless contextClose' env' m1 = (m1, Fulfilled tt)
  /\ (initialized m = true -> currentHeadless m = headless -> m1 = m)
  /\ (forall c, initialized m = true -> currentHeadless m <> headless ->
        context m = Some c ->
        closedContexts m1 = closedContexts m ++ [c]
        /\ context m1 <> None).
Proof.
  intros m Hok m1.
  pose proof (Steady_run calls init Steady_init) as Hm. fold m in Hm.
  pose proof (Steady_initialize headless contextClose env m Hm) as Hm1.
  fold m1 in Hm1.
  destruct (initialize_Fulfilled headless contextClose env m Hm Hok)
    as [Hi1 Hmode1]. fold m1 in Hi1, Hmode1.
  destruct Hm1 as [H1 _]. destruct (H1 Hi1) as (Hc1 & _ & Hp1).
  split; [done|]. split; [done|]. split; [done|]. split; [|split].
  - unfold initialize. rewrite Hp1, Hi1, Hmode1, Bool.eqb_reflx. simpl.
    by rewrite Hi1.
  - intros Hi Hmode. unfold m1, initialize.
    destruct Hm as [Hm _]. destruct (Hm Hi) as (_ & _ & ->).
    rewrite Hi, Hmode, Bool.eqb_reflx. simpl. by rewrite Hi.
  - intros c Hi Hmode Hc. split; [|by destruct Hc1 as [? ->]].
    revert Hok. unfold m1, initialize.
    destruct Hm as [Hm _]. destruct (Hm Hi) as (_ & _ & Hp). rewrite Hp, Hi.
    apply Bool.eqb_false_iff in Hmode. rewrite Hmode. simpl.
    unfold close. rewrite Hc. destruct contextClose as [[]|x]; simpl; [|done].
    match goal with
    | |- context [doInitialize ?h ?e ?mm] =>
        by destruct (doInitialize_cases h e mm)
          as [(c' & p & ->)|(m' & y & -> & _ & _ & Hcl)]
    end.
Qed.


Lemma getContext_is_never_null_witness :
  snd (getContext true (Fulfilled tt) (Examples.launch_ok 3 4) init)
  = Fulfilled (Some 3).
Proof.
  destruct (getContext_is_never_null [] true (Fulfilled tt)
              (Examples.launch_ok 3 4) (Some 3) eq_refl) as [_ _].
  reflexivity.
Defined.

Lemma failed_launch_is_sticky_witness :
  let m := fst (initialize true (Fulfilled tt) Examples.launch_fails init) in
  snd (getContext true (Fulfilled tt) (Examples.launch_ok 3 4)
         (run [Close (Fulfilled tt)] m))
  = RejectedWith (ThrownError (mkError "Failed to launch the browser")).
Proof.
  destruct (failed_launch_is_sticky [] [Close (Fulfilled tt)] true true
              (Fulfilled tt) (Fulfilled tt) Examples.launch_fails
              (Examples.launch_ok 3 4)
              (ThrownError (mkError "Failed to launch the browser"))
              eq_refl eq_refl) as (_ & _ & Hget & _).
  exact (f_equal snd Hget).
Defined.

Lemma initialize_settles_the_mode_witness :
  let m := run [Initialize true (Fulfilled tt) (Examples.launch_ok 3 4)] init in
  let m1 := fst (initialize false (Fulfilled tt) (Examples.launch_ok 5 6) m) in
  context m1 = Some 5 /\ closedContexts m1 = [3]
  /\ currentHeadless m1 = false.
Proof.
  destruct (initialize_settles_the_mode
              [Initialize true (Fulfilled tt) (Examples.launch_ok 3 4)]
              false (Fulfilled tt) (Fulfilled tt) (Examples.launch_ok 5 6)
              (Examples.launch_ok 5 6) eq_refl)
    as (_ & Hmode & _ & _ & _ & Hswitch).
  destruct (Hswitch 3 eq_refl ltac:(done) eq_refl) as [Hclosed _].
  split; [reflexivity|]. split; [exact Hclosed|exact Hmode].
Defined.
End ManagerFacts.
